(** * gpt-term: a shallow embedding of the interaction engine

    The development follows the three Go packages of the repository:

    - [storage]  (internal/storage): conversations on disk;
    - [claude]   (internal/claude): the request sent to the remote assistant;
    - [main]     (cmd/gpt-term/main.go): the bubbletea model, its [Update]
      function, command extraction and the helpers around the viewport.

    Conventions.

    - A Go [string] is a sequence of bytes: Rocq's [string], one [ascii] per
      byte.  Paths are those of darwin and linux: [filepath.Join] and
      [filepath.Ext] with the slash as separator.
    - A Go [int] is embedded as [Z].  Every integer of the program is a slice
      length, an index or a terminal dimension; on the 64-bit targets the
      program is built for none of them comes near 2^63, so the arithmetic
      is exact.  Go's [/] truncates towards zero: [Z.quot].
    - A run-time panic (index out of range) is the [Panic] result of the
      [Result] monad.
    - Slices are embedded as lists, with value semantics.  (After Enter
      in the history list the program's [m.messages] shares its array with
      an entry of [m.conversations], so an edit commit can also change
      that entry; the list [conversations] of the model does not follow
      such writes, and nothing below is said of the messages its entries
      hold after a step.)
    - Everything the program does not implement itself (JSON, lipgloss
      styles, the text-input and spinner widgets, time formatting, the
      operating system) is a field of [Env] or of [World].  The viewport
      widget is embedded with the operations section 4.2 of the
      specification gives it; what can fail inside the widget is not
      embedded.
    - The commands [Update] returns are data ([Cmd]); what the runtime
      later does with them comes back as a message ([Msg]).  The closures
      of [executeCommand] and [editMessageCmd] are the functions
      [runCommand] and [editorExited].
    - [View], [statusBarView], [Init] and [main] draw the frame and start
      the process; they change no state and are not embedded. *)

From Stdlib Require Import List ZArith Lia Bool Ascii String DecimalString.
Import ListNotations.

Local Open Scope list_scope.
Local Open Scope string_scope.

(* ===================================================================== *)
(** * Go's [strings] package, as far as the program uses it *)
(* ===================================================================== *)

Module strings.

(** [s[n:]] for [n <= len(s)]. *)
Fixpoint drop (n : nat) (s : string) : string :=
  match n, s with
  | O, _ => s
  | S _, EmptyString => EmptyString
  | S k, String _ t => drop k t
  end.

(** [s[:n]] for [n <= len(s)]. *)
Fixpoint take (n : nat) (s : string) : string :=
  match n, s with
  | O, _ => EmptyString
  | S _, EmptyString => EmptyString
  | S k, String c t => String c (take k t)
  end.

(** [strings.HasPrefix(s, p)]. *)
Fixpoint HasPrefix (s p : string) : bool :=
  match p, s with
  | EmptyString, _ => true
  | String _ _, EmptyString => false
  | String a p', String b s' => if Ascii.eqb a b then HasPrefix s' p' else false
  end.

(** [strings.Cut(s, sep)]: the text before and after the first (leftmost)
    occurrence of [sep], or [None] when [sep] does not occur. *)
Fixpoint Cut (s sep : string) : option (string * string) :=
  if HasPrefix s sep then Some (EmptyString, drop (length sep) s)
  else match s with
       | EmptyString => None
       | String c t =>
           match Cut t sep with
           | Some (before, after) => Some (String c before, after)
           | None => None
           end
       end.

(** [strings.Contains(s, substr)]. *)
Definition Contains (s substr : string) : bool :=
  match Cut s substr with Some _ => true | None => false end.

(** [strings.Split(s, "\n")] for the one-byte separator the program uses:
    the result always has one more element than [s] has separators. *)
Fixpoint Split (s : string) (sep : ascii) : list string :=
  match s with
  | EmptyString => [EmptyString]
  | String c t =>
      if Ascii.eqb c sep then EmptyString :: Split t sep
      else match Split t sep with
           | [] => [String c EmptyString]
           | l :: ls => String c l :: ls
           end
  end.

(** [strings.Count(s, "\n") ]. *)
Fixpoint Count (s : string) (sep : ascii) : nat :=
  match s with
  | EmptyString => O
  | String c t => if Ascii.eqb c sep then S (Count t sep) else Count t sep
  end.

Definition byte (c : ascii) : N := N_of_ascii c.

(** The [asciiSpace] table of package [strings]:
    tab, newline, vertical tab, form feed, carriage return, space. *)
Definition asciiSpace (c : ascii) : bool :=
  match byte c with
  | 9%N | 10%N | 11%N | 12%N | 13%N | 32%N => true
  | _ => false
  end.

(** The two-byte UTF-8 encodings of the runes for which [unicode.IsSpace]
    holds: U+0085 (C2 85) and U+00A0 (C2 A0). *)
Definition space2 (b1 b2 : ascii) : bool :=
  match byte b1, byte b2 with
  | 194%N, 133%N | 194%N, 160%N => true
  | _, _ => false
  end.

(** The three-byte encodings: U+1680 (E1 9A 80), U+2000..U+200A
    (E2 80 80 .. E2 80 8A), U+2028, U+2029, U+202F (E2 80 A8/A9/AF),
    U+205F (E2 81 9F) and U+3000 (E3 80 80). *)
Definition space3 (b1 b2 b3 : ascii) : bool :=
  match byte b1, byte b2, byte b3 with
  | 225%N, 154%N, 128%N => true
  | 226%N, 128%N, n => (N.leb 128 n && N.leb n 138) || N.eqb n 168
                       || N.eqb n 169 || N.eqb n 175
  | 226%N, 129%N, 159%N => true
  | 227%N, 128%N, 128%N => true
  | _, _, _ => false
  end.

(** Byte length of the white-space rune [utf8.DecodeRuneInString] finds at
    the start of [s]; 0 when [s] is empty or starts with another rune (or
    with an invalid byte, which decodes to U+FFFD). *)
Definition spaceWidth (s : string) : nat :=
  match s with
  | EmptyString => 0
  | String b1 t1 =>
      if asciiSpace b1 then 1
      else match t1 with
           | EmptyString => 0
           | String b2 t2 =>
               if space2 b1 b2 then 2
               else match t2 with
                    | EmptyString => 0
                    | String b3 _ => if space3 b1 b2 b3 then 3 else 0
                    end
           end
  end.

(** [strings.TrimLeftFunc(s, unicode.IsSpace)]. *)
Fixpoint TrimLeftSpace (s : string) : string :=
  match s with
  | EmptyString => s
  | String b1 t1 =>
      if asciiSpace b1 then TrimLeftSpace t1
      else match t1 with
           | EmptyString => s
           | String b2 t2 =>
               if space2 b1 b2 then TrimLeftSpace t2
               else match t2 with
                    | EmptyString => s
                    | String b3 t3 =>
                        if space3 b1 b2 b3 then TrimLeftSpace t3 else s
                    end
           end
  end.

(** The bytes of [s] from last to first, and back. *)
Definition bytesRev (s : string) : list ascii := rev (list_ascii_of_string s).
Definition ofBytesRev (l : list ascii) : string := string_of_list_ascii (rev l).

(** Byte length of the white-space rune [utf8.DecodeLastRuneInString] finds
    at the end of a string, given the string's bytes from last to first. *)
Definition spaceWidthLast (r : list ascii) : nat :=
  match r with
  | [] => 0
  | b1 :: t1 =>
      if asciiSpace b1 then 1
      else match t1 with
           | [] => 0
           | b2 :: t2 =>
               if space2 b2 b1 then 2
               else match t2 with
                    | [] => 0
                    | b3 :: _ => if space3 b3 b2 b1 then 3 else 0
                    end
           end
  end.

Fixpoint trimRev (r : list ascii) : list ascii :=
  match r with
  | [] => r
  | b1 :: t1 =>
      if asciiSpace b1 then trimRev t1
      else match t1 with
           | [] => r
           | b2 :: t2 =>
               if space2 b2 b1 then trimRev t2
               else match t2 with
                    | [] => r
                    | b3 :: t3 => if space3 b3 b2 b1 then trimRev t3 else r
                    end
           end
  end.

(** [strings.TrimRightFunc(s, unicode.IsSpace)]. *)
Definition TrimRightSpace (s : string) : string := ofBytesRev (trimRev (bytesRev s)).

(** [strings.TrimSpace(s)]: leading white space is removed first, trailing
    white space of what remains second. *)
Definition TrimSpace (s : string) : string := TrimRightSpace (TrimLeftSpace s).

(** [s] starts, respectively ends, with a white-space rune. *)
Definition leadingSpace (s : string) : bool := negb (Nat.eqb (spaceWidth s) 0).
Definition trailingSpace (s : string) : bool :=
  negb (Nat.eqb (spaceWidthLast (bytesRev s)) 0).

(** [strconv.Itoa] on the integers the program prints. *)
Definition Itoa (z : Z) : string :=
  DecimalString.NilZero.string_of_int (Z.to_int z).

End strings.

Module strconv.

Definition digit (c : ascii) : option Z :=
  let n := strings.byte c in
  if (N.leb 48 n && N.leb n 57)%bool then Some (Z.of_N n - 48)%Z else None.

Fixpoint digits (s : string) (acc : Z) : option Z :=
  match s with
  | EmptyString => Some acc
  | String c t =>
      match digit c with
      | Some d => digits t (acc * 10 + d)%Z
      | None => None
      end
  end.

(** [strconv.Atoi(s)]: an optional sign and at least one decimal digit;
    [None] stands for a non-nil error (syntax, or out of the range of a
    64-bit [int]). *)
Definition Atoi (s : string) : option Z :=
  match s with
  | EmptyString => None
  | String c t =>
      let neg := Ascii.eqb c "-"%char in
      let body := if (neg || Ascii.eqb c "+"%char)%bool then t else s in
      match body with
      | EmptyString => None
      | _ =>
          match digits body 0 with
          | None => None
          | Some v =>
              let v := (if neg then - v else v)%Z in
              if ((- 2 ^ 63 <=? v) && (v <=? 2 ^ 63 - 1))%Z%bool then Some v else None
          end
      end
  end.

End strconv.


(* ===================================================================== *)
(** * Results and panics *)
(* ===================================================================== *)

(** Go's [error] values are only ever stored and shown: their text. *)
Definition error := string.

(** An index outside a slice stops the program with a run-time panic. *)
Inductive Result (A : Type) : Type :=
| Ok (a : A)
| Panic (why : string).
Arguments Ok {A} a.
Arguments Panic {A} why.

Definition bind {A B : Type} (r : Result A) (k : A -> Result B) : Result B :=
  match r with
  | Ok a => k a
  | Panic why => Panic why
  end.

Notation "x <- r ;; k" := (bind r (fun x => k))
  (at level 61, r at next level, right associativity).

(** [len(s)] *)
Definition len {A : Type} (l : list A) : Z := Z.of_nat (List.length l).

(** [s[i]] *)
Definition index {A : Type} (l : list A) (i : Z) : Result A :=
  if (i <? 0)%Z then Panic "index out of range"
  else match nth_error l (Z.to_nat i) with
       | Some a => Ok a
       | None => Panic "index out of range"
       end.

(** [s[:n]] for [0 <= n <= len(s)] *)
Definition slice_to {A : Type} (l : list A) (n : Z) : list A := firstn (Z.to_nat n) l.

(** [s[i] = v], for an index already known to be in range *)
Fixpoint assign {A : Type} (l : list A) (i : nat) (v : A) : list A :=
  match l, i with
  | [], _ => []
  | _ :: t, O => v :: t
  | a :: t, S k => a :: assign t k v
  end.

(* ===================================================================== *)
(** * Package regexp: the two patterns of the program *)
(* ===================================================================== *)

Module regexp.

Definition openTag : string := "<command>".
Definition closeTag : string := "</command>".
Definition fence : string := "```".
Definition newline : string := String "010"%char EmptyString.

(** Leftmost match of [(?s)<command>(.*?)</command>] in [s]: the text before
    the match, the submatch, and the text after the match.  The match starts
    at the first opening tag; the lazy [.*?] stops at the first closing tag
    after it.  When that opening tag is never closed no later start can
    match either. *)
Definition matchCommand (s : string) : option (string * string * string) :=
  match strings.Cut s openTag with
  | None => None
  | Some (before, r) =>
      match strings.Cut r closeTag with
      | None => None
      | Some (inner, after) => Some (before, inner, after)
      end
  end.

(** Leftmost match of [(?s)```.*?\n(.*?)```]: the first fence, the first
    newline after it, the first fence after that newline. *)
Definition matchCodeBlock (s : string) : option (string * string * string) :=
  match strings.Cut s fence with
  | None => None
  | Some (before, r) =>
      match strings.Cut r newline with
      | None => None
      | Some (_, r') =>
          match strings.Cut r' fence with
          | None => None
          | Some (code, after) => Some (before, code, after)
          end
      end
  end.

(** [re.FindAllStringSubmatch(s, -1)] for the command pattern: successive
    non-overlapping matches, each the slice [[whole match; submatch 1]].
    Every match is at least 19 bytes long, so [fuel = len(s)] is enough. *)
Fixpoint findAll (fuel : nat) (s : string) : list (list string) :=
  match fuel with
  | O => []
  | S k =>
      match matchCommand s with
      | None => []
      | Some (_, inner, after) =>
          [openTag ++ inner ++ closeTag; inner] :: findAll k after
      end
  end.

Definition FindAllStringSubmatch (s : string) : list (list string) :=
  findAll (length s) s.

(** [re.ReplaceAllStringFunc(s, repl)] where [repl] only looks at submatch 1
    of the match it is given (as both callers in [formatContent] do). *)
Fixpoint replaceAll (matcher : string -> option (string * string * string))
    (repl : string -> string) (fuel : nat) (s : string) : string :=
  match fuel with
  | O => s
  | S k =>
      match matcher s with
      | None => s
      | Some (before, sub, after) =>
          before ++ repl sub ++ replaceAll matcher repl k after
      end
  end.

Definition ReplaceAllStringFunc
    (matcher : string -> option (string * string * string))
    (repl : string -> string) (s : string) : string :=
  replaceAll matcher repl (length s) s.

End regexp.

(* ===================================================================== *)
(** * Go's [path/filepath] package, as far as the program uses it *)
(* ===================================================================== *)

Module filepath.

(** Paths are those of darwin and linux: the separator is the slash. *)
Definition Separator : ascii := "/"%char.

(** The path starts at the root. *)
Definition rooted (path : string) : bool :=
  match path with
  | EmptyString => false
  | String c _ => Ascii.eqb c Separator
  end.

(** The loop of [Clean] over the elements of the path, the texts between
    its separators; [out] holds the elements written so far, the last one
    first.  An empty element and [.] are dropped; [..] takes back the
    element written before it, is written itself when there is none to
    take back and the path is not rooted, and is dropped at the root. *)
Fixpoint cleanElements (rooted : bool) (elems out : list string) : list string :=
  match elems with
  | [] => out
  | e :: rest =>
      if (e =? "") || (e =? ".") then cleanElements rooted rest out
      else if e =? ".." then
        match out with
        | top :: below =>
            if top =? ".." then cleanElements rooted rest (e :: out)
            else cleanElements rooted rest below
        | [] =>
            if rooted then cleanElements rooted rest []
            else cleanElements rooted rest [e]
        end
      else cleanElements rooted rest (e :: out)
  end.

(** The elements of the cleaned path. *)
Definition elements (path : string) : list string :=
  rev (cleanElements (rooted path) (strings.Split path Separator) []).

(** [filepath.Clean(path)]: the shortest path with the same meaning, by
    reading alone; the empty path becomes [.]. *)
Definition Clean (path : string) : string :=
  if rooted path then "/" ++ String.concat "/" (elements path)
  else match elements path with
       | [] => "."
       | elems => String.concat "/" elems
       end.

(** [filepath.Join(a, b)]: the two joined by a separator and cleaned; an
    empty element is ignored. *)
Definition Join (a b : string) : string :=
  if a =? "" then (if b =? "" then "" else Clean b)
  else Clean (a ++ "/" ++ b).

End filepath.

(* ===================================================================== *)
(** * Package storage (internal/storage) *)
(* ===================================================================== *)

Module storage.

(** [time.Time]: an instant; only compared and formatted. *)
Definition Time := Z.

Record Message := {
  Role : string;
  Content : string;
  Timestamp : Time
}.

Record Conversation := {
  ID : string;
  Messages : list Message;
  CreatedAt : Time;
  Summary : string
}.

(** What the package takes from the standard library: [encoding/json] for
    [Conversation] values and [time.Time.Format]. *)
Record Codec := {
  json_Unmarshal : string -> option Conversation;
  json_MarshalIndent : Conversation -> string + error;
  time_Format : Time -> string -> string
}.

(** The storage directory as the operating system presents it: its path
    [baseDir], whether [os.ReadDir] succeeds, the entries (by name, in the
    order [os.ReadDir] returns them) with what [os.ReadFile] gives for
    each, whether [os.WriteFile] succeeds on an entry of the directory,
    and what it returns for any other path (one below an entry of the
    directory, or outside the directory). *)
Record File := {
  Name : string;
  Data : string + error
}.

Record Dir := {
  baseDir : string;
  ReadDirErr : option error;
  Files : list File;
  WriteFileErr : option error;
  WriteOutsideErr : string -> option error
}.

(** [filepath.Ext(path)]: the suffix starting at the last dot of the last
    path element, scanning [rest] from the last byte backwards. *)
Fixpoint extScan (rest : list ascii) (seen : list ascii) : string :=
  match rest with
  | [] => EmptyString
  | c :: t =>
      if Ascii.eqb c "/"%char then EmptyString
      else if Ascii.eqb c "."%char then string_of_list_ascii (c :: seen)
      else extScan t (c :: seen)
  end.

Definition Ext (path : string) : string := extScan (strings.bytesRev path) [].

(** [os.WriteFile] on the entry [name] of the directory: an existing entry
    is overwritten in place, a new one is added in name order. *)
Fixpoint writeEntry (fs : list File) (name data : string) : list File :=
  match fs with
  | [] => [{| Name := name; Data := inl data |}]
  | f :: t =>
      if String.eqb (Name f) name then {| Name := name; Data := inl data |} :: t
      else if String.ltb name (Name f)
           then {| Name := name; Data := inl data |} :: f :: t
           else f :: writeEntry t name data
  end.

(** What a path to an entry of the directory at [dir] starts with: the
    cleaned path of the directory and a separator. *)
Definition dirPrefix (dir : string) : string :=
  (if filepath.rooted dir then "/" else "")
  ++ String.concat "" (map (fun e => e ++ "/") (filepath.elements dir)).

(** A name of a directory entry: not empty, neither [.] nor [..], without
    a separator. *)
Definition isName (n : string) : bool :=
  negb (n =? "") && negb (n =? ".") && negb (n =? "..")
  && Nat.eqb (strings.Count n filepath.Separator) 0.

(** The entry of the directory at [dir] that the cleaned path [path]
    names, if it names one: [path] is the directory's path, a separator
    and the name. *)
Definition entryOf (dir path : string) : option string :=
  if strings.HasPrefix path (dirPrefix dir) then
    let n := strings.drop (length (dirPrefix dir)) path in
    if isName n then Some n else None
  else None.

Section WithCodec.
Variable codec : Codec.

Definition fileName (conv : Conversation) : string :=
  time_Format codec (CreatedAt conv) "2006-01-02T15-04-05"
    ++ "_" ++ ID conv ++ ".convo".

(** [SaveConversation]: the (possibly updated) directory and the error.
    The file is written at [filepath.Join(s.baseDir, filename)]: when that
    path names an entry of the directory the entry is written; when the
    id leads the path elsewhere (below an entry, or out of the directory)
    the file is written there, if it can be, and the entries of the
    directory stay as they are. *)
Definition SaveConversation (d : Dir) (conv : Conversation) : Dir * option error :=
  let filename := fileName conv in
  let filepath := filepath.Join (baseDir d) filename in
  match json_MarshalIndent codec conv with
  | inr e => (d, Some ("error marshaling conversation: " ++ e))
  | inl data =>
      match entryOf (baseDir d) filepath with
      | Some name =>
          match WriteFileErr d with
          | Some e => (d, Some ("error writing conversation file: " ++ e))
          | None =>
              ({| baseDir := baseDir d;
                  ReadDirErr := ReadDirErr d;
                  Files := writeEntry (Files d) name data;
                  WriteFileErr := WriteFileErr d;
                  WriteOutsideErr := WriteOutsideErr d |}, None)
          end
      | None =>
          match WriteOutsideErr d filepath with
          | Some e => (d, Some ("error writing conversation file: " ++ e))
          | None => (d, None)
          end
      end
  end.

(** The body of the loop of [ListConversations] for one directory entry:
    the conversation to append, or [None] for [continue] and for entries
    with another extension. *)
Definition loadEntry (f : File) : option Conversation :=
  if String.eqb (Ext (Name f)) ".convo" then
    match Data f with
    | inr _ => None
    | inl data => json_Unmarshal codec data
    end
  else None.

Fixpoint loadEntries (fs : list File) : list Conversation :=
  match fs with
  | [] => []
  | f :: t =>
      match loadEntry f with
      | Some conv => conv :: loadEntries t
      | None => loadEntries t
      end
  end.

Definition ListConversations (d : Dir) : list Conversation + error :=
  match ReadDirErr d with
  | Some e => inr ("error reading directory: " ++ e)
  | None => inl (loadEntries (Files d))
  end.

(** [LoadConversation]: the first entry that loads and has the id. *)
Fixpoint findEntry (fs : list File) (id : string) : option Conversation :=
  match fs with
  | [] => None
  | f :: t =>
      match loadEntry f with
      | Some conv => if String.eqb (ID conv) id then Some conv else findEntry t id
      | None => findEntry t id
      end
  end.

Definition LoadConversation (d : Dir) (id : string) : Conversation + error :=
  match ReadDirErr d with
  | Some e => inr ("error reading directory: " ++ e)
  | None =>
      match findEntry (Files d) id with
      | Some conv => inl conv
      | None => inr ("conversation not found: " ++ id)
      end
  end.

Definition UpdateConversation (d : Dir) (conv : Conversation) : Dir * option error :=
  SaveConversation d conv.

End WithCodec.

(** [summary[:47] + "..."] when the content is longer than 50 bytes. *)
Definition summarize (content : string) : string :=
  if (50 <? Z.of_nat (length content))%Z then strings.take 47 content ++ "..."
  else content.

(** The first message with role [user], if any. *)
Fixpoint firstUser (msgs : list Message) : option Message :=
  match msgs with
  | [] => None
  | m :: t => if String.eqb (Role m) "user" then Some m else firstUser t
  end.

Definition GenerateConversationSummary (messages : list Message) : string :=
  match messages with
  | [] => "Empty conversation"
  | _ =>
      match firstUser messages with
      | Some m => summarize (Content m)
      | None => "No user messages"
      end
  end.

End storage.

(* ===================================================================== *)
(** * Package claude (internal/claude) *)
(* ===================================================================== *)

Module claude.

Record Message := {
  Role : string;
  Content : string
}.

Record CreateMessageRequest := {
  Model : string;
  Messages : list Message;
  MaxTokens : Z;
  System : string
}.

(** The loop at the head of [CreateMessage]: messages with role [system]
    are taken out of the turns, the last one becomes the system text. *)
Fixpoint filterSystem (messages : list Message) (systemMsg : string)
    : string * list Message :=
  match messages with
  | [] => (systemMsg, [])
  | m :: t =>
      if String.eqb (Role m) "system" then filterSystem t (Content m)
      else let (sys, rest) := filterSystem t systemMsg in (sys, m :: rest)
  end.

Definition requestBody (messages : list Message) : CreateMessageRequest :=
  let (systemMsg, filteredMsgs) := filterSystem messages EmptyString in
  {| Model := "claude-3-sonnet-20240229";
     Messages := filteredMsgs;
     MaxTokens := 1000;
     System := systemMsg |}.

(** What [CreateMessage] takes from [encoding/json] and [net/http]:
    encoding the request, building it ([http.NewRequest] fails for no
    request the program makes, but the code checks), the round trip, and
    decoding the response. *)
Record Request := {
  Method : string;
  URL : string;
  Header : list (string * string);
  RequestBody : string
}.

Record Response := {
  StatusCode : Z;
  Body : string + error
}.

Record CreateMessageResponse := {
  ResponseContent : list string;
  ResponseRole : string
}.

Record Transport := {
  json_Marshal : CreateMessageRequest -> string + error;
  http_NewRequestErr : option error;
  http_Do : Request -> Response + error;
  json_Unmarshal : string -> CreateMessageResponse + error
}.

Record Client := {
  apiKey : string
}.

Definition BaseURL : string := "https://api.anthropic.com/v1/messages".

(** The request [CreateMessage] sends for an encoded body. *)
Definition httpRequest (c : Client) (jsonBody : string) : Request :=
  {| Method := "POST";
     URL := BaseURL;
     Header := [("Content-Type", "application/json");
                ("x-api-key", apiKey c);
                ("anthropic-version", "2023-06-01")];
     RequestBody := jsonBody |}.

(** [CreateMessage]: the text of the first content block of the
    response, or the error. *)
Definition CreateMessage (t : Transport) (c : Client) (messages : list Message)
    : string + error :=
  let reqBody := requestBody messages in
  match json_Marshal t reqBody with
  | inr e => inr ("error marshaling request: " ++ e)
  | inl jsonBody =>
      match http_NewRequestErr t with
      | Some e => inr ("error creating request: " ++ e)
      | None =>
          match http_Do t (httpRequest c jsonBody) with
          | inr e => inr ("error making request: " ++ e)
          | inl resp =>
              match Body resp with
              | inr e => inr ("error reading response body: " ++ e)
              | inl body =>
                  if negb (StatusCode resp =? 200)%Z then
                    inr ("API request failed with status "
                         ++ strings.Itoa (StatusCode resp) ++ ": " ++ body)
                  else
                    match json_Unmarshal t body with
                    | inr e => inr ("error unmarshaling response: " ++ e)
                    | inl response =>
                        match ResponseContent response with
                        | [] => inr "no content in response"
                        | text :: _ => inl text
                        end
                    end
              end
          end
      end
  end.

End claude.

(* ===================================================================== *)
(** * The widgets of the bubbles library *)
(* ===================================================================== *)

Module viewport.

Record Model := {
  YOffset : Z;
  Height : Z;
  Width : Z;
  lines : list string
}.

Definition set_YOffset (vp : Model) (v : Z) : Model :=
  {| YOffset := v; Height := Height vp; Width := Width vp; lines := lines vp |}.
Definition set_Height (vp : Model) (v : Z) : Model :=
  {| YOffset := YOffset vp; Height := v; Width := Width vp; lines := lines vp |}.
Definition set_Width (vp : Model) (v : Z) : Model :=
  {| YOffset := YOffset vp; Height := Height vp; Width := v; lines := lines vp |}.
Definition set_lines (vp : Model) (v : list string) : Model :=
  {| YOffset := YOffset vp; Height := Height vp; Width := Width vp; lines := v |}.

(** [viewport.New(0, 0)] *)
Definition New : Model := {| YOffset := 0; Height := 0; Width := 0; lines := [] |}.

Definition TotalLineCount (vp : Model) : Z := len (lines vp).

(** Modelled from the spec: the viewport widget comes from the bubbles
    library, which is not under src/.  Its operations are the ones of the
    Scroll/Viewport Manager: the largest offset is
    [max(0, totalLines - viewportHeight)]. *)
Definition maxYOffset (vp : Model) : Z := Z.max 0 (TotalLineCount vp - Height vp).

Definition clamp (v lo hi : Z) : Z := Z.max lo (Z.min v hi).

(** Modelled from the spec: [setContent(lines)] replaces the rendered line
    buffer; the total line count becomes [len(lines)]. *)
Definition SetContent (vp : Model) (s : string) : Model :=
  set_lines vp (strings.Split s "010"%char).

(** Modelled from the spec: [scrollBy(delta)] clamps the resulting offset
    to [[0, max(0, totalLines - viewportHeight)]]. *)
Definition scrollBy (vp : Model) (delta : Z) : Model :=
  set_YOffset vp (clamp (YOffset vp + delta) 0 (maxYOffset vp)).

(** At the top, at the bottom: at it or beyond it. *)
Definition AtTop (vp : Model) : bool := (YOffset vp <=? 0)%Z.
Definition AtBottom (vp : Model) : bool := (maxYOffset vp <=? YOffset vp)%Z.

(** Modelled from the spec: the line and half-page movements of the
    widget are [scrollBy] by the number of lines, and by half the viewport
    height.  As in the widget, a movement down changes nothing when the
    viewport is at or past the bottom, a movement up nothing when it is at
    or above the top, and a movement by no line, or in a viewport without
    content, nothing at all: an offset that [ensureConversationVisible]
    has put one line past the bottom stays there under [LineDown].  The
    spec's edge case is an instance: a viewport that is not yet sized has
    height 0 and no content, and no movement changes it. *)
Definition LineUp (vp : Model) (n : Z) : Model :=
  if AtTop vp || (n =? 0)%Z || (TotalLineCount vp =? 0)%Z then vp
  else scrollBy vp (- n).
Definition LineDown (vp : Model) (n : Z) : Model :=
  if AtBottom vp || (n =? 0)%Z || (TotalLineCount vp =? 0)%Z then vp
  else scrollBy vp n.
Definition HalfViewUp (vp : Model) : Model :=
  if AtTop vp then vp else LineUp vp (Z.quot (Height vp) 2).
Definition HalfViewDown (vp : Model) : Model :=
  if AtBottom vp then vp else LineDown vp (Z.quot (Height vp) 2).

(** Modelled from the spec: [gotoTop()] and [gotoBottom()] set the offset to
    [0] and to [max(0, totalLines - viewportHeight)].  (On the way the
    widget cuts the visible lines out of its buffer; with a negative
    height, which [updateViewport] gives it in a terminal of fewer than 7
    rows, that fails inside the widget.  The failures of the widget are
    not part of this model: the only panics below are those of the index
    expressions of main.go.) *)
Definition GotoTop (vp : Model) : Model := set_YOffset vp 0.
Definition GotoBottom (vp : Model) : Model := set_YOffset vp (maxYOffset vp).

End viewport.

Module textinput.

(** The text-input widget: the program reads its value, resets it and sets
    its width; key handling is the library's ([Env]). *)
Record Model := {
  Value : string;
  Width : Z
}.

Definition New : Model := {| Value := EmptyString; Width := 0 |}.
Definition Reset (ti : Model) : Model := {| Value := EmptyString; Width := Width ti |}.
Definition set_Width (ti : Model) (v : Z) : Model := {| Value := Value ti; Width := v |}.

End textinput.

Module spinner.

(** The spinner widget: its current frame. *)
Definition Model := nat.

End spinner.

(* ===================================================================== *)
(** * The messages and commands of bubbletea *)
(* ===================================================================== *)

Module tea.

(** The key types the program distinguishes; [KeyOther] stands for every
    other key type, with the name the library's table gives it. *)
Inductive KeyType :=
| KeyRunes | KeyEnter | KeyEsc | KeyUp | KeyDown | KeyPgUp | KeyPgDown
| KeyHome | KeyEnd
| KeyCtrlC | KeyCtrlH | KeyCtrlJ | KeyCtrlK | KeyCtrlL | KeyCtrlN | KeyCtrlR
| KeyCtrlX
| KeyOther (name : string).

Record Key := {
  Type_ : KeyType;
  Runes : string;
  Alt : bool
}.

(** The library's table [keyNames]. *)
Definition keyName (t : KeyType) : string :=
  match t with
  | KeyRunes => "runes"
  | KeyEnter => "enter"
  | KeyEsc => "esc"
  | KeyUp => "up"
  | KeyDown => "down"
  | KeyPgUp => "pgup"
  | KeyPgDown => "pgdown"
  | KeyHome => "home"
  | KeyEnd => "end"
  | KeyCtrlC => "ctrl+c"
  | KeyCtrlH => "ctrl+h"
  | KeyCtrlJ => "ctrl+j"
  | KeyCtrlK => "ctrl+k"
  | KeyCtrlL => "ctrl+l"
  | KeyCtrlN => "ctrl+n"
  | KeyCtrlR => "ctrl+r"
  | KeyCtrlX => "ctrl+x"
  | KeyOther name => name
  end.

(** [Key.String()]: an [alt+] prefix, then the runes or the key's name. *)
Definition String_ (k : Key) : string :=
  (if Alt k then "alt+" else "") ++
  match Type_ k with
  | KeyRunes => Runes k
  | t => keyName t
  end.

Inductive MouseEventType := MouseWheelUp | MouseWheelDown | MouseOther.

End tea.

(* ===================================================================== *)
(** * Package main (cmd/gpt-term/main.go) *)
(* ===================================================================== *)

Module main.

Import tea.

Inductive Mode := ModeNormal | ModeEditing | ModeHistory | ModeCommandSelect | ModeHelp.

Definition Mode_eqb (a b : Mode) : bool :=
  match a, b with
  | ModeNormal, ModeNormal | ModeEditing, ModeEditing | ModeHistory, ModeHistory
  | ModeCommandSelect, ModeCommandSelect | ModeHelp, ModeHelp => true
  | _, _ => false
  end.

(** Everything [Update] can be given: the library's messages and the four
    message types of the program. *)
Inductive Msg :=
| WindowSizeMsg (Width Height : Z)
| MouseMsg (t : MouseEventType)
| KeyMsg (k : Key)
| apiResponseMsg (response : string) (err : option error)
| editMessageMsg (index : Z) (edited : string) (err : option error)
| commandOutputMsg (output : string) (err : option error)
| scrollMsg (offset : Z)
| otherMsg (tag : nat).

(** The commands of the widgets, which the program only passes on. *)
Inductive WidgetCmd := spinnerCmd | textinputCmd.

(** What [Update] hands back to the runtime. *)
Inductive Cmd :=
| cmdNil
| cmdQuit
| cmdBatch (cmds : list WidgetCmd)
| cmdCreateMessage (claudeMsgs : list claude.Message)
| cmdReturn (msg : Msg)
| cmdExecEditor (editor tmpName : string) (index : Z)
| cmdExecuteCommand (cmdStr : string)
| cmdExecClipboard (argv : list string) (stdin : string).

(** The lipgloss styles the views render with. *)
Inductive Style :=
| botStyle | selectedStyle | systemStyle | commandStyle | scrollIndicatorStyle
| userLabelStyle | assistantLabelStyle | messageStyle | codeBlockStyle
| selectedLabelStyle | instructionBarStyle | selectedMessageStyle.

(** The libraries and the platform. *)
Record Env := {
  codec : storage.Codec;
  Render : Style -> string -> string;
  textinput_Update : textinput.Model -> Key -> textinput.Model;
  spinner_Update : spinner.Model -> Msg -> spinner.Model;
  GOOS : string
}.

(** The operating system at the time of one step: the storage directory,
    the temporary directory (the files of the program in it, what
    [os.CreateTemp] would return, whether writing and reading succeed),
    the clock, the next UUID and [$EDITOR]. *)
Record World := {
  dir : storage.Dir;
  tmpFiles : list (string * string);
  CreateTemp : string + error;
  WriteStringErr : option error;
  ReadFileErr : option error;
  now : storage.Time;
  newUUID : string;
  EDITOR : string
}.

Definition set_dir (w : World) (d : storage.Dir) : World :=
  {| dir := d; tmpFiles := tmpFiles w; CreateTemp := CreateTemp w;
     WriteStringErr := WriteStringErr w; ReadFileErr := ReadFileErr w;
     now := now w; newUUID := newUUID w; EDITOR := EDITOR w |}.
Definition set_tmpFiles (w : World) (fs : list (string * string)) : World :=
  {| dir := dir w; tmpFiles := fs; CreateTemp := CreateTemp w;
     WriteStringErr := WriteStringErr w; ReadFileErr := ReadFileErr w;
     now := now w; newUUID := newUUID w; EDITOR := EDITOR w |}.

Record model := {
  textInput : textinput.Model;
  viewport : viewport.Model;
  err : option error;
  conversation : storage.Conversation;
  mode : Mode;
  messages : list storage.Message;
  cursorIndex : Z;
  conversations : list storage.Conversation;
  selectedConv : Z;
  spinner : spinner.Model;
  isLoading : bool;
  height : Z;
  width : Z;
  commands : list (list string);
  selectedCommand : Z;
  ready : bool;
  lastLoadedConv : Z
}.

(** Field assignments [m.f = v]. *)
Definition set_textInput (m : model) (v : textinput.Model) : model :=
  Build_model v (viewport m) (err m) (conversation m) (mode m) (messages m)
      (cursorIndex m) (conversations m) (selectedConv m) (spinner m)
      (isLoading m) (height m) (width m) (commands m) (selectedCommand m)
      (ready m) (lastLoadedConv m).
Definition set_viewport (m : model) (v : viewport.Model) : model :=
  Build_model (textInput m) v (err m) (conversation m) (mode m) (messages m)
      (cursorIndex m) (conversations m) (selectedConv m) (spinner m)
      (isLoading m) (height m) (width m) (commands m) (selectedCommand m)
      (ready m) (lastLoadedConv m).
Definition set_err (m : model) (v : option error) : model :=
  Build_model (textInput m) (viewport m) v (conversation m) (mode m) (messages
      m) (cursorIndex m) (conversations m) (selectedConv m) (spinner m)
      (isLoading m) (height m) (width m) (commands m) (selectedCommand m)
      (ready m) (lastLoadedConv m).
Definition set_conversation (m : model) (v : storage.Conversation) : model :=
  Build_model (textInput m) (viewport m) (err m) v (mode m) (messages m)
      (cursorIndex m) (conversations m) (selectedConv m) (spinner m)
      (isLoading m) (height m) (width m) (commands m) (selectedCommand m)
      (ready m) (lastLoadedConv m).
Definition set_mode (m : model) (v : Mode) : model :=
  Build_model (textInput m) (viewport m) (err m) (conversation m) v (messages
      m) (cursorIndex m) (conversations m) (selectedConv m) (spinner m)
      (isLoading m) (height m) (width m) (commands m) (selectedCommand m)
      (ready m) (lastLoadedConv m).
Definition set_messages (m : model) (v : list storage.Message) : model :=
  Build_model (textInput m) (viewport m) (err m) (conversation m) (mode m) v
      (cursorIndex m) (conversations m) (selectedConv m) (spinner m)
      (isLoading m) (height m) (width m) (commands m) (selectedCommand m)
      (ready m) (lastLoadedConv m).
Definition set_cursorIndex (m : model) (v : Z) : model :=
  Build_model (textInput m) (viewport m) (err m) (conversation m) (mode m)
      (messages m) v (conversations m) (selectedConv m) (spinner m) (isLoading
      m) (height m) (width m) (commands m) (selectedCommand m) (ready m)
      (lastLoadedConv m).
Definition set_conversations (m : model) (v : list storage.Conversation) : model :=
  Build_model (textInput m) (viewport m) (err m) (conversation m) (mode m)
      (messages m) (cursorIndex m) v (selectedConv m) (spinner m) (isLoading
      m) (height m) (width m) (commands m) (selectedCommand m) (ready m)
      (lastLoadedConv m).
Definition set_selectedConv (m : model) (v : Z) : model :=
  Build_model (textInput m) (viewport m) (err m) (conversation m) (mode m)
      (messages m) (cursorIndex m) (conversations m) v (spinner m) (isLoading
      m) (height m) (width m) (commands m) (selectedCommand m) (ready m)
      (lastLoadedConv m).
Definition set_spinner (m : model) (v : spinner.Model) : model :=
  Build_model (textInput m) (viewport m) (err m) (conversation m) (mode m)
      (messages m) (cursorIndex m) (conversations m) (selectedConv m) v
      (isLoading m) (height m) (width m) (commands m) (selectedCommand m)
      (ready m) (lastLoadedConv m).
Definition set_isLoading (m : model) (v : bool) : model :=
  Build_model (textInput m) (viewport m) (err m) (conversation m) (mode m)
      (messages m) (cursorIndex m) (conversations m) (selectedConv m) (spinner
      m) v (height m) (width m) (commands m) (selectedCommand m) (ready m)
      (lastLoadedConv m).
Definition set_height (m : model) (v : Z) : model :=
  Build_model (textInput m) (viewport m) (err m) (conversation m) (mode m)
      (messages m) (cursorIndex m) (conversations m) (selectedConv m) (spinner
      m) (isLoading m) v (width m) (commands m) (selectedCommand m) (ready m)
      (lastLoadedConv m).
Definition set_width (m : model) (v : Z) : model :=
  Build_model (textInput m) (viewport m) (err m) (conversation m) (mode m)
      (messages m) (cursorIndex m) (conversations m) (selectedConv m) (spinner
      m) (isLoading m) (height m) v (commands m) (selectedCommand m) (ready m)
      (lastLoadedConv m).
Definition set_commands (m : model) (v : list (list string)) : model :=
  Build_model (textInput m) (viewport m) (err m) (conversation m) (mode m)
      (messages m) (cursorIndex m) (conversations m) (selectedConv m) (spinner
      m) (isLoading m) (height m) (width m) v (selectedCommand m) (ready m)
      (lastLoadedConv m).
Definition set_selectedCommand (m : model) (v : Z) : model :=
  Build_model (textInput m) (viewport m) (err m) (conversation m) (mode m)
      (messages m) (cursorIndex m) (conversations m) (selectedConv m) (spinner
      m) (isLoading m) (height m) (width m) (commands m) v (ready m)
      (lastLoadedConv m).
Definition set_ready (m : model) (v : bool) : model :=
  Build_model (textInput m) (viewport m) (err m) (conversation m) (mode m)
      (messages m) (cursorIndex m) (conversations m) (selectedConv m) (spinner
      m) (isLoading m) (height m) (width m) (commands m) (selectedCommand m) v
      (lastLoadedConv m).
Definition set_lastLoadedConv (m : model) (v : Z) : model :=
  Build_model (textInput m) (viewport m) (err m) (conversation m) (mode m)
      (messages m) (cursorIndex m) (conversations m) (selectedConv m) (spinner
      m) (isLoading m) (height m) (width m) (commands m) (selectedCommand m)
      (ready m) v.

Definition nl : string := String "010"%char EmptyString.

Definition systemPrompt : string :=
  "You are a bash terminal helper AI. Unless the user asks otherwise, you will specify all solutions in bash commands ideally one liners if its simple. Before displaying the bash command code, you must surround it with <command></command> tags. Each <command> block must contain exactly one command - if you need to show multiple commands, use multiple <command> blocks. Do not insert ".

Definition helpMessage : string :=
  "GPT Terminal Help:
- Ctrl+J/K: Enter edit mode and navigate through messages
- Enter: Edit selected user message
- X: Execute command from selected assistant message
- Alt+X: Execute command from last assistant message
- Ctrl+R: Browse conversation history
- Ctrl+L: Load latest conversation
- Ctrl+N: Create new chat
- Ctrl+C: Quit
- Ctrl+H: Show this help

Commands in responses are highlighted and can be executed. If multiple commands are present, you'll be prompted to choose one.".

(** The hidden first message of every conversation the program creates. *)
Definition systemMsg (w : World) : storage.Message :=
  {| storage.Role := "system";
     storage.Content := systemPrompt;
     storage.Timestamp := now w |}.

(** A new conversation: a fresh id, the system message only. *)
Definition newConversation (w : World) : storage.Conversation :=
  {| storage.ID := newUUID w;
     storage.Messages := [systemMsg w];
     storage.CreatedAt := now w;
     storage.Summary := EmptyString |}.

(** [initialModel], when the storage directory could be created. *)
Definition initialModel (w : World) : model :=
  {| textInput := textinput.New;
     viewport := viewport.New;
     err := None;
     conversation := newConversation w;
     mode := ModeNormal;
     messages := storage.Messages (newConversation w);
     cursorIndex := 0;
     conversations := [];
     selectedConv := 0;
     spinner := O;
     isLoading := false;
     height := 0;
     width := 0;
     commands := [];
     selectedCommand := 0;
     ready := false;
     lastLoadedConv := -1 |}.

(** [sort.Slice(convs, func(i, j) { return convs[i].CreatedAt.After(convs[j].CreatedAt) })]:
    most recent first.  Conversations created at the same instant keep the
    order they had, as under the insertion sort the library uses for
    slices of up to 12 elements (for longer ones it promises no order among
    them): [insertConv] puts [c], which came before the elements of [l],
    in front of the first one that is not more recent. *)
Fixpoint insertConv (c : storage.Conversation) (l : list storage.Conversation)
    : list storage.Conversation :=
  match l with
  | [] => [c]
  | d :: t =>
      if (storage.CreatedAt d <=? storage.CreatedAt c)%Z then c :: d :: t
      else d :: insertConv c t
  end.

Definition sortConvs (l : list storage.Conversation) : list storage.Conversation :=
  fold_right insertConv [] l.

(** The loop that turns the history into the request's messages. *)
Definition claudeMsgs (msgs : list storage.Message) : list claude.Message :=
  map (fun msg => {| claude.Role := storage.Role msg;
                     claude.Content := storage.Content msg |}) msgs.

(** Submatch 1 of a regexp match ([match[1]]); every element of
    [m.commands] is a match of the command pattern: two strings. *)
Definition sub1 (mt : list string) : string := nth 1 mt EmptyString.

Section WithEnv.
Variable E : Env.

Definition formatContent (content : string) : string :=
  let content :=
    regexp.ReplaceAllStringFunc regexp.matchCodeBlock
      (fun code => nl ++ Render E codeBlockStyle code ++ nl) content in
  regexp.ReplaceAllStringFunc regexp.matchCommand
    (fun cmd => Render E commandStyle (strings.TrimSpace cmd)) content.

Definition normalView (m : model) : string :=
  String.concat EmptyString
    (map (fun msg =>
            if storage.Role msg =? "system" then
              if (1 <? len (messages m))%Z then
                Render E scrollIndicatorStyle
                  ("- Beginning of conversation ["
                   ++ storage.time_Format (codec E)
                        (storage.CreatedAt (conversation m)) "Mon 02 Jan 2006 15:04"
                   ++ "] -") ++ nl ++ nl
              else EmptyString
            else if storage.Role msg =? "assistant" then
              Render E assistantLabelStyle "assistant" ++ " "
              ++ Render E botStyle (formatContent (storage.Content msg)) ++ nl ++ nl
            else
              Render E userLabelStyle "user" ++ " "
              ++ Render E messageStyle (storage.Content msg) ++ nl ++ nl)
         (messages m)).

(** One message of [editingView], at index [i]. *)
Definition editingEntry (m : model) (i : Z) (msg : storage.Message) : string :=
  let role := storage.Role msg in
  let content :=
    if role =? "assistant" then formatContent (storage.Content msg) else EmptyString in
  (if (i =? cursorIndex m)%Z then
     if role =? "system" then
       Render E systemStyle (role ++ ": " ++ storage.Content msg)
     else if role =? "user" then
       Render E selectedLabelStyle "user" ++ " "
       ++ Render E selectedMessageStyle (storage.Content msg)
       ++ nl ++ Render E instructionBarStyle "Press Enter to edit, C to copy message"
     else if role =? "assistant" then
       Render E selectedLabelStyle "assistant" ++ " "
       ++ Render E selectedMessageStyle content
       ++ (if strings.Contains (storage.Content msg) "<command>"
           then nl ++ Render E instructionBarStyle
                        "Press X to execute commands, C to copy message"
           else nl ++ Render E instructionBarStyle "Press C to copy message")
     else EmptyString
   else
     if role =? "system" then
       Render E systemStyle (role ++ ": " ++ storage.Content msg)
     else if role =? "user" then
       Render E userLabelStyle "user" ++ " " ++ Render E messageStyle (storage.Content msg)
     else if role =? "assistant" then
       Render E assistantLabelStyle "assistant" ++ " " ++ Render E botStyle content
     else EmptyString)
  ++ nl ++ nl.

Fixpoint editingEntries (m : model) (i : Z) (msgs : list storage.Message) : string :=
  match msgs with
  | [] => EmptyString
  | msg :: rest => editingEntry m i msg ++ editingEntries m (i + 1) rest
  end.

Definition editingView (m : model) : string :=
  "Editing Mode" ++ nl ++ nl ++ editingEntries m 0 (messages m).

Fixpoint historyLines (m : model) (i : Z) (convs : list storage.Conversation) : string :=
  match convs with
  | [] => EmptyString
  | conv :: rest =>
      let line := "[" ++ storage.time_Format (codec E) (storage.CreatedAt conv)
                           "2006-01-02 15:04:05"
                  ++ "] " ++ storage.Summary conv in
      (if (i =? selectedConv m)%Z then Render E selectedStyle line ++ nl
       else line ++ nl)
      ++ historyLines m (i + 1) rest
  end.

Definition historyView (m : model) : string :=
  "Conversation History (Press ESC to exit)" ++ nl ++ nl
  ++ historyLines m 0 (sortConvs (conversations m))
  ++ nl.

Fixpoint commandLines (m : model) (i : Z) (cmds : list (list string)) : string :=
  match cmds with
  | [] => EmptyString
  | mt :: rest =>
      let line := strings.Itoa (i + 1) ++ ": " ++ sub1 mt in
      (if (i =? selectedCommand m)%Z then Render E selectedStyle line else line)
      ++ nl ++ commandLines m (i + 1) rest
  end.

Definition commandSelectView (m : model) : string :=
  match commands m with
  | [mt] =>
      "Confirm command execution:" ++ nl ++ nl
      ++ (if (selectedCommand m =? 0)%Z then Render E selectedStyle (sub1 mt)
          else sub1 mt)
      ++ nl ++ nl ++ "Press Enter to execute, ESC to cancel"
  | cmds =>
      "Select a command to execute:" ++ nl ++ nl ++ commandLines m 0 cmds
  end.

Definition helpView (m : model) : string := helpMessage.


(** [ensureMessageVisible]: the loop that looks for the line of the
    message: [i] is the line number, [currentMsg] the number of labelled
    lines seen so far minus one; [targetLine] stays 0 when the loop ends
    without a hit. *)
Definition labelled (line : string) : bool :=
  strings.Contains line (Render E userLabelStyle "user")
  || strings.Contains line (Render E assistantLabelStyle "assistant")
  || strings.Contains line (Render E selectedLabelStyle "user")
  || strings.Contains line (Render E selectedLabelStyle "assistant").

Fixpoint findTargetLine (lines : list string) (i currentMsg index : Z) : Z :=
  match lines with
  | [] => 0%Z
  | line :: rest =>
      if labelled line then
        let currentMsg := (currentMsg + 1)%Z in
        if (currentMsg =? index)%Z then i
        else findTargetLine rest (i + 1) currentMsg index
      else findTargetLine rest (i + 1) currentMsg index
  end.

Definition ensureMessageVisible (m : model) (index : Z) : model :=
  let content := editingView m in
  let vp := viewport.SetContent (viewport m) content in
  let lines := strings.Split content "010"%char in
  let targetLine := findTargetLine lines 0 (-1) index in
  let totalLines := len lines in
  let maxScroll := (totalLines - viewport.Height vp)%Z in
  let maxScroll := if (maxScroll <? 0)%Z then 0%Z else maxScroll in
  let desiredOffset := (targetLine - Z.quot (viewport.Height vp) 4)%Z in
  let desiredOffset :=
    if (index =? len (messages m) - 1)%Z then maxScroll else desiredOffset in
  let desiredOffset := if (desiredOffset <? 0)%Z then 0%Z else desiredOffset in
  let desiredOffset :=
    if (maxScroll <? desiredOffset)%Z then maxScroll else desiredOffset in
  let vp := viewport.GotoTop vp in
  let vp := Nat.iter (Z.to_nat desiredOffset) (fun vp => viewport.LineDown vp 1) vp in
  set_viewport m vp.

Definition ensureConversationVisible (m : model) (index : Z) : model :=
  let content := historyView m in
  let vp := viewport.SetContent (viewport m) content in
  let lines := strings.Split content "010"%char in
  let targetLine := (index + 2)%Z in
  let totalLines := len lines in
  let maxScroll := (totalLines - viewport.Height vp + 1)%Z in
  let maxScroll := if (maxScroll <? 0)%Z then 0%Z else maxScroll in
  let desiredOffset := (targetLine - Z.quot (viewport.Height vp) 2)%Z in
  let desiredOffset := if (desiredOffset <? 0)%Z then 0%Z else desiredOffset in
  let desiredOffset :=
    if (maxScroll <? desiredOffset)%Z then maxScroll else desiredOffset in
  set_viewport m (viewport.set_YOffset vp desiredOffset).

Definition updateViewport (m : model) : model :=
  let currentOffset := viewport.YOffset (viewport m) in
  let vp := viewport.set_Width (viewport m) (width m - 4) in
  let vp := viewport.set_Height vp (height m - 7) in
  let content :=
    match mode m with
    | ModeNormal => normalView m
    | ModeEditing => editingView m
    | ModeHistory => historyView m
    | ModeCommandSelect => commandSelectView m
    | ModeHelp => helpMessage
    end in
  let vp := viewport.SetContent vp content in
  if Mode_eqb (mode m) ModeHelp then set_viewport m (viewport.GotoTop vp)
  else
    let maxOffset := (viewport.TotalLineCount vp - viewport.Height vp)%Z in
    let maxOffset := if (maxOffset <? 0)%Z then 0%Z else maxOffset in
    if ((0 <=? currentOffset) && (currentOffset <=? maxOffset))%Z%bool then
      set_viewport m (viewport.set_YOffset vp currentOffset)
    else if (maxOffset <? currentOffset)%Z then
      set_viewport m (viewport.set_YOffset vp maxOffset)
    else set_viewport m vp.

(** [m.viewport.GotoBottom()] and friends, on the model. *)
Definition onViewport (f : viewport.Model -> viewport.Model) (m : model) : model :=
  set_viewport m (f (viewport m)).

(** [getClipboardCommand]: the argument vector of the clipboard program. *)
Definition getClipboardCommand : list string + error :=
  if GOOS E =? "darwin" then inl ["pbcopy"]
  else if GOOS E =? "linux" then inl ["xclip"; "-selection"; "clipboard"]
  else if GOOS E =? "windows" then inl ["clip"]
  else inr "unsupported platform for clipboard operations".

(** The scan for the last assistant message, from the end backwards. *)
Definition lastAssistant (msgs : list storage.Message) : string :=
  match find (fun msg => storage.Role msg =? "assistant") (rev msgs) with
  | Some msg => storage.Content msg
  | None => EmptyString
  end.

(** [matches[i][1] = strings.TrimSpace(matches[i][1])] *)
Definition trimMatch (mt : list string) : list string :=
  match mt with
  | [whole; sub] => [whole; strings.TrimSpace sub]
  | _ => mt
  end.

(** The message [handleCommandExecution] takes its commands from. *)
Definition targetMsg (m : model) : Result string :=
  if Mode_eqb (mode m) ModeEditing then
    msg <- index (messages m) (cursorIndex m) ;;
    Ok (if storage.Role msg =? "assistant" then storage.Content msg else EmptyString)
  else Ok (lastAssistant (messages m)).

Definition handleCommandExecution (m : model) : Result (model * Cmd) :=
  target <- targetMsg m ;;
  if target =? EmptyString then Ok (m, cmdNil)
  else
    let matches := regexp.FindAllStringSubmatch target in
    if (len matches =? 0)%Z then Ok (m, cmdNil)
    else
      let matches := map trimMatch matches in
      let m := set_mode m ModeCommandSelect in
      let m := set_commands m matches in
      let m := set_selectedCommand m 0 in
      Ok (m, cmdNil).

(** The commands extracted from a text: what the selection list shows. *)
Definition extract (text : string) : list string :=
  map sub1 (map trimMatch (regexp.FindAllStringSubmatch text)).

(** [executeCommand] returns a closure for the runtime to run. *)
Definition executeCommand (cmdStr : string) : Cmd := cmdExecuteCommand cmdStr.

(** The closure of [executeCommand], given what
    [exec.Command("sh", "-c", cmdStr).CombinedOutput()] returns. *)
Definition runCommand (CombinedOutput : string -> string * option error)
    (cmdStr : string) : Msg :=
  let (output, err) := CombinedOutput cmdStr in
  let status :=
    match err with
    | Some e => "Command failed: " ++ e ++ nl
    | None => "Command executed successfully" ++ nl
    end in
  commandOutputMsg
    ("Command ran: " ++ cmdStr ++ nl ++ "Command result:" ++ nl ++ status ++ output)
    err.

(** The temporary directory: [os.WriteFile]/[WriteString], [os.ReadFile],
    [os.Remove] on the files of the program. *)
Fixpoint tmpRemove (fs : list (string * string)) (name : string) : list (string * string) :=
  match fs with
  | [] => []
  | (n, d) :: t => if n =? name then tmpRemove t name else (n, d) :: tmpRemove t name
  end.

Definition tmpWrite (fs : list (string * string)) (name data : string)
    : list (string * string) :=
  (name, data) :: tmpRemove fs name.

Fixpoint tmpLookup (fs : list (string * string)) (name : string) : option string :=
  match fs with
  | [] => None
  | (n, d) :: t => if n =? name then Some d else tmpLookup t name
  end.

Definition tmpExists (w : World) (name : string) : bool :=
  match tmpLookup (tmpFiles w) name with Some _ => true | None => false end.

Definition ReadFile (w : World) (name : string) : string + error :=
  match ReadFileErr w with
  | Some e => inr e
  | None =>
      match tmpLookup (tmpFiles w) name with
      | Some data => inl data
      | None => inr "no such file or directory"
      end
  end.

(** [editMessageCmd], up to the point where it returns its command: the
    temporary file is created and written here. *)
Definition editMessageCmd (w : World) (content : string) (index : Z) : World * Cmd :=
  let editor := if EDITOR w =? EmptyString then "nvim" else EDITOR w in
  match CreateTemp w with
  | inr e => (w, cmdReturn (editMessageMsg index EmptyString (Some e)))
  | inl tmpName =>
      let w := set_tmpFiles w (tmpWrite (tmpFiles w) tmpName EmptyString) in
      match WriteStringErr w with
      | Some e => (w, cmdReturn (editMessageMsg index EmptyString (Some e)))
      | None =>
          let w := set_tmpFiles w (tmpWrite (tmpFiles w) tmpName content) in
          (w, cmdExecEditor editor tmpName index)
      end
  end.

(** The callback [tea.ExecProcess] runs when the editor has exited with
    [err], in the world the editor left: [defer os.Remove] takes effect
    on every return. *)
Definition editorExited (w : World) (tmpName : string) (index : Z)
    (err : option error) : World * Msg :=
  let removed := set_tmpFiles w (tmpRemove (tmpFiles w) tmpName) in
  match err with
  | Some e => (removed, editMessageMsg index EmptyString (Some e))
  | None =>
      match ReadFile w tmpName with
      | inr e => (removed, editMessageMsg index EmptyString (Some e))
      | inl data => (removed, editMessageMsg index data None)
      end
  end.


(** ** [Update] *)

Definition set_conv_Messages (c : storage.Conversation) (msgs : list storage.Message)
    : storage.Conversation :=
  {| storage.ID := storage.ID c; storage.Messages := msgs;
     storage.CreatedAt := storage.CreatedAt c; storage.Summary := storage.Summary c |}.

Definition set_conv_Summary (c : storage.Conversation) (s : string)
    : storage.Conversation :=
  {| storage.ID := storage.ID c; storage.Messages := storage.Messages c;
     storage.CreatedAt := storage.CreatedAt c; storage.Summary := s |}.

Definition set_msg_Content (msg : storage.Message) (s : string) : storage.Message :=
  {| storage.Role := storage.Role msg; storage.Content := s;
     storage.Timestamp := storage.Timestamp msg |}.

(** The loop that sets the summary from the first user message. *)
Definition setSummary (m : model) : model :=
  match storage.firstUser (messages m) with
  | Some msg =>
      set_conversation m
        (set_conv_Summary (conversation m) (storage.summarize (storage.Content msg)))
  | None => m
  end.

(** [if err := m.storage.SaveConversation(m.conversation); err != nil { m.err = err }] *)
Definition save (w : World) (m : model) : World * model :=
  let (d, e) := storage.SaveConversation (codec E) (dir w) (conversation m) in
  (set_dir w d, match e with Some _ => set_err m e | None => m end).

(** The three ways out of [Update]: [return m, nil], [return m, cmd], and
    reaching the final [return m, tea.Batch(cmds...)]. *)
Definition ret (w : World) (m : model) : Result (World * model * Cmd) :=
  Ok (w, m, cmdNil).
Definition retCmd (w : World) (m : model) (c : Cmd) : Result (World * model * Cmd) :=
  Ok (w, m, c).
Definition fall (w : World) (m : model) (cmds : list WidgetCmd)
    : Result (World * model * Cmd) :=
  Ok (w, m, cmdBatch cmds).

(** Moving the selection in the history list. *)
Definition selectConv (w : World) (m : model) (selected : Z)
    : Result (World * model * Cmd) :=
  let oldSelected := selectedConv m in
  let m := set_selectedConv m selected in
  if negb (oldSelected =? selectedConv m)%Z
  then ret w (ensureConversationVisible m (selectedConv m))
  else ret w m.

(** Entering edit navigation. *)
Definition enterEditing (w : World) (m : model) : Result (World * model * Cmd) :=
  let m := set_mode m ModeEditing in
  let m := set_cursorIndex m (len (messages m) - 1) in
  ret w (updateViewport m).

(** Sending the history to the assistant. *)
Definition request (w : World) (m : model) : Result (World * model * Cmd) :=
  retCmd w m (cmdCreateMessage (claudeMsgs (messages m))).

(** Copying [text] to the clipboard, from [ModeEditing] or [ModeCommandSelect]. *)
Definition copyToClipboard (w : World) (m : model) (text : string)
    : Result (World * model * Cmd) :=
  match getClipboardCommand with
  | inr e => ret w (set_err m (Some e))
  | inl argv => retCmd w (set_mode m ModeNormal) (cmdExecClipboard argv text)
  end.

Definition runSelected (w : World) (m : model) (i : Z) : Result (World * model * Cmd) :=
  mt <- index (commands m) i ;;
  cmdStr <- index mt 1 ;;
  retCmd w (set_mode m ModeNormal) (executeCommand cmdStr).

Definition updateMouse (w : World) (m : model) (cmds : list WidgetCmd)
    (t : MouseEventType) : Result (World * model * Cmd) :=
  match t with
  | MouseWheelUp =>
      if Mode_eqb (mode m) ModeHistory
      then selectConv w m (Z.max 0 (selectedConv m - 1))
      else ret w (onViewport (fun vp => viewport.LineUp vp 3) m)
  | MouseWheelDown =>
      if Mode_eqb (mode m) ModeHistory
      then selectConv w m (Z.min (len (conversations m) - 1) (selectedConv m + 1))
      else ret w (onViewport (fun vp => viewport.LineDown vp 3) m)
  | MouseOther => fall w m cmds
  end.

Definition updateNormal (w : World) (m : model) (cmds : list WidgetCmd) (k : Key)
    : Result (World * model * Cmd) :=
  let finish (m : model) :=
    fall w (set_textInput m (textinput_Update E (textInput m) k))
         (cmds ++ [textinputCmd])%list in
  let s := String_ k in
  if s =? "up" then ret w (onViewport (fun vp => viewport.LineUp vp 3) m)
  else if s =? "down" then ret w (onViewport (fun vp => viewport.LineDown vp 3) m)
  else if s =? "pgup" then ret w (onViewport viewport.HalfViewUp m)
  else if s =? "pgdn" then ret w (onViewport viewport.HalfViewDown m)
  else if s =? "home" then ret w (onViewport viewport.GotoTop m)
  else if s =? "end" then ret w (onViewport viewport.GotoBottom m)
  else
    match Type_ k with
    | KeyEsc => retCmd w m cmdQuit
    | KeyEnter =>
        if negb (textinput.Value (textInput m) =? EmptyString) then
          let userMsg :=
            {| storage.Role := "user";
               storage.Content := textinput.Value (textInput m);
               storage.Timestamp := now w |} in
          let m := set_messages m (messages m ++ [userMsg])%list in
          let m := set_conversation m (set_conv_Messages (conversation m) (messages m)) in
          let m := updateViewport m in
          let m := onViewport viewport.GotoBottom m in
          let m := set_isLoading m true in
          let m := set_textInput m (textinput.Reset (textInput m)) in
          request w m
        else finish m
    | KeyRunes =>
        if Alt k then
          if (s =? "j") || (s =? "k") then enterEditing w m else finish m
        else finish m
    | KeyCtrlR =>
        let m := set_mode m ModeHistory in
        match storage.ListConversations (codec E) (dir w) with
        | inr e => ret w (set_err m (Some e))
        | inl conversations =>
            let m := set_conversations m conversations in
            let m := set_selectedConv m 0 in
            finish (updateViewport m)
        end
    | KeyCtrlH => ret w (set_mode m ModeHelp)
    | _ => finish m
    end.

Definition updateEditing (w : World) (m : model) (cmds : list WidgetCmd) (k : Key)
    : Result (World * model * Cmd) :=
  match Type_ k with
  | KeyEsc => fall w (updateViewport (set_mode m ModeNormal)) cmds
  | KeyRunes =>
      let s := String_ k in
      if s =? "k" then
        if (1 <? cursorIndex m)%Z then
          let m := set_cursorIndex m (cursorIndex m - 1) in
          ret w (ensureMessageVisible m (cursorIndex m))
        else fall w m cmds
      else if s =? "j" then
        if (cursorIndex m <? len (messages m) - 1)%Z then
          let m := set_cursorIndex m (cursorIndex m + 1) in
          ret w (ensureMessageVisible m (cursorIndex m))
        else fall w m cmds
      else if s =? "x" then
        msg <- index (messages m) (cursorIndex m) ;;
        if storage.Role msg =? "assistant" then
          r <- handleCommandExecution m ;;
          retCmd w (fst r) (snd r)
        else fall w m cmds
      else if s =? "c" then
        if (cursorIndex m <? len (messages m))%Z then
          msg <- index (messages m) (cursorIndex m) ;;
          copyToClipboard w m (storage.Content msg)
        else fall w m cmds
      else fall w m cmds
  | KeyUp => ret w (onViewport (fun vp => viewport.LineUp vp 3) m)
  | KeyDown => ret w (onViewport (fun vp => viewport.LineDown vp 3) m)
  | KeyEnter =>
      msg <- index (messages m) (cursorIndex m) ;;
      if storage.Role msg =? "user" then
        let (w, c) := editMessageCmd w (storage.Content msg) (cursorIndex m) in
        retCmd w m c
      else fall w (updateViewport (set_mode m ModeNormal)) cmds
  | _ => fall w m cmds
  end.

Definition updateHistory (w : World) (m : model) (cmds : list WidgetCmd) (k : Key)
    : Result (World * model * Cmd) :=
  match Type_ k with
  | KeyEsc => fall w (updateViewport (set_mode m ModeNormal)) cmds
  | KeyUp => selectConv w m (Z.max 0 (selectedConv m - 1))
  | KeyDown => selectConv w m (Z.min (len (conversations m) - 1) (selectedConv m + 1))
  | KeyPgUp =>
      selectConv w m (Z.max 0 (selectedConv m - viewport.Height (viewport m)))
  | KeyPgDown =>
      selectConv w m (Z.min (len (conversations m) - 1)
                            (selectedConv m + viewport.Height (viewport m)))
  | KeyHome =>
      let m := set_selectedConv m 0 in
      ret w (ensureConversationVisible m (selectedConv m))
  | KeyEnd =>
      let m := set_selectedConv m (len (conversations m) - 1) in
      ret w (ensureConversationVisible m (selectedConv m))
  | KeyEnter =>
      if (0 <? len (conversations m))%Z then
        let sortedConvs := sortConvs (conversations m) in
        conv <- index sortedConvs (selectedConv m) ;;
        let m := set_conversation m conv in
        let m := set_messages m (storage.Messages (conversation m)) in
        let m := set_mode m ModeNormal in
        let m := updateViewport m in
        fall w (onViewport viewport.GotoBottom m) cmds
      else fall w m cmds
  | _ => fall w m cmds
  end.

Definition updateCommandSelect (w : World) (m : model) (cmds : list WidgetCmd) (k : Key)
    : Result (World * model * Cmd) :=
  match Type_ k with
  | KeyEsc => fall w (set_mode m ModeNormal) cmds
  | KeyUp =>
      if (0 <? selectedCommand m)%Z
      then fall w (set_selectedCommand m (selectedCommand m - 1)) cmds
      else fall w m cmds
  | KeyDown =>
      if (selectedCommand m <? len (commands m) - 1)%Z
      then fall w (set_selectedCommand m (selectedCommand m + 1)) cmds
      else fall w m cmds
  | KeyEnter =>
      if (0 <? len (commands m))%Z then runSelected w m (selectedCommand m)
      else fall w m cmds
  | KeyRunes =>
      if String_ k =? "c" then
        if (0 <? len (commands m))%Z then
          mt <- index (commands m) (selectedCommand m) ;;
          cmdStr <- index mt 1 ;;
          copyToClipboard w m cmdStr
        else fall w m cmds
      else
        match strconv.Atoi (String_ k) with
        | Some num =>
            if ((0 <? num) && (num <=? len (commands m)))%Z%bool
            then runSelected w m (num - 1)
            else fall w m cmds
        | None => fall w m cmds
        end
  | _ => fall w m cmds
  end.

Definition updateKey (w : World) (m : model) (cmds : list WidgetCmd) (k : Key)
    : Result (World * model * Cmd) :=
  let s := String_ k in
  if s =? "ctrl+c" then retCmd w m cmdQuit
  else if s =? "ctrl+x" then
    r <- handleCommandExecution m ;;
    retCmd w (fst r) (snd r)
  else if (s =? "ctrl+j") || (s =? "ctrl+k") then enterEditing w m
  else if s =? "ctrl+l" then
    match storage.ListConversations (codec E) (dir w) with
    | inr e => ret w (set_err m (Some e))
    | inl conversations =>
        if (0 <? len conversations)%Z then
          let conversations := sortConvs conversations in
          let m := set_lastLoadedConv m (lastLoadedConv m + 1) in
          let m :=
            if (len conversations <=? lastLoadedConv m)%Z
            then set_lastLoadedConv m 0 else m in
          conv <- index conversations (lastLoadedConv m) ;;
          let m := set_conversation m conv in
          let m := set_messages m (storage.Messages (conversation m)) in
          let m := updateViewport m in
          ret w (onViewport viewport.GotoBottom m)
        else ret w m
    end
  else if s =? "ctrl+n" then
    let conv := newConversation w in
    let m := set_conversation m conv in
    let m := set_messages m (storage.Messages conv) in
    let m := set_mode m ModeNormal in
    ret w (updateViewport m)
  else if s =? "ctrl+h" then ret w (updateViewport (set_mode m ModeHelp))
  else
    match mode m with
    | ModeNormal => updateNormal w m cmds k
    | ModeEditing => updateEditing w m cmds k
    | ModeHistory => updateHistory w m cmds k
    | ModeCommandSelect => updateCommandSelect w m cmds k
    | ModeHelp => ret w (updateViewport (set_mode m ModeNormal))
    end.

Definition updateApiResponse (w : World) (m : model) (cmds : list WidgetCmd)
    (response : string) (e : option error) : Result (World * model * Cmd) :=
  let m := set_isLoading m false in
  match e with
  | Some _ => ret w (set_err m e)
  | None =>
      let botMsg :=
        {| storage.Role := "assistant";
           storage.Content := response;
           storage.Timestamp := now w |} in
      let m := set_messages m (messages m ++ [botMsg])%list in
      let m := set_conversation m (set_conv_Messages (conversation m) (messages m)) in
      let m :=
        if storage.Summary (conversation m) =? EmptyString then setSummary m else m in
      let (w, m) := save w m in
      let m := updateViewport m in
      fall w (onViewport viewport.GotoBottom m) cmds
  end.

(** The edit commit.  [m.messages[msg.index].Content = msg.edited] writes
    into the array of the slice; after Enter in the history list that
    array is also the one of an entry of [m.conversations], which the
    write then changes as well.  The model's [conversations] keeps the
    entries as they were listed: it gives the number of entries and their
    order, not what their messages are after a commit. *)
Definition updateEditMessage (w : World) (m : model) (i : Z) (edited : string)
    (e : option error) : Result (World * model * Cmd) :=
  match e with
  | Some _ => ret w (set_err m e)
  | None =>
      old <- index (messages m) i ;;
      let m := set_messages m
                 (assign (messages m) (Z.to_nat i) (set_msg_Content old edited)) in
      let m := set_messages m (slice_to (messages m) (i + 1)) in
      let m := set_conversation m (set_conv_Messages (conversation m) (messages m)) in
      let m := updateViewport m in
      let m := onViewport viewport.GotoBottom m in
      let m := setSummary m in
      let (w, m) := save w m in
      let m := set_mode m ModeNormal in
      let m := set_isLoading m true in
      request w m
  end.

Definition updateCommandOutput (w : World) (m : model) (output : string)
    (e : option error) : Result (World * model * Cmd) :=
  match e with
  | Some _ => ret w (set_err m e)
  | None =>
      let botMsg :=
        {| storage.Role := "assistant";
           storage.Content := "```" ++ nl ++ output ++ "```";
           storage.Timestamp := now w |} in
      let m := set_messages m (messages m ++ [botMsg])%list in
      let m := set_conversation m (set_conv_Messages (conversation m) (messages m)) in
      let (w, m) := save w m in
      let m := updateViewport m in
      ret w (onViewport viewport.GotoBottom m)
  end.

(** [Update]: one event, in the world [w]; the world it leaves, the next
    model and the command for the runtime, or a panic. *)
Definition Update (w : World) (m : model) (msg : Msg) : Result (World * model * Cmd) :=
  let cmds := if isLoading m then [spinnerCmd] else [] in
  let m := if isLoading m then set_spinner m (spinner_Update E (spinner m) msg) else m in
  match msg with
  | WindowSizeMsg Width Height =>
      let m := set_height m Height in
      let m := set_width m Width in
      let m := set_ready m true in
      let m := set_textInput m (textinput.set_Width (textInput m) (width m - 4)) in
      ret w (updateViewport m)
  | MouseMsg t => updateMouse w m cmds t
  | KeyMsg k => updateKey w m cmds k
  | apiResponseMsg response e => updateApiResponse w m cmds response e
  | editMessageMsg i edited e => updateEditMessage w m i edited e
  | commandOutputMsg output e => updateCommandOutput w m output e
  | scrollMsg offset => ret w (onViewport (fun vp => viewport.set_YOffset vp offset) m)
  | otherMsg _ => fall w m cmds
  end.

End WithEnv.

End main.

(* ===================================================================== *)
(** * The properties, in the words of the specification *)
(* ===================================================================== *)

(** [sep] occurs in [s] between [before] and [after], and nowhere further
    to the left. *)
Definition firstAt (sep before after s : string) : Prop :=
  s = before ++ sep ++ after /\
  forall b a, s = b ++ sep ++ a -> length before <= length b.

(** The delimiter pairs of a text, in document order: [Occurrences T inners]
    holds when [inners] are the inner texts of the non-overlapping
    opening/closing pairs of [T], read from left to right; each pair runs
    from the leftmost opening tag not yet consumed to the first closing
    tag after it. *)
Inductive Occurrences : string -> list string -> Prop :=
| occ_none (T : string) :
    (forall a b c, T <> a ++ regexp.openTag ++ b ++ regexp.closeTag ++ c) ->
    Occurrences T []
| occ_pair (T before r inner after : string) (inners : list string) :
    firstAt regexp.openTag before r T ->
    firstAt regexp.closeTag inner after r ->
    Occurrences after inners ->
    Occurrences T (inner :: inners).

(** A text of white-space runes only: the runes for which
    [unicode.IsSpace] holds, in UTF-8, one after the other. *)
Fixpoint spaceOnly (s : string) : bool :=
  match s with
  | EmptyString => true
  | String b1 t1 =>
      if strings.asciiSpace b1 then spaceOnly t1
      else match t1 with
           | EmptyString => false
           | String b2 t2 =>
               if strings.space2 b1 b2 then spaceOnly t2
               else match t2 with
                    | EmptyString => false
                    | String b3 t3 =>
                        if strings.space3 b1 b2 b3 then spaceOnly t3 else false
                    end
           end
  end.

(** [c] is [inner] with its leading and trailing white space removed:
    [inner] is white space, then [c], then white space. *)
Definition trimmedOf (inner c : string) : Prop :=
  exists leading trailing,
    inner = leading ++ c ++ trailing /\
    spaceOnly leading = true /\ spaceOnly trailing = true.

(* ===================================================================== *)
(** * A plain environment for the examples *)
(* ===================================================================== *)

(** A stand-in for [encoding/json] and [time]: a conversation is written
    as [conv:] followed by its id, an instant as its number. *)
Definition demoCodec : storage.Codec :=
  {| storage.json_Unmarshal := fun data =>
       if strings.HasPrefix data "conv:"
       then Some {| storage.ID := strings.drop 5 data; storage.Messages := [];
                    storage.CreatedAt := 0%Z; storage.Summary := "" |}
       else None;
     storage.json_MarshalIndent := fun conv => inl ("conv:" ++ storage.ID conv);
     storage.time_Format := fun t _ => strings.Itoa t |}.

(** Styles that render their text unchanged, widgets that ignore their
    input, on Linux. *)
Definition demoEnv : main.Env :=
  {| main.codec := demoCodec;
     main.Render := fun _ s => s;
     main.textinput_Update := fun ti _ => ti;
     main.spinner_Update := fun sp _ => S sp;
     main.GOOS := "linux" |}.

Definition emptyDir : storage.Dir :=
  {| storage.baseDir := "/home/user/.gpt-term/conversations";
     storage.ReadDirErr := None; storage.Files := []; storage.WriteFileErr := None;
     storage.WriteOutsideErr := fun _ => None |}.

Definition demoWorld : main.World :=
  {| main.dir := emptyDir;
     main.tmpFiles := [];
     main.CreateTemp := inl "/tmp/gpt-term-edit-1.txt";
     main.WriteStringErr := None;
     main.ReadFileErr := None;
     main.now := 1000%Z;
     main.newUUID := "id-1";
     main.EDITOR := "" |}.

Definition userMessage (content : string) : storage.Message :=
  {| storage.Role := "user"; storage.Content := content; storage.Timestamp := 1%Z |}.
Definition assistantMessage (content : string) : storage.Message :=
  {| storage.Role := "assistant"; storage.Content := content; storage.Timestamp := 2%Z |}.

(** The model with the given history as its current conversation. *)
Definition withMessages (m : main.model) (msgs : list storage.Message) : main.model :=
  main.set_conversation (main.set_messages m msgs)
    (main.set_conv_Messages (main.conversation m) msgs).

Definition key (t : tea.KeyType) : main.Msg :=
  main.KeyMsg {| tea.Type_ := t; tea.Runes := ""; tea.Alt := false |}.
Definition rune (r : string) : main.Msg :=
  main.KeyMsg {| tea.Type_ := tea.KeyRunes; tea.Runes := r; tea.Alt := false |}.

(** A storage directory with one conversation that loads, one file that
    cannot be read, one that does not parse, and one with another
    extension. *)
Definition mixedDir : storage.Dir :=
  {| storage.baseDir := "/home/user/.gpt-term/conversations";
     storage.ReadDirErr := None;
     storage.Files :=
       [ {| storage.Name := "2024_a.convo"; storage.Data := inl "conv:a" |};
         {| storage.Name := "2024_b.convo"; storage.Data := inr "permission denied" |};
         {| storage.Name := "2024_c.convo"; storage.Data := inl "{broken" |};
         {| storage.Name := "notes.txt"; storage.Data := inl "conv:d" |} ];
     storage.WriteFileErr := None;
     storage.WriteOutsideErr := fun _ => None |}.

(** The history of the first scenario: the assistant proposes one command. *)
Definition lsReply : string := "run <command>ls -la</command>".

Definition lsModel : main.model :=
  withMessages (main.initialModel demoWorld)
    [main.systemMsg demoWorld; userMessage "list files"; assistantMessage lsReply].

(** The same model while a completion request is outstanding, with text
    typed into the input line. *)
Definition loadingModel : main.model :=
  main.set_isLoading
    (main.set_textInput lsModel {| textinput.Value := "and hidden ones"; textinput.Width := 0%Z |})
    true.

(* ===================================================================== *)
(** * Scrolling, in the words of the specification *)
(* ===================================================================== *)

(** The range the specification gives for the scroll offset. *)
Definition offsetInRange (vp : viewport.Model) : Prop :=
  (0 <= viewport.YOffset vp
   <= Z.max 0 (viewport.TotalLineCount vp - viewport.Height vp))%Z.

(** The range with the one more line [ensureConversationVisible] allows
    ("Add 1 to account for footer space"). *)
Definition offsetInFooterRange (vp : viewport.Model) : Prop :=
  (0 <= viewport.YOffset vp
   <= Z.max 0 (viewport.TotalLineCount vp - viewport.Height vp + 1))%Z.

(** The operations on the viewport: scrolling, the two ensure-visible
    helpers, content regeneration ([updateViewport]), and any change of
    the rest of the model that keeps the viewport ([opState]). *)
Inductive ScrollOp :=
| opLineUp (n : Z)
| opLineDown (n : Z)
| opHalfViewUp
| opHalfViewDown
| opGotoTop
| opGotoBottom
| opEnsureMessageVisible (index : Z)
| opEnsureConversationVisible (index : Z)
| opUpdateViewport
| opState (rest : main.model).

Definition applyOp (E : main.Env) (m : main.model) (op : ScrollOp) : main.model :=
  match op with
  | opLineUp n => main.onViewport (fun vp => viewport.LineUp vp n) m
  | opLineDown n => main.onViewport (fun vp => viewport.LineDown vp n) m
  | opHalfViewUp => main.onViewport viewport.HalfViewUp m
  | opHalfViewDown => main.onViewport viewport.HalfViewDown m
  | opGotoTop => main.onViewport viewport.GotoTop m
  | opGotoBottom => main.onViewport viewport.GotoBottom m
  | opEnsureMessageVisible index => main.ensureMessageVisible E m index
  | opEnsureConversationVisible index => main.ensureConversationVisible E m index
  | opUpdateViewport => main.updateViewport E m
  | opState rest => main.set_viewport rest (main.viewport m)
  end.

Definition runOps (E : main.Env) (m : main.model) (ops : list ScrollOp) : main.model :=
  fold_left (applyOp E) ops m.

(** The operations that put the offset within the specification's range
    whatever it was: the two jumps, [ensureMessageVisible] and content
    regeneration.  (A line or half-page movement leaves an offset that is
    past the bottom where it is.) *)
Definition tightOp (op : ScrollOp) : bool :=
  match op with
  | opGotoTop | opGotoBottom | opEnsureMessageVisible _ | opUpdateViewport => true
  | _ => false
  end.

(** Ten stored conversations, and the history list over them in a
    terminal of 14 rows. *)
Definition tenConversations : list storage.Conversation :=
  map (fun n => {| storage.ID := strings.Itoa (Z.of_nat n); storage.Messages := [];
                   storage.CreatedAt := Z.of_nat n; storage.Summary := "chat" |})
      (seq 0 10).

Definition historyModel : main.model :=
  main.set_height
    (main.set_mode (main.set_conversations (main.initialModel demoWorld) tenConversations)
       main.ModeHistory)
    14.

(** The directory with the ten conversations stored. *)
Definition tenFilesDir : storage.Dir :=
  {| storage.baseDir := "/home/user/.gpt-term/conversations";
     storage.ReadDirErr := None;
     storage.Files :=
       map (fun n => {| storage.Name := strings.Itoa (Z.of_nat n) ++ ".convo";
                        storage.Data := inl ("conv:" ++ strings.Itoa (Z.of_nat n)) |})
           (seq 0 10);
     storage.WriteFileErr := None;
     storage.WriteOutsideErr := fun _ => None |}.

(** Events handled one after the other, in a world that only [Update]
    changes. *)
Fixpoint runUpdate (E : main.Env) (w : main.World) (m : main.model)
    (msgs : list main.Msg) : Result (main.World * main.model) :=
  match msgs with
  | [] => Ok (w, m)
  | msg :: rest =>
      r <- main.Update E w m msg ;;
      runUpdate E (fst (fst r)) (snd (fst r)) rest
  end.

(** A shell in which every command fails with exit status 2. *)
Definition failingShell (cmdStr : string) : string * option error :=
  ("ls: cannot access '/nonexistent': No such file or directory" ++ main.nl,
   Some "exit status 2").

(** A world in which the temporary file can be created but not written. *)
Definition fullDiskWorld : main.World :=
  {| main.dir := emptyDir;
     main.tmpFiles := [];
     main.CreateTemp := inl "/tmp/gpt-term-edit-1.txt";
     main.WriteStringErr := Some "no space left on device";
     main.ReadFileErr := None;
     main.now := 1000%Z;
     main.newUUID := "id-1";
     main.EDITOR := "" |}.

(** The history of the second scenario. *)
Definition hiModel : main.model :=
  withMessages (main.initialModel demoWorld)
    [main.systemMsg demoWorld; userMessage "hi"; assistantMessage "hello"].

(* ===================================================================== *)
(** * Notions used in the proofs *)
(* ===================================================================== *)

(** Two models that differ in their viewport at most. *)
Definition sameButViewport (m m' : main.model) : Prop :=
  m' = main.set_viewport m (main.viewport m').

(** The model as [Update] sees it after the spinner has had the message. *)
Definition afterSpinner (E : main.Env) (m : main.model) (msg : main.Msg) : main.model :=
  if main.isLoading m
  then main.set_spinner m (main.spinner_Update E (main.spinner m) msg)
  else m.


(* ===================================================================== *)
(** * Further notions: storage, requests, history *)
(* ===================================================================== *)

(** The byte [x] does not occur in [s]. *)
Fixpoint noChar (x : ascii) (s : string) : bool :=
  match s with
  | EmptyString => true
  | String c t => negb (Ascii.eqb c x) && noChar x t
  end.

(** A stored conversation that the stand-in codec writes and reads back
    unchanged. *)
Definition storedConv : storage.Conversation :=
  {| storage.ID := "a"; storage.Messages := [];
     storage.CreatedAt := 0%Z; storage.Summary := "" |}.

(** A conversation whose id leads its file out of the storage directory. *)
Definition climbingConv : storage.Conversation :=
  {| storage.ID := "/../../x"; storage.Messages := [];
     storage.CreatedAt := 0%Z; storage.Summary := "" |}.

(** A transport that answers every request with one text block. *)
Definition echoTransport : claude.Transport :=
  {| claude.json_Marshal := fun req => inl (claude.System req);
     claude.http_NewRequestErr := None;
     claude.http_Do := fun req =>
       inl {| claude.StatusCode := 200%Z; claude.Body := inl (claude.RequestBody req) |};
     claude.json_Unmarshal := fun body =>
       inl {| claude.ResponseContent := [body; "second block"];
              claude.ResponseRole := "assistant" |} |}.

(** The conversation holds the history the model shows. *)
Definition synced (m : main.model) : Prop :=
  storage.Messages (main.conversation m) = main.messages m.

(** The selection list is usable whenever it is shown: it is not empty,
    the selected index is one of its indices, and every entry is a match
    of the command pattern (the whole match and the submatch). *)
Definition selectionValid (m : main.model) : Prop :=
  main.mode m = main.ModeCommandSelect ->
  main.commands m <> [] /\
  (0 <= main.selectedCommand m < len (main.commands m))%Z /\
  Forall (fun mt => List.length mt = 2) (main.commands m).

(** The model after Ctrl+X on the first scenario: the list of one. *)
Definition lsSelectModel : main.model :=
  main.set_selectedCommand
    (main.set_commands (main.set_mode lsModel main.ModeCommandSelect)
       [["<command>ls -la</command>"; "ls -la"]])
    0.

(** The history starts with a system message. *)
Definition startsWithSystem (msgs : list storage.Message) : Prop :=
  exists s rest, msgs = s :: rest /\ storage.Role s = "system".

(** The event loads a stored conversation: Ctrl+L, or Enter in the
    history list. *)
Definition loadsConversation (m : main.model) (msg : main.Msg) : Prop :=
  exists k,
    msg = main.KeyMsg k /\
    (tea.String_ k = "ctrl+l" \/
     (main.mode m = main.ModeHistory /\ tea.Type_ k = tea.KeyEnter)).

(** In edit navigation the cursor is an index of the history. *)
Definition cursorValid (m : main.model) : Prop :=
  main.mode m = main.ModeEditing ->
  (0 <= main.cursorIndex m < len (main.messages m))%Z.

(** The selection of the history list is one of its indices (when there
    is one), and the counter of Ctrl+L has not gone below its start. *)
Definition historyValid (m : main.model) : Prop :=
  (main.conversations m = [] \/
   (0 <= main.selectedConv m < len (main.conversations m))%Z) /\
  (-1 <= main.lastLoadedConv m)%Z.

(** The history list of ten conversations with the first one selected. *)
Definition historyListModel : main.model := main.updateViewport demoEnv historyModel.

(** The first scenario after a failure has been recorded. *)
Definition erroredModel : main.model := main.set_err lsModel (Some "exit status 1").

(** The models the program can be in: the initial one, and every model a
    step of [Update] gives from one of them, in whatever world the step is
    taken. *)
Inductive reachable (E : main.Env) : main.model -> Prop :=
| reach_init (w : main.World) : reachable E (main.initialModel w)
| reach_step (w w' : main.World) (m m' : main.model) (msg : main.Msg) (c : main.Cmd) :
    reachable E m ->
    main.Update E w m msg = Ok (w', m', c) ->
    reachable E m'.

(** [msgs] with the content of every system message replaced by [text]. *)
Definition withSystemText (text : string) (msgs : list storage.Message)
    : list storage.Message :=
  map (fun msg =>
         if storage.Role msg =? "system" then main.set_msg_Content msg text else msg)
      msgs.

(** The events after which [Update] saves the conversation: a completion
    result, an edit commit and a command output that carry no error. *)
Definition savesConversation (msg : main.Msg) : bool :=
  match msg with
  | main.apiResponseMsg _ None
  | main.editMessageMsg _ _ None
  | main.commandOutputMsg _ None => true
  | _ => false
  end.

(** The second scenario in edit navigation, the cursor on the user's
    message. *)
Definition hiEditingModel : main.model :=
  main.set_cursorIndex (main.set_mode hiModel main.ModeEditing) 1.

(** The two scenarios once the terminal has reported its size, 80 columns
    by 24 rows. *)
Definition sized (m : main.model) : main.model :=
  match main.Update demoEnv demoWorld m (main.WindowSizeMsg 80 24) with
  | Ok (_, m', _) => m'
  | Panic _ => m
  end.

Definition sizedLsModel : main.model := sized lsModel.
Definition sizedHiModel : main.model := sized hiModel.

(* ===================================================================== *)
(** * Strings *)
(* ===================================================================== *)

Lemma append_assoc (a b c : string) : (a ++ b) ++ c = a ++ b ++ c.
Proof. induction a as [|x a IH]; simpl; [reflexivity | now rewrite IH]. Qed.

Lemma append_length (a b : string) : length (a ++ b) = length a + length b.
Proof. induction a as [|x a IH]; simpl; [reflexivity | now rewrite IH]. Qed.

Lemma append_empty_r (a : string) : a ++ "" = a.
Proof. induction a as [|x a IH]; simpl; [reflexivity | now rewrite IH]. Qed.

Lemma append_inj_length (a b c d : string) :
  a ++ b = c ++ d -> length a = length c -> a = c /\ b = d.
Proof.
  revert c. induction a as [|x a IH]; intros [|y c] H L; simpl in *; try discriminate.
  - now split.
  - injection H as -> H. injection L as L.
    destruct (IH _ H L) as [-> ->]. now split.
Qed.

Lemma HasPrefix_append (p r : string) : strings.HasPrefix (p ++ r) p = true.
Proof.
  induction p as [|x p IH]; simpl; [now destruct r|].
  now rewrite Ascii.eqb_refl.
Qed.

Lemma HasPrefix_true (s p : string) :
  strings.HasPrefix s p = true -> exists r, s = p ++ r.
Proof.
  revert s. induction p as [|x p IH]; intros s H; simpl in *.
  - now exists s.
  - destruct s as [|y s]; simpl in H; [discriminate|].
    destruct (Ascii.eqb_spec x y) as [->|]; [|discriminate].
    destruct (IH _ H) as [r ->]. now exists r.
Qed.

Lemma drop_append (p r : string) : strings.drop (length p) (p ++ r) = r.
Proof. induction p as [|x p IH]; simpl; [reflexivity | exact IH]. Qed.

Lemma Cut_eq (s sep : string) :
  strings.Cut s sep =
  if strings.HasPrefix s sep then Some ("", strings.drop (length sep) s)
  else match s with
       | EmptyString => None
       | String c t =>
           match strings.Cut t sep with
           | Some (before, after) => Some (String c before, after)
           | None => None
           end
       end.
Proof. destruct s; reflexivity. Qed.

Lemma Cut_Some (sep s b a : string) :
  strings.Cut s sep = Some (b, a) -> firstAt sep b a s.
Proof.
  revert b a. induction s as [|c t IH]; intros b a H; rewrite Cut_eq in H;
    destruct (strings.HasPrefix _ sep) eqn:P.
  - injection H as <- <-. apply HasPrefix_true in P as [r P].
    split; [|intros; simpl; lia].
    simpl. rewrite P at 2. now rewrite drop_append.
  - discriminate.
  - injection H as <- <-. apply HasPrefix_true in P as [r P].
    split; [|intros; simpl; lia].
    simpl "++". rewrite P at 2. now rewrite drop_append.
  - destruct (strings.Cut t sep) as [[b' a']|] eqn:C; [|discriminate].
    injection H as <- <-.
    destruct (IH _ _ eq_refl) as [E F]. split.
    + simpl. now rewrite <- E.
    + intros [|y b0] a0 H0; simpl in H0.
      * rewrite H0, HasPrefix_append in P. discriminate.
      * injection H0 as _ H0. apply F in H0. simpl. lia.
Qed.

Lemma Cut_None (sep s : string) :
  strings.Cut s sep = None -> forall b a, s <> b ++ sep ++ a.
Proof.
  induction s as [|c t IH]; intros H b a E; rewrite Cut_eq in H;
    destruct (strings.HasPrefix _ sep) eqn:P; try discriminate.
  - destruct b; [|discriminate]. simpl in E.
    rewrite E, HasPrefix_append in P. discriminate.
  - destruct (strings.Cut t sep) as [[b' a']|] eqn:C; [discriminate|].
    destruct b as [|y b]; simpl in E.
    + rewrite E, HasPrefix_append in P. discriminate.
    + injection E as _ E. exact (IH eq_refl _ _ E).
Qed.

Lemma firstAt_unique (sep s b a b' a' : string) :
  firstAt sep b a s -> firstAt sep b' a' s -> b = b' /\ a = a'.
Proof.
  intros [E F] [E' F'].
  assert (L : length b = length b').
  { apply F in E'. apply F' in E. lia. }
  rewrite E in E'. destruct (append_inj_length _ _ _ _ E' L) as [-> H].
  split; [reflexivity|].
  apply (append_inj_length sep a sep a') in H; [tauto | reflexivity].
Qed.

Lemma firstAt_exists_Cut (sep s b a : string) :
  s = b ++ sep ++ a -> exists b' a', strings.Cut s sep = Some (b', a').
Proof.
  intros E. destruct (strings.Cut s sep) as [[b' a']|] eqn:C.
  - now exists b', a'.
  - exfalso. exact (Cut_None _ _ C _ _ E).
Qed.

(* ===================================================================== *)
(** * The command pattern *)
(* ===================================================================== *)

Lemma matchCommand_Some (s before inner after : string) :
  regexp.matchCommand s = Some (before, inner, after) ->
  exists r, firstAt regexp.openTag before r s /\ firstAt regexp.closeTag inner after r.
Proof.
  unfold regexp.matchCommand. intros H.
  destruct (strings.Cut s regexp.openTag) as [[b r]|] eqn:C1; [|discriminate].
  destruct (strings.Cut r regexp.closeTag) as [[i a]|] eqn:C2; [|discriminate].
  injection H as <- <- <-. exists r. split; now apply Cut_Some.
Qed.

Lemma append_split (u v u' v' : string) :
  u ++ v = u' ++ v' -> length u <= length u' ->
  exists d, u' = u ++ d /\ v = d ++ v'.
Proof.
  revert u'. induction u as [|x u IH]; intros u' E L; simpl in *.
  - now exists u'.
  - destruct u' as [|y u']; simpl in *; [lia|].
    injection E as -> E.
    destruct (IH u' E ltac:(lia)) as [d [-> ->]]. now exists d.
Qed.

Lemma matchCommand_None (s : string) :
  regexp.matchCommand s = None ->
  forall a b c, s <> a ++ regexp.openTag ++ b ++ regexp.closeTag ++ c.
Proof.
  unfold regexp.matchCommand. intros H a b c E.
  destruct (strings.Cut s regexp.openTag) as [[b' r]|] eqn:C1.
  - destruct (strings.Cut r regexp.closeTag) as [[i a']|] eqn:C2; [discriminate|].
    apply Cut_Some in C1 as [E1 F1].
    pose proof (F1 _ _ E) as L.
    rewrite E1 in E.
    destruct (append_split _ _ _ _ E L) as [d [_ E2]].
    rewrite <- append_assoc in E2.
    destruct (append_split _ _ _ _ E2) as [d' [_ E3]].
    { rewrite append_length. lia. }
    rewrite <- append_assoc in E3.
    exact (Cut_None _ _ C2 _ _ E3).
  - exact (Cut_None _ _ C1 a (b ++ regexp.closeTag ++ c) E).
Qed.

Lemma matchCommand_length (s before inner after : string) :
  regexp.matchCommand s = Some (before, inner, after) -> length after < length s.
Proof.
  intros H. apply matchCommand_Some in H as [r [[E1 _] [E2 _]]].
  subst s r. rewrite !append_length. simpl. lia.
Qed.

Lemma findAll_fuel (n k : nat) (s : string) :
  length s <= n -> length s <= k -> regexp.findAll n s = regexp.findAll k s.
Proof.
  revert k s. induction n as [|n IH]; intros k s Ln Lk.
  - destruct s; simpl in Ln; [|lia].
    destruct k; reflexivity.
  - destruct k as [|k].
    + destruct s; simpl in Lk; [reflexivity | lia].
    + simpl. destruct (regexp.matchCommand s) as [[[b i] a]|] eqn:M; [|reflexivity].
      apply matchCommand_length in M. f_equal. apply IH; lia.
Qed.

(** The unfolding of [FindAllStringSubmatch]: the leftmost match, then the
    matches of what follows it. *)
Lemma FindAllStringSubmatch_eq (s : string) :
  regexp.FindAllStringSubmatch s =
  match regexp.matchCommand s with
  | None => []
  | Some (_, inner, after) =>
      [regexp.openTag ++ inner ++ regexp.closeTag; inner]
        :: regexp.FindAllStringSubmatch after
  end.
Proof.
  unfold regexp.FindAllStringSubmatch.
  destruct (regexp.matchCommand s) as [[[b i] a]|] eqn:M.
  - pose proof (matchCommand_length _ _ _ _ M) as L.
    destruct (length s) as [|n] eqn:Ls; [lia|].
    simpl. rewrite M. f_equal. apply findAll_fuel; lia.
  - destruct (length s); simpl; [reflexivity | now rewrite M].
Qed.

Lemma extract_eq (s : string) :
  main.extract s =
  match regexp.matchCommand s with
  | None => []
  | Some (_, inner, after) => strings.TrimSpace inner :: main.extract after
  end.
Proof.
  unfold main.extract. rewrite FindAllStringSubmatch_eq.
  destruct (regexp.matchCommand s) as [[[b i] a]|]; reflexivity.
Qed.

Lemma extract_Occurrences (n : nat) (T : string) :
  length T <= n ->
  exists inners, Occurrences T inners /\ main.extract T = map strings.TrimSpace inners.
Proof.
  revert T. induction n as [|n IH]; intros T L; rewrite extract_eq;
    destruct (regexp.matchCommand T) as [[[b i] a]|] eqn:M.
  - apply matchCommand_length in M. lia.
  - exists []. split; [|reflexivity]. constructor. now apply matchCommand_None.
  - pose proof (matchCommand_length _ _ _ _ M) as La.
    destruct (IH a ltac:(lia)) as [inners [O E]].
    apply matchCommand_Some in M as [r [F1 F2]].
    exists (i :: inners). split.
    + econstructor; eassumption.
    + simpl. now rewrite E.
  - exists []. split; [|reflexivity]. constructor. now apply matchCommand_None.
Qed.

(** The delimiter pairs of a text are determined by the text. *)
Lemma Occurrences_functional (T : string) (l1 l2 : list string) :
  Occurrences T l1 -> Occurrences T l2 -> l1 = l2.
Proof.
  intros O1. revert l2. induction O1 as [T N|T b r i a inners F1 F2 O IH];
    intros l2 O2; inversion O2 as [T' N'|T' b' r' i' a' inners' F1' F2' O']; subst.
  - reflexivity.
  - exfalso. destruct F1' as [E1 _], F2' as [E2 _]. subst r'.
    exact (N _ _ _ E1).
  - exfalso. destruct F1 as [E1 _], F2 as [E2 _]. subst r.
    exact (N' _ _ _ E1).
  - destruct (firstAt_unique _ _ _ _ _ _ F1 F1') as [-> ->].
    destruct (firstAt_unique _ _ _ _ _ _ F2 F2') as [-> ->].
    f_equal. now apply IH.
Qed.

(* ===================================================================== *)
(** * TrimSpace *)
(* ===================================================================== *)

Lemma TrimLeftSpace_eq (s : string) :
  strings.TrimLeftSpace s =
  match s with
  | EmptyString => s
  | String b1 t1 =>
      if strings.asciiSpace b1 then strings.TrimLeftSpace t1
      else match t1 with
           | EmptyString => s
           | String b2 t2 =>
               if strings.space2 b1 b2 then strings.TrimLeftSpace t2
               else match t2 with
                    | EmptyString => s
                    | String b3 t3 =>
                        if strings.space3 b1 b2 b3 then strings.TrimLeftSpace t3 else s
                    end
           end
  end.
Proof. destruct s; reflexivity. Qed.

Lemma trimRev_eq (r : list ascii) :
  strings.trimRev r =
  match r with
  | [] => r
  | b1 :: t1 =>
      if strings.asciiSpace b1 then strings.trimRev t1
      else match t1 with
           | [] => r
           | b2 :: t2 =>
               if strings.space2 b2 b1 then strings.trimRev t2
               else match t2 with
                    | [] => r
                    | b3 :: t3 =>
                        if strings.space3 b3 b2 b1 then strings.trimRev t3 else r
                    end
           end
  end.
Proof. destruct r; reflexivity. Qed.

Lemma TrimLeftSpace_no_space (n : nat) (s : string) :
  length s <= n -> strings.spaceWidth (strings.TrimLeftSpace s) = 0.
Proof.
  revert s. induction n as [|n IH]; intros s L.
  - destruct s; [reflexivity | simpl in L; lia].
  - rewrite TrimLeftSpace_eq.
    destruct s as [|b1 t1]; [reflexivity|]. simpl in L.
    destruct (strings.asciiSpace b1) eqn:A1; [apply IH; lia|].
    destruct t1 as [|b2 t2]; [simpl; now rewrite A1|]. simpl in L.
    destruct (strings.space2 b1 b2) eqn:A2; [apply IH; lia|].
    destruct t2 as [|b3 t3]; [simpl; now rewrite A1, A2|]. simpl in L.
    destruct (strings.space3 b1 b2 b3) eqn:A3; [apply IH; lia|].
    simpl. now rewrite A1, A2, A3.
Qed.

Lemma trimRev_no_space (n : nat) (r : list ascii) :
  List.length r <= n -> strings.spaceWidthLast (strings.trimRev r) = 0.
Proof.
  revert r. induction n as [|n IH]; intros r L.
  - destruct r; [reflexivity | simpl in L; lia].
  - rewrite trimRev_eq.
    destruct r as [|b1 t1]; [reflexivity|]. simpl in L.
    destruct (strings.asciiSpace b1) eqn:A1; [apply IH; lia|].
    destruct t1 as [|b2 t2]; [simpl; now rewrite A1|]. simpl in L.
    destruct (strings.space2 b2 b1) eqn:A2; [apply IH; lia|].
    destruct t2 as [|b3 t3]; [simpl; now rewrite A1, A2|]. simpl in L.
    destruct (strings.space3 b3 b2 b1) eqn:A3; [apply IH; lia|].
    simpl. now rewrite A1, A2, A3.
Qed.

Lemma trimRev_suffix (n : nat) (r : list ascii) :
  List.length r <= n -> exists pre, r = (pre ++ strings.trimRev r)%list.
Proof.
  revert r. induction n as [|n IH]; intros r L.
  - destruct r; [now exists [] | simpl in L; lia].
  - rewrite trimRev_eq.
    destruct r as [|b1 t1]; [now exists []|]. simpl in L.
    destruct (strings.asciiSpace b1).
    { destruct (IH t1 ltac:(lia)) as [pre E].
      exists (b1 :: pre). simpl. now rewrite <- E. }
    destruct t1 as [|b2 t2]; [now exists []|]. simpl in L.
    destruct (strings.space2 b2 b1).
    { destruct (IH t2 ltac:(lia)) as [pre E].
      exists (b1 :: b2 :: pre). simpl. now rewrite <- E. }
    destruct t2 as [|b3 t3]; [now exists []|]. simpl in L.
    destruct (strings.space3 b3 b2 b1).
    { destruct (IH t3 ltac:(lia)) as [pre E].
      exists (b1 :: b2 :: b3 :: pre). simpl. now rewrite <- E. }
    now exists [].
Qed.

Lemma string_of_list_ascii_app (l1 l2 : list ascii) :
  string_of_list_ascii (l1 ++ l2)%list = string_of_list_ascii l1 ++ string_of_list_ascii l2.
Proof. induction l1 as [|x l1 IH]; simpl; [reflexivity | now rewrite IH]. Qed.

Lemma TrimRightSpace_prefix (s : string) :
  exists q, s = strings.TrimRightSpace s ++ q.
Proof.
  unfold strings.TrimRightSpace, strings.ofBytesRev.
  destruct (trimRev_suffix _ (strings.bytesRev s) (le_n _)) as [pre E].
  exists (string_of_list_ascii (rev pre)).
  rewrite <- string_of_list_ascii_app, <- rev_app_distr, <- E.
  unfold strings.bytesRev. rewrite rev_involutive.
  now rewrite string_of_list_ascii_of_string.
Qed.

Lemma spaceWidth_prefix (p q : string) :
  strings.spaceWidth (p ++ q) = 0 -> strings.spaceWidth p = 0.
Proof.
  destruct p as [|b1 [|b2 [|b3 t3]]]; simpl; try reflexivity.
  - destruct (strings.asciiSpace b1); [discriminate | reflexivity].
  - destruct (strings.asciiSpace b1); [discriminate|].
    destruct (strings.space2 b1 b2); [discriminate | reflexivity].
  - destruct (strings.asciiSpace b1); [discriminate|].
    destruct (strings.space2 b1 b2); [discriminate|].
    destruct (strings.space3 b1 b2 b3); [discriminate | reflexivity].
Qed.

Lemma TrimSpace_leading (s : string) : strings.leadingSpace (strings.TrimSpace s) = false.
Proof.
  unfold strings.leadingSpace, strings.TrimSpace.
  destruct (TrimRightSpace_prefix (strings.TrimLeftSpace s)) as [q E].
  pose proof (TrimLeftSpace_no_space _ s (le_n _)) as H.
  rewrite E in H. apply spaceWidth_prefix in H. now rewrite H.
Qed.

Lemma TrimSpace_trailing (s : string) : strings.trailingSpace (strings.TrimSpace s) = false.
Proof.
  unfold strings.trailingSpace, strings.TrimSpace, strings.TrimRightSpace,
    strings.ofBytesRev, strings.bytesRev.
  rewrite list_ascii_of_string_of_list_ascii, rev_involutive.
  now rewrite (trimRev_no_space _ _ (le_n _)).
Qed.

(** ** What trimming removes *)

Lemma spaceOnly_eq (s : string) :
  spaceOnly s =
  match s with
  | EmptyString => true
  | String b1 t1 =>
      if strings.asciiSpace b1 then spaceOnly t1
      else match t1 with
           | EmptyString => false
           | String b2 t2 =>
               if strings.space2 b1 b2 then spaceOnly t2
               else match t2 with
                    | EmptyString => false
                    | String b3 t3 =>
                        if strings.space3 b1 b2 b3 then spaceOnly t3 else false
                    end
           end
  end.
Proof. destruct s as [|b1 [|b2 [|b3 t3]]]; reflexivity. Qed.

Lemma spaceOnly_app (n : nat) (a b : string) :
  length a <= n -> spaceOnly a = true -> spaceOnly b = true -> spaceOnly (a ++ b) = true.
Proof.
  revert a. induction n as [|n IH]; intros a L A B.
  - destruct a; [exact B | simpl in L; lia].
  - destruct a as [|b1 t1]; [exact B|]. simpl in L.
    rewrite spaceOnly_eq in A. cbn [append]. rewrite spaceOnly_eq.
    destruct (strings.asciiSpace b1); [apply IH; [lia | exact A | exact B]|].
    destruct t1 as [|b2 t2]; [discriminate|]. simpl in L. cbn [append].
    destruct (strings.space2 b1 b2); [apply IH; [lia | exact A | exact B]|].
    destruct t2 as [|b3 t3]; [discriminate|]. simpl in L. cbn [append].
    destruct (strings.space3 b1 b2 b3); [apply IH; [lia | exact A | exact B] | discriminate].
Qed.

(** What [TrimLeftSpace] removes is white space. *)
Lemma TrimLeftSpace_removes (n : nat) (s : string) :
  length s <= n ->
  exists l, s = l ++ strings.TrimLeftSpace s /\ spaceOnly l = true.
Proof.
  revert s. induction n as [|n IH]; intros s L.
  - destruct s; [now exists "" | simpl in L; lia].
  - rewrite TrimLeftSpace_eq.
    destruct s as [|b1 t1]; [now exists ""|]. simpl in L.
    destruct (strings.asciiSpace b1) eqn:A1.
    { destruct (IH t1 ltac:(lia)) as (l & E & S).
      exists (String b1 l). split; [cbn [append]; now rewrite <- E|].
      rewrite spaceOnly_eq. now rewrite A1. }
    destruct t1 as [|b2 t2]; [now exists ""|]. simpl in L.
    destruct (strings.space2 b1 b2) eqn:A2.
    { destruct (IH t2 ltac:(lia)) as (l & E & S).
      exists (String b1 (String b2 l)). split; [cbn [append]; now rewrite <- E|].
      rewrite spaceOnly_eq. now rewrite A1, A2. }
    destruct t2 as [|b3 t3]; [now exists ""|]. simpl in L.
    destruct (strings.space3 b1 b2 b3) eqn:A3.
    { destruct (IH t3 ltac:(lia)) as (l & E & S).
      exists (String b1 (String b2 (String b3 l))).
      split; [cbn [append]; now rewrite <- E|].
      rewrite spaceOnly_eq. now rewrite A1, A2, A3. }
    now exists "".
Qed.

(** The first byte of a two-byte or three-byte white-space rune is no
    white-space byte, and that of a three-byte one starts no two-byte one. *)
Lemma space2_lead (b1 b2 : ascii) :
  strings.space2 b1 b2 = true -> strings.asciiSpace b1 = false.
Proof.
  destruct b1 as [[] [] [] [] [] [] [] []]; cbv; intros H;
    first [reflexivity | discriminate H].
Qed.

Lemma space3_lead (b1 b2 b3 : ascii) :
  strings.space3 b1 b2 b3 = true ->
  strings.asciiSpace b1 = false /\ strings.space2 b1 b2 = false.
Proof.
  destruct b1 as [[] [] [] [] [] [] [] []];
    unfold strings.space3, strings.space2, strings.asciiSpace, strings.byte;
    cbn [N_of_ascii N_of_digits N.add N.mul Pos.add Pos.mul Pos.succ];
    intros H; first [split; reflexivity | discriminate H].
Qed.

(** What [trimRev] removes is white space, read forwards. *)
Lemma trimRev_removes (n : nat) (r : list ascii) :
  List.length r <= n ->
  exists pre, r = (pre ++ strings.trimRev r)%list /\
              spaceOnly (string_of_list_ascii (rev pre)) = true.
Proof.
  revert r. induction n as [|n IH]; intros r L.
  - destruct r; [now exists [] | simpl in L; lia].
  - rewrite trimRev_eq.
    destruct r as [|b1 t1]; [now exists []|]. simpl in L.
    destruct (strings.asciiSpace b1) eqn:A1.
    { destruct (IH t1 ltac:(lia)) as (pre & E & S).
      exists (b1 :: pre). split; [simpl; now rewrite <- E|].
      cbn [rev]. rewrite string_of_list_ascii_app.
      apply (spaceOnly_app _ _ _ (le_n _) S). simpl. now rewrite A1. }
    destruct t1 as [|b2 t2]; [now exists []|]. simpl in L.
    destruct (strings.space2 b2 b1) eqn:A2.
    { destruct (IH t2 ltac:(lia)) as (pre & E & S).
      exists (b1 :: b2 :: pre). split; [simpl; now rewrite <- E|].
      cbn [rev]. rewrite <- app_assoc, string_of_list_ascii_app.
      apply (spaceOnly_app _ _ _ (le_n _) S). simpl.
      now rewrite (space2_lead _ _ A2), A2. }
    destruct t2 as [|b3 t3]; [now exists []|]. simpl in L.
    destruct (strings.space3 b3 b2 b1) eqn:A3.
    { destruct (IH t3 ltac:(lia)) as (pre & E & S).
      exists (b1 :: b2 :: b3 :: pre). split; [simpl; now rewrite <- E|].
      cbn [rev]. rewrite <- !app_assoc, string_of_list_ascii_app.
      apply (spaceOnly_app _ _ _ (le_n _) S). simpl.
      destruct (space3_lead _ _ _ A3) as [Q1 Q2]. now rewrite Q1, Q2, A3. }
    now exists [].
Qed.

Lemma TrimRightSpace_removes (s : string) :
  exists q, s = strings.TrimRightSpace s ++ q /\ spaceOnly q = true.
Proof.
  unfold strings.TrimRightSpace, strings.ofBytesRev.
  destruct (trimRev_removes _ (strings.bytesRev s) (le_n _)) as (pre & E & S).
  exists (string_of_list_ascii (rev pre)). split; [|exact S].
  rewrite <- string_of_list_ascii_app, <- rev_app_distr, <- E.
  unfold strings.bytesRev. rewrite rev_involutive.
  now rewrite string_of_list_ascii_of_string.
Qed.

(** [TrimSpace] removes white space at the two ends and nothing else. *)
Lemma TrimSpace_removes (s : string) : trimmedOf s (strings.TrimSpace s).
Proof.
  unfold trimmedOf, strings.TrimSpace.
  destruct (TrimLeftSpace_removes _ s (le_n _)) as (l & El & Sl).
  destruct (TrimRightSpace_removes (strings.TrimLeftSpace s)) as (q & Eq & Sq).
  exists l, q. split; [|split; assumption].
  rewrite <- Eq. exact El.
Qed.

(** C5. For every text T, extraction returns the commands of T in
    left-to-right document order, one per non-overlapping opening/closing
    delimiter pair, and every returned string is the pair's inner text with
    leading and trailing white space removed: the inner text is white
    space, the returned string, white space, and the returned string
    neither starts nor ends with a white-space character. *)
Theorem extract_document_order (T : string) :
  exists inners : list string,
    Occurrences T inners /\
    main.extract T = map strings.TrimSpace inners /\
    Forall (fun c => strings.leadingSpace c = false /\ strings.trailingSpace c = false)
           (main.extract T) /\
    Forall2 trimmedOf inners (main.extract T).
Proof.
  destruct (extract_Occurrences _ T (le_n _)) as [inners [O E]].
  exists inners. split; [exact O|]. split; [exact E|]. split.
  - rewrite E. apply Forall_forall. intros c H.
    apply in_map_iff in H as [i [<- _]].
    split; [apply TrimSpace_leading | apply TrimSpace_trailing].
  - rewrite E. clear. induction inners as [|i inners IH]; constructor;
      [apply TrimSpace_removes | exact IH].
Qed.

(* ===================================================================== *)
(** * Paths: where a conversation is written *)
(* ===================================================================== *)

Lemma Split_nonempty (s : string) (sep : ascii) : strings.Split s sep <> [].
Proof.
  induction s as [|c t IH]; simpl; [discriminate|].
  destruct (Ascii.eqb c sep); [discriminate|].
  destruct (strings.Split t sep); [contradiction | discriminate].
Qed.

(** Splitting at a separator splits the elements. *)
Lemma Split_app_sep (a b : string) (sep : ascii) :
  strings.Split (a ++ String sep b) sep
  = (strings.Split a sep ++ strings.Split b sep)%list.
Proof.
  induction a as [|c a IH]; simpl.
  - now rewrite Ascii.eqb_refl.
  - destruct (Ascii.eqb c sep); [now rewrite IH|].
    rewrite IH. pose proof (Split_nonempty a sep) as N.
    destruct (strings.Split a sep) as [|l ls]; [contradiction | reflexivity].
Qed.

(** A text without separator is one element. *)
Lemma Split_name (n : string) (sep : ascii) :
  strings.Count n sep = 0 -> strings.Split n sep = [n].
Proof.
  induction n as [|c n IH]; simpl; [reflexivity|].
  destruct (Ascii.eqb c sep); [discriminate|].
  intros C. now rewrite (IH C).
Qed.

Lemma cleanElements_app (r : bool) (l1 l2 out : list string) :
  filepath.cleanElements r (l1 ++ l2)%list out
  = filepath.cleanElements r l2 (filepath.cleanElements r l1 out).
Proof.
  revert out. induction l1 as [|e l1 IH]; intros out; [reflexivity|].
  cbn [app filepath.cleanElements].
  destruct ((e =? "") || (e =? "."))%bool; [apply IH|].
  destruct (e =? ".."); [|apply IH].
  destruct out as [|top below]; [destruct r; apply IH|].
  destruct (top =? ".."); apply IH.
Qed.

Lemma isName_parts (n : string) :
  storage.isName n = true ->
  (n =? "") = false /\ (n =? ".") = false /\ (n =? "..") = false /\
  strings.Count n filepath.Separator = 0.
Proof.
  unfold storage.isName. intros H.
  apply andb_prop in H as [H C]. apply andb_prop in H as [H D2].
  apply andb_prop in H as [E D1].
  apply negb_true_iff in E, D1, D2. apply Nat.eqb_eq in C. auto.
Qed.

Lemma isName_not_rooted (n : string) : storage.isName n = true -> filepath.rooted n = false.
Proof.
  intros H. apply isName_parts in H as (_ & _ & _ & C).
  destruct n as [|c n]; [reflexivity|]. simpl in *.
  unfold filepath.Separator in *. destruct (Ascii.eqb c "/"); [discriminate | reflexivity].
Qed.

Lemma cleanElements_name (r : bool) (n : string) (out : list string) :
  storage.isName n = true -> filepath.cleanElements r [n] out = n :: out.
Proof.
  intros H. apply isName_parts in H as (E & D1 & D2 & _).
  cbn [filepath.cleanElements]. now rewrite E, D1, D2.
Qed.

Lemma rooted_append (dir rest : string) :
  dir <> "" -> filepath.rooted (dir ++ rest) = filepath.rooted dir.
Proof. destruct dir; [contradiction | reflexivity]. Qed.

(** The elements of a directory's path followed by a name. *)
Lemma elements_join (dir n : string) :
  dir <> "" -> storage.isName n = true ->
  filepath.elements (dir ++ "/" ++ n) = (filepath.elements dir ++ [n])%list.
Proof.
  intros D H. unfold filepath.elements.
  rewrite (rooted_append dir _ D).
  change ("/" ++ n) with (String filepath.Separator n).
  rewrite Split_app_sep, cleanElements_app.
  destruct (isName_parts n H) as (_ & _ & _ & C).
  now rewrite (Split_name n _ C), (cleanElements_name _ n _ H).
Qed.

Lemma concat_join (l : list string) (n : string) :
  String.concat "/" (l ++ [n])%list
  = String.concat "" (map (fun e => e ++ "/") l) ++ n.
Proof.
  induction l as [|e l IH]; [reflexivity|].
  cbn [app map]. destruct l as [|e' l].
  - cbn. now rewrite append_assoc.
  - change (String.concat "/" (e :: (e' :: l) ++ [n])%list)
      with (e ++ "/" ++ String.concat "/" ((e' :: l) ++ [n])%list).
    rewrite IH.
    change (String.concat "" ((e ++ "/") :: map (fun e => e ++ "/") (e' :: l)))
      with ((e ++ "/") ++ "" ++ String.concat "" (map (fun e => e ++ "/") (e' :: l))).
    change ("" ++ ?x) with x. now rewrite !append_assoc.
Qed.

(** Joining a directory's path and a name gives the directory's cleaned
    path, a separator and the name. *)
Lemma Join_name (dir n : string) :
  storage.isName n = true -> filepath.Join dir n = storage.dirPrefix dir ++ n.
Proof.
  intros H. unfold filepath.Join, storage.dirPrefix.
  destruct (isName_parts n H) as (E & _ & _ & C).
  destruct (dir =? "") eqn:D.
  - apply String.eqb_eq in D. subst dir. rewrite E.
    unfold filepath.Clean. rewrite (isName_not_rooted n H).
    unfold filepath.elements at 1. rewrite (isName_not_rooted n H).
    rewrite (Split_name n _ C), (cleanElements_name _ n _ H). reflexivity.
  - apply String.eqb_neq in D. unfold filepath.Clean.
    rewrite (rooted_append dir _ D), (elements_join dir n D H).
    destruct (filepath.rooted dir).
    + now rewrite concat_join, append_assoc.
    + change ("" ++ ?x) with x. rewrite <- concat_join.
      now destruct (filepath.elements dir).
Qed.

(** A conversation whose file name is a name is written under it, in the
    directory. *)
Lemma Join_entry (dir n : string) :
  storage.isName n = true -> storage.entryOf dir (filepath.Join dir n) = Some n.
Proof.
  intros H. rewrite (Join_name dir n H). unfold storage.entryOf.
  now rewrite HasPrefix_append, drop_append, H.
Qed.

(** A file name without separator is a name: it ends in [.convo]. *)
Lemma isName_convo (s : string) :
  strings.Count (s ++ ".convo") filepath.Separator = 0 ->
  storage.isName (s ++ ".convo") = true.
Proof.
  intros C. unfold storage.isName. rewrite C.
  assert (L : 6 <= length (s ++ ".convo")) by (rewrite append_length; simpl; lia).
  assert (N : forall y, length y < 6 -> (s ++ ".convo" =? y) = false).
  { intros y Ly. apply String.eqb_neq. intros Q. rewrite Q in L. lia. }
  rewrite !N by (simpl; lia). reflexivity.
Qed.

Lemma fileName_isName (codec : storage.Codec) (conv : storage.Conversation) :
  strings.Count (storage.fileName codec conv) filepath.Separator = 0 ->
  storage.isName (storage.fileName codec conv) = true.
Proof.
  unfold storage.fileName. rewrite <- !append_assoc. apply isName_convo.
Qed.

(** [Clean] on paths of the library's own test table. *)
Lemma Clean_examples :
  map filepath.Clean
    ["abc/def"; "."; ".."; ""; "abc/"; "abc//def//ghi"; "//abc//"; "abc/./def";
     "abc/def/ghi/../jkl"; "abc/def/../.."; "/abc/def/../.."; "abc/def/../../..";
     "/abc/def/../../.."; "abc/def/../../../ghi/jkl/../../../mno"; "/../abc";
     "abc/../../././../def"]
  = ["abc/def"; "."; ".."; "."; "abc"; "abc/def/ghi"; "/abc"; "abc/def";
     "abc/def/jkl"; "."; "/"; ".."; "/"; "../../mno"; "/abc"; "../../def"].
Proof. reflexivity. Qed.

(* ===================================================================== *)
(** * Listing conversations *)
(* ===================================================================== *)

Lemma loadEntry_Some (codec : storage.Codec) (f : storage.File) (conv : storage.Conversation) :
  storage.loadEntry codec f = Some conv <->
  storage.Ext (storage.Name f) = ".convo" /\
  exists data, storage.Data f = inl data /\ storage.json_Unmarshal codec data = Some conv.
Proof.
  unfold storage.loadEntry.
  destruct (String.eqb_spec (storage.Ext (storage.Name f)) ".convo") as [X|X].
  - destruct (storage.Data f) as [data|e].
    + split.
      * intros H. split; [exact X|]. now exists data.
      * intros [_ [data' [D U]]]. now injection D as ->.
    + split; [discriminate|]. intros [_ [data' [D _]]]. discriminate.
  - split; [discriminate|]. intros [X' _]. contradiction.
Qed.

Lemma loadEntries_In (codec : storage.Codec) (fs : list storage.File)
    (conv : storage.Conversation) :
  In conv (storage.loadEntries codec fs) <->
  exists f, In f fs /\ storage.loadEntry codec f = Some conv.
Proof.
  induction fs as [|f fs IH]; simpl.
  - split; [contradiction | intros [f [[] _]]].
  - destruct (storage.loadEntry codec f) as [c|] eqn:L; simpl; rewrite IH.
    + split.
      * intros [<-|[g [G1 G2]]]; [exists f; auto | exists g; auto].
      * intros [g [[<-|G1] G2]].
        -- left. congruence.
        -- right. now exists g.
    + split.
      * intros [g [G1 G2]]. exists g; auto.
      * intros [g [[<-|G1] G2]]; [congruence | now exists g].
Qed.

(** C10. Listing conversations returns an error only when the storage
    directory itself cannot be read; a file that cannot be read or does
    not parse is skipped, and the result holds exactly the conversations of
    the files with the conversation extension that are read and parsed. *)
Theorem ListConversations_skips_bad_files (codec : storage.Codec) (d : storage.Dir) :
  ((exists e, storage.ListConversations codec d = inr e) <->
   storage.ReadDirErr d <> None) /\
  (storage.ReadDirErr d = None ->
   exists convs,
     storage.ListConversations codec d = inl convs /\
     forall conv,
       In conv convs <->
       exists f data,
         In f (storage.Files d) /\
         storage.Ext (storage.Name f) = ".convo" /\
         storage.Data f = inl data /\
         storage.json_Unmarshal codec data = Some conv).
Proof.
  unfold storage.ListConversations. split.
  - destruct (storage.ReadDirErr d) as [e|].
    + split; [discriminate | intros _; eexists; reflexivity].
    + split; [intros [e H]; discriminate | congruence].
  - intros ->. eexists. split; [reflexivity|].
    intros conv. rewrite loadEntries_In. split.
    + intros [f [F L]]. apply loadEntry_Some in L as [X [data [D U]]].
      exists f, data. auto.
    + intros [f [data [F [X [D U]]]]]. exists f. split; [exact F|].
      apply loadEntry_Some. split; [exact X|]. now exists data.
Qed.

(** The listing of [mixedDir]: no error, and the one conversation that
    loads is in the result. *)
Lemma ListConversations_mixedDir :
  exists convs,
    storage.ListConversations demoCodec mixedDir = inl convs /\
    In {| storage.ID := "a"; storage.Messages := [];
          storage.CreatedAt := 0%Z; storage.Summary := "" |} convs /\
    List.length convs = 1.
Proof.
  destruct (ListConversations_skips_bad_files demoCodec mixedDir) as [_ H].
  destruct (H eq_refl) as [convs [L I]].
  exists convs. split; [exact L|]. split.
  - apply I.
    exists {| storage.Name := "2024_a.convo"; storage.Data := inl "conv:a" |}, "conv:a".
    repeat split. simpl. auto.
  - injection L as <-. reflexivity.
Defined.

(* ===================================================================== *)
(** * What the viewport helpers leave alone *)
(* ===================================================================== *)

Lemma sameButViewport_refl (m : main.model) : sameButViewport m m.
Proof. destruct m; reflexivity. Qed.

Lemma sameButViewport_set (m : main.model) (vp : viewport.Model) :
  sameButViewport m (main.set_viewport m vp).
Proof. reflexivity. Qed.

Lemma sameButViewport_trans (m1 m2 m3 : main.model) :
  sameButViewport m1 m2 -> sameButViewport m2 m3 -> sameButViewport m1 m3.
Proof. unfold sameButViewport. intros -> ->. reflexivity. Qed.

Lemma updateViewport_frame (E : main.Env) (m : main.model) :
  sameButViewport m (main.updateViewport E m).
Proof.
  unfold main.updateViewport.
  repeat match goal with
         | |- context [if ?b then _ else _] => destruct b
         end; apply sameButViewport_set.
Qed.

Lemma ensureMessageVisible_frame (E : main.Env) (m : main.model) (i : Z) :
  sameButViewport m (main.ensureMessageVisible E m i).
Proof. apply sameButViewport_set. Qed.

Lemma ensureConversationVisible_frame (E : main.Env) (m : main.model) (i : Z) :
  sameButViewport m (main.ensureConversationVisible E m i).
Proof. apply sameButViewport_set. Qed.

Lemma onViewport_frame (f : viewport.Model -> viewport.Model) (m : main.model) :
  sameButViewport m (main.onViewport f m).
Proof. apply sameButViewport_set. Qed.

(** The fields of a model whose viewport was replaced. *)
Lemma frame_fields (m m' : main.model) :
  sameButViewport m m' ->
  main.messages m' = main.messages m /\
  main.conversation m' = main.conversation m /\
  main.mode m' = main.mode m /\
  main.cursorIndex m' = main.cursorIndex m /\
  main.isLoading m' = main.isLoading m /\
  main.err m' = main.err m /\
  main.commands m' = main.commands m /\
  main.selectedCommand m' = main.selectedCommand m.
Proof. intros ->. repeat split. Qed.

Lemma len_app {A : Type} (l1 l2 : list A) : len (l1 ++ l2)%list = (len l1 + len l2)%Z.
Proof. unfold len. rewrite length_app. lia. Qed.

Lemma index_Ok {A : Type} (l : list A) (i : Z) (a : A) :
  index l i = Ok a <-> (0 <= i)%Z /\ nth_error l (Z.to_nat i) = Some a.
Proof.
  unfold index. destruct (Z.ltb_spec i 0).
  - split; [discriminate | lia].
  - destruct (nth_error l (Z.to_nat i)) as [b|].
    + split; [intros [= ->]; auto | intros [_ [= ->]]; reflexivity].
    + split; [discriminate | intros [_ [=]]].
Qed.

Lemma index_in_range {A : Type} (l : list A) (i : Z) :
  (0 <= i < len l)%Z -> exists a, index l i = Ok a.
Proof.
  intros H. unfold index. destruct (Z.ltb_spec i 0); [lia|].
  destruct (nth_error l (Z.to_nat i)) as [a|] eqn:N; [now exists a|].
  apply nth_error_None in N. unfold len in H. lia.
Qed.

Lemma index_Ok_range {A : Type} (l : list A) (i : Z) (a : A) :
  index l i = Ok a -> (0 <= i < len l)%Z.
Proof.
  intros H. apply index_Ok in H as [P N].
  assert (Z.to_nat i < List.length l) by (apply nth_error_Some; congruence).
  unfold len. lia.
Qed.

Lemma assign_length {A : Type} (l : list A) (i : nat) (v : A) :
  List.length (assign l i v) = List.length l.
Proof.
  revert i. induction l as [|a l IH]; intros [|i]; simpl; auto.
Qed.

Lemma assign_nth {A : Type} (l : list A) (i : nat) (v : A) :
  i < List.length l -> nth_error (assign l i v) i = Some v.
Proof.
  revert i. induction l as [|a l IH]; intros [|i] H; simpl in *; try lia; auto.
  apply IH. lia.
Qed.

Lemma assign_firstn {A : Type} (l : list A) (i : nat) (v : A) :
  firstn i (assign l i v) = firstn i l.
Proof.
  revert i. induction l as [|a l IH]; intros [|i]; simpl; auto.
  now rewrite IH.
Qed.

(* ===================================================================== *)
(** * Completion results *)
(* ===================================================================== *)

(** The spinner is all that differs. *)
Lemma afterSpinner_spinner_only (E : main.Env) (m : main.model) (msg : main.Msg) :
  afterSpinner E m msg = main.set_spinner m (main.spinner (afterSpinner E m msg)).
Proof. unfold afterSpinner. destruct (main.isLoading m); destruct m; reflexivity. Qed.

Lemma afterSpinner_fields (E : main.Env) (m : main.model) (msg : main.Msg) :
  main.messages (afterSpinner E m msg) = main.messages m /\
  main.conversation (afterSpinner E m msg) = main.conversation m /\
  main.mode (afterSpinner E m msg) = main.mode m /\
  main.cursorIndex (afterSpinner E m msg) = main.cursorIndex m /\
  main.isLoading (afterSpinner E m msg) = main.isLoading m /\
  main.err (afterSpinner E m msg) = main.err m /\
  main.commands (afterSpinner E m msg) = main.commands m /\
  main.selectedCommand (afterSpinner E m msg) = main.selectedCommand m /\
  main.viewport (afterSpinner E m msg) = main.viewport m.
Proof.
  unfold afterSpinner. destruct (main.isLoading m) eqn:L;
    repeat split; try reflexivity; exact L.
Qed.

Lemma save_fields (E : main.Env) (w : main.World) (m : main.model) :
  let r := storage.SaveConversation (main.codec E) (main.dir w) (main.conversation m) in
  main.dir (fst (main.save E w m)) = fst r /\
  main.tmpFiles (fst (main.save E w m)) = main.tmpFiles w /\
  main.messages (snd (main.save E w m)) = main.messages m /\
  main.conversation (snd (main.save E w m)) = main.conversation m /\
  main.mode (snd (main.save E w m)) = main.mode m /\
  main.isLoading (snd (main.save E w m)) = main.isLoading m /\
  main.viewport (snd (main.save E w m)) = main.viewport m /\
  main.err (snd (main.save E w m)) =
    match snd r with Some e => Some e | None => main.err m end.
Proof.
  unfold main.save.
  destruct (storage.SaveConversation _ _ _) as [d [e|]]; simpl; repeat split.
Qed.

Lemma writeEntry_holds (fs : list storage.File) (name data : string) :
  In {| storage.Name := name; storage.Data := inl data |}
     (storage.writeEntry fs name data).
Proof.
  induction fs as [|f fs IH]; simpl; [auto|].
  destruct (String.eqb (storage.Name f) name); [simpl; auto|].
  destruct (String.ltb name (storage.Name f)); simpl; auto.
Qed.

(** When the conversation can be encoded and the file written, and its
    file name holds no separator, the directory holds the encoded snapshot
    under the conversation's file name afterwards. *)
Lemma SaveConversation_writes (codec : storage.Codec) (d : storage.Dir)
    (conv : storage.Conversation) (data : string) :
  storage.json_MarshalIndent codec conv = inl data ->
  storage.WriteFileErr d = None ->
  strings.Count (storage.fileName codec conv) filepath.Separator = 0 ->
  snd (storage.SaveConversation codec d conv) = None /\
  In {| storage.Name := storage.fileName codec conv; storage.Data := inl data |}
     (storage.Files (fst (storage.SaveConversation codec d conv))).
Proof.
  intros M W C. unfold storage.SaveConversation. cbv zeta. rewrite M.
  rewrite (Join_entry _ _ (fileName_isName codec conv C)), W. simpl.
  split; [reflexivity | apply writeEntry_holds].
Qed.

(** C8. For a completion result: on success an assistant message with the
    response text is appended and the conversation, with that message, is
    saved: when it can be encoded and the file written, the storage
    directory holds the encoded conversation under its file name
    afterwards (for a file name without path separator; with one, the file
    is where [filepath.Join] leads), and when not, the error of
    [SaveConversation] is stored in the model.  On failure of the request
    the error is stored in the model and messages, conversation and
    storage directory stay as they were. *)
Theorem api_response_appends_or_keeps (E : main.Env) (w : main.World) (m : main.model)
    (response : string) :
  (exists w' m' cmds,
      main.Update E w m (main.apiResponseMsg response None) = Ok (w', m', main.cmdBatch cmds) /\
      main.messages m' =
        (main.messages m ++
           [{| storage.Role := "assistant"; storage.Content := response;
               storage.Timestamp := main.now w |}])%list /\
      storage.Messages (main.conversation m') = main.messages m' /\
      main.dir w' =
        fst (storage.SaveConversation (main.codec E) (main.dir w) (main.conversation m')) /\
      main.isLoading m' = false /\
      (forall data,
          storage.json_MarshalIndent (main.codec E) (main.conversation m') = inl data ->
          storage.WriteFileErr (main.dir w) = None ->
          strings.Count (storage.fileName (main.codec E) (main.conversation m'))
                        filepath.Separator = 0 ->
          In {| storage.Name := storage.fileName (main.codec E) (main.conversation m');
                storage.Data := inl data |}
             (storage.Files (main.dir w')) /\
          main.err m' = main.err m) /\
      (forall e,
          snd (storage.SaveConversation (main.codec E) (main.dir w) (main.conversation m'))
            = Some e ->
          main.err m' = Some e /\ main.dir w' = main.dir w)) /\
  (forall e,
      exists m',
        main.Update E w m (main.apiResponseMsg response (Some e)) = Ok (w, m', main.cmdNil) /\
        main.err m' = Some e /\
        main.messages m' = main.messages m /\
        main.conversation m' = main.conversation m /\
        main.isLoading m' = false).
Proof.
  split.
  - unfold main.Update, main.updateApiResponse, main.fall.
    fold (afterSpinner E m (main.apiResponseMsg response None)).
    set (m0 := afterSpinner E m _).
    destruct (afterSpinner_fields E m (main.apiResponseMsg response None))
      as (Hm & Hc & _ & _ & _ & He & _).
    fold m0 in Hm, Hc, He.
    match goal with
    | |- context [main.save E w ?x] => set (m1 := x)
    end.
    pose proof (save_fields E w m1) as S. cbv zeta in S.
    destruct (main.save E w m1) as [w' m2] eqn:SV. simpl fst in S; simpl snd in S.
    destruct S as (Sd & _ & Sm & Sc & _ & Sl & _ & Se).
    do 3 eexists. split; [reflexivity|].
    destruct (frame_fields _ _ (sameButViewport_trans _ _ _
                (updateViewport_frame E m2) (onViewport_frame viewport.GotoBottom _)))
      as (Fm & Fc & _ & _ & Fl & Fe & _).
    rewrite Fm, Fc, Fl, Fe, Sm, Sc, Sl, Sd, Se.
    assert (M1 : main.messages m1 =
                 (main.messages m ++
                    [{| storage.Role := "assistant"; storage.Content := response;
                        storage.Timestamp := main.now w |}])%list).
    { subst m1. rewrite <- Hm.
      match goal with
      | |- context [if ?b then _ else _] => destruct b
      end; [unfold main.setSummary; destruct (storage.firstUser _)|]; reflexivity. }
    assert (C1 : storage.Messages (main.conversation m1) = main.messages m1).
    { subst m1.
      match goal with
      | |- context [if ?b then _ else _] => destruct b
      end; [unfold main.setSummary; destruct (storage.firstUser _)|]; reflexivity. }
    assert (L1 : main.isLoading m1 = false).
    { subst m1.
      match goal with
      | |- context [if ?b then _ else _] => destruct b
      end; [unfold main.setSummary; destruct (storage.firstUser _)|]; reflexivity. }
    assert (E1 : main.err m1 = main.err m).
    { subst m1. rewrite <- He.
      match goal with
      | |- context [if ?b then _ else _] => destruct b
      end; [unfold main.setSummary; destruct (storage.firstUser _)|]; reflexivity. }
    split; [exact M1|]. split; [exact C1|]. split; [reflexivity|].
    split; [exact L1|]. split.
    + intros data Hd Hw Hn.
      destruct (SaveConversation_writes _ _ _ _ Hd Hw Hn) as [N I].
      split; [exact I | now rewrite N].
    + intros e Q. rewrite Q. split; [reflexivity|].
      unfold storage.SaveConversation in *. cbv zeta in *.
      destruct (storage.json_MarshalIndent _ _); [|reflexivity].
      destruct (storage.entryOf _ _).
      * destruct (storage.WriteFileErr _); [reflexivity | discriminate].
      * destruct (storage.WriteOutsideErr _ _); reflexivity.
  - intros e. unfold main.Update, main.updateApiResponse, main.ret.
    fold (afterSpinner E m (main.apiResponseMsg response (Some e))).
    destruct (afterSpinner_fields E m (main.apiResponseMsg response (Some e)))
      as (Hm & Hc & _).
    eexists. split; [reflexivity|]. simpl. auto.
Qed.

(* ===================================================================== *)
(** * Committing an edit *)
(* ===================================================================== *)

Lemma setSummary_fields (m : main.model) :
  main.messages (main.setSummary m) = main.messages m /\
  storage.Messages (main.conversation (main.setSummary m)) =
    storage.Messages (main.conversation m) /\
  main.mode (main.setSummary m) = main.mode m /\
  main.isLoading (main.setSummary m) = main.isLoading m /\
  main.viewport (main.setSummary m) = main.viewport m.
Proof.
  unfold main.setSummary. destruct (storage.firstUser _); repeat split.
Qed.

(** C3. Committing an edit with text [e] at an index [i] in
    [[1, len(messages)-1]] that holds a user message gives a history of
    exactly [i+1] messages: the messages before [i] as they were, then the
    message [i] with content [e]; the conversation holds the same history,
    and the completion request the step returns carries it. *)
Theorem edit_commit_truncates (E : main.Env) (w : main.World) (m : main.model)
    (i : Z) (e : string) (old : storage.Message) :
  (1 <= i <= len (main.messages m) - 1)%Z ->
  index (main.messages m) i = Ok old ->
  storage.Role old = "user" ->
  exists w' m',
    main.Update E w m (main.editMessageMsg i e None)
      = Ok (w', m', main.cmdCreateMessage (main.claudeMsgs (main.messages m'))) /\
    len (main.messages m') = (i + 1)%Z /\
    index (main.messages m') i = Ok (main.set_msg_Content old e) /\
    storage.Content (main.set_msg_Content old e) = e /\
    storage.Role (main.set_msg_Content old e) = "user" /\
    firstn (Z.to_nat i) (main.messages m') = firstn (Z.to_nat i) (main.messages m) /\
    storage.Messages (main.conversation m') = main.messages m' /\
    main.mode m' = main.ModeNormal /\
    main.isLoading m' = true.
Proof.
  intros R I U.
  unfold main.Update, main.updateEditMessage, main.request, main.retCmd.
  fold (afterSpinner E m (main.editMessageMsg i e None)).
  set (m0 := afterSpinner E m _).
  destruct (afterSpinner_fields E m (main.editMessageMsg i e None)) as (Hm & _).
  fold m0 in Hm. rewrite Hm, I. cbn [bind].
  match goal with
  | |- context [main.save E w ?x] => set (m1 := x)
  end.
  pose proof (save_fields E w m1) as S. cbv zeta in S.
  destruct (main.save E w m1) as [w' m2] eqn:SV. simpl fst in S; simpl snd in S.
  destruct S as (_ & _ & Sm & Sc & _ & _ & _).
  set (msgs := slice_to (assign (main.messages m) (Z.to_nat i) (main.set_msg_Content old e))
                        (i + 1)).
  assert (M1 : main.messages m1 = msgs /\
               storage.Messages (main.conversation m1) = msgs).
  { subst m1. destruct (setSummary_fields
      (main.onViewport viewport.GotoBottom
         (main.updateViewport E
            (main.set_conversation
               (main.set_messages
                  (main.set_messages m0
                     (assign (main.messages m) (Z.to_nat i) (main.set_msg_Content old e)))
                  msgs)
               (main.set_conv_Messages (main.conversation m0) msgs)))))
      as (A & B & _).
    split.
    - etransitivity; [exact A|].
      match goal with
      | |- main.messages (main.onViewport _ (main.updateViewport E ?x)) = _ =>
          destruct (frame_fields _ _ (sameButViewport_trans _ _ _
                      (updateViewport_frame E x)
                      (onViewport_frame viewport.GotoBottom _))) as (F & _)
      end.
      exact F.
    - etransitivity; [exact B|].
      match goal with
      | |- storage.Messages (main.conversation
             (main.onViewport _ (main.updateViewport E ?x))) = _ =>
          destruct (frame_fields _ _ (sameButViewport_trans _ _ _
                      (updateViewport_frame E x)
                      (onViewport_frame viewport.GotoBottom _))) as (_ & F & _)
      end.
      now rewrite F. }
  destruct M1 as [M1 C1].
  apply index_Ok in I as [Pos N].
  assert (Lt : Z.to_nat i < List.length (main.messages m)).
  { apply nth_error_Some. congruence. }
  do 2 eexists. split; [reflexivity|].
  cbn [main.messages main.conversation main.mode main.isLoading
       main.set_isLoading main.set_mode].
  rewrite Sm, Sc, M1, C1.
  repeat split.
  - subst msgs. unfold len, slice_to. rewrite length_firstn, assign_length. lia.
  - apply index_Ok. split; [lia|].
    subst msgs. unfold slice_to.
    rewrite nth_error_firstn.
    replace (Nat.ltb (Z.to_nat i) (Z.to_nat (i + 1))) with true
      by (symmetry; apply Nat.ltb_lt; lia).
    now apply assign_nth.
  - exact U.
  - subst msgs. unfold slice_to.
    replace (Z.to_nat (i + 1)) with (Z.to_nat i + 1) by lia.
    rewrite firstn_firstn. replace (Init.Nat.min (Z.to_nat i) (Z.to_nat i + 1)) with (Z.to_nat i) by lia.
    apply assign_firstn.
Qed.

(* ===================================================================== *)
(** * Entering command selection *)
(* ===================================================================== *)

(** Case analysis along the control flow of [Update]: the hypothesis [H]
    says what a call returned; each step looks at the head of the call.  A
    [let] becomes a local definition, so later steps share it. *)
Ltac walk_step H :=
  lazymatch type of H with
  | Ok _ = _ => fail
  | Panic _ = Ok _ => discriminate H
  | (let x := ?v in @?f x) = ?r =>
      lazymatch v with
      | (fun _ => _) => change (f v = r) in H; cbv beta in H
      | _ => let y := fresh "v" in pose (y := v); change (f y = r) in H; cbv beta in H
      end
  | bind ?r _ = _ =>
      let R := fresh "R" in destruct r eqn:R; cbn [bind] in H
  | (if ?b then _ else _) = _ =>
      let B := fresh "B" in destruct b eqn:B
  | (match ?x with _ => _ end) = _ =>
      let X := fresh "X" in destruct x eqn:X
  end.

Ltac walk H := repeat walk_step H.

Ltac unfold_update H :=
  unfold main.Update, main.updateMouse, main.updateKey, main.updateApiResponse,
    main.updateEditMessage, main.updateCommandOutput, main.updateNormal,
    main.updateEditing, main.updateHistory, main.updateCommandSelect,
    main.selectConv, main.enterEditing, main.request, main.copyToClipboard,
    main.runSelected, main.executeCommand, main.ret, main.retCmd, main.fall in H.

Lemma handleCommandExecution_cmd (m : main.model) (r : main.model * main.Cmd) :
  main.handleCommandExecution m = Ok r -> snd r = main.cmdNil.
Proof.
  unfold main.handleCommandExecution. intros H. walk H; now inversion H.
Qed.

Lemma editMessageCmd_cmd (w : main.World) (content : string) (i : Z) :
  (exists e, snd (main.editMessageCmd w content i)
             = main.cmdReturn (main.editMessageMsg i "" (Some e))) \/
  (exists editor name, snd (main.editMessageCmd w content i)
                       = main.cmdExecEditor editor name i).
Proof.
  unfold main.editMessageCmd.
  destruct (main.CreateTemp w) as [name|e]; [|left; now exists e].
  cbn [main.WriteStringErr main.set_tmpFiles].
  destruct (main.WriteStringErr w) as [e|]; [left; now exists e|].
  right. do 2 eexists. reflexivity.
Qed.

Lemma index_In {A : Type} (l : list A) (i : Z) (a : A) : index l i = Ok a -> In a l.
Proof. intros H. apply index_Ok in H as [_ N]. eapply nth_error_In; eauto. Qed.

(** A shell command leaves [Update] only from the selection list, on
    Enter or on a typed number, and it is one of the listed commands. *)
Lemma execute_only_from_selection (E : main.Env) (w w' : main.World)
    (m m' : main.model) (msg : main.Msg) (c : string) :
  main.Update E w m msg = Ok (w', m', main.cmdExecuteCommand c) ->
  main.mode m = main.ModeCommandSelect /\
  exists k mt,
    msg = main.KeyMsg k /\
    (tea.Type_ k = tea.KeyEnter \/ tea.Type_ k = tea.KeyRunes) /\
    In mt (main.commands m) /\ index mt 1 = Ok c.
Proof.
  intros H. unfold main.Update in H.
  fold (afterSpinner E m msg) in H.
  destruct (afterSpinner_fields E m msg) as (_ & _ & Hmode & _ & _ & _ & Hcmds & _).
  set (m0 := afterSpinner E m msg) in *. clearbody m0.
  destruct msg as [W Hh|t|k|resp e|i ed e|out e|off|tag]; unfold_update H; walk H;
    try (inversion H; fail).
  all: try match goal with
       | R : main.handleCommandExecution _ = Ok _ |- _ =>
           apply handleCommandExecution_cmd in R; inversion H; congruence
       end.
  all: try match goal with
       | X : main.editMessageCmd ?w ?c ?i = _ |- _ =>
           destruct (editMessageCmd_cmd w c i) as [[? Q]|[? [? Q]]];
           rewrite X in Q; simpl in Q; inversion H; congruence
       end.
  all: inversion H; subst; split; [congruence|];
    exists k; eexists; (split; [reflexivity|]);
    (split; [auto|]); rewrite <- Hcmds; split; eauto using index_In.
Qed.

Lemma lastAssistant_none (msgs : list storage.Message) :
  (forall msg, In msg msgs -> storage.Role msg <> "assistant") ->
  main.lastAssistant msgs = "".
Proof.
  intros H. unfold main.lastAssistant.
  destruct (find _ (rev msgs)) as [msg|] eqn:F; [|reflexivity].
  apply find_some in F as [I R]. apply in_rev in I.
  apply String.eqb_eq in R. now apply H in I.
Qed.

(** The two execute actions are calls of [handleCommandExecution]: Ctrl+X
    in every mode, and [x] in [ModeEditing] on an assistant message. *)
Lemma execute_keys_dispatch (E : main.Env) (w : main.World) (m : main.model) :
  main.Update E w m (key tea.KeyCtrlX) =
    (r <- main.handleCommandExecution (afterSpinner E m (key tea.KeyCtrlX)) ;;
     Ok (w, fst r, snd r)) /\
  (main.mode m = main.ModeEditing ->
   forall msg,
     index (main.messages m) (main.cursorIndex m) = Ok msg ->
     storage.Role msg = "assistant" ->
     main.Update E w m (rune "x") =
       (r <- main.handleCommandExecution (afterSpinner E m (rune "x")) ;;
        Ok (w, fst r, snd r))).
Proof.
  split; [reflexivity|].
  intros Mo msg I R. unfold main.Update.
  fold (afterSpinner E m (rune "x")).
  pose proof (afterSpinner_spinner_only E m (rune "x")) as A.
  set (m0 := afterSpinner E m (rune "x")) in *.
  assert (Hmode : main.mode m0 = main.ModeEditing) by (now rewrite A).
  assert (Hms : main.messages m0 = main.messages m) by (now rewrite A).
  assert (Hc : main.cursorIndex m0 = main.cursorIndex m) by (now rewrite A).
  clear A. clearbody m0.
  unfold rune, main.updateKey, main.updateEditing, main.retCmd.
  cbn [tea.String_ tea.Type_ tea.Alt tea.Runes String.eqb Ascii.eqb Bool.eqb
       append orb].
  rewrite Hmode, Hms, Hc, I. cbn [bind]. now rewrite R.
Qed.

(** C1. When the message an execute action targets holds at least one
    command, the engine enters [ModeCommandSelect] with the extracted list
    and selection 0 and returns no command to run, also for a single
    command; when it holds none, or there is no assistant message, the
    model is returned unchanged.  A shell command is only ever returned by
    a later key event in [ModeCommandSelect] (Enter or a typed number), and
    it is one of the listed commands. *)
Theorem execute_requires_selection (E : main.Env) (m : main.model) (text : string) :
  main.targetMsg m = Ok text ->
  (main.extract text <> [] ->
   exists matches,
     main.handleCommandExecution m =
       Ok (main.set_selectedCommand
             (main.set_commands (main.set_mode m main.ModeCommandSelect) matches) 0,
           main.cmdNil) /\
     map main.sub1 matches = main.extract text) /\
  (main.extract text = [] -> main.handleCommandExecution m = Ok (m, main.cmdNil)) /\
  (main.mode m <> main.ModeEditing ->
   (forall msg, In msg (main.messages m) -> storage.Role msg <> "assistant") ->
   main.handleCommandExecution m = Ok (m, main.cmdNil)) /\
  (forall w w' m1 m' msg c,
     main.Update E w m1 msg = Ok (w', m', main.cmdExecuteCommand c) ->
     main.mode m1 = main.ModeCommandSelect /\
     exists k mt,
       msg = main.KeyMsg k /\
       (tea.Type_ k = tea.KeyEnter \/ tea.Type_ k = tea.KeyRunes) /\
       In mt (main.commands m1) /\ index mt 1 = Ok c).
Proof.
  intros T. unfold main.handleCommandExecution. rewrite T. cbn [bind].
  assert (X0 : main.extract "" = []) by reflexivity.
  repeat split.
  - intros NE. destruct (String.eqb_spec text "") as [->|_]; [contradiction|].
    destruct (Z.eqb_spec (len (regexp.FindAllStringSubmatch text)) 0) as [Z0|_].
    + exfalso. apply NE. unfold main.extract.
      destruct (regexp.FindAllStringSubmatch text); [reflexivity|].
      unfold len in Z0. simpl in Z0. lia.
    + eexists. split; reflexivity.
  - intros EM. destruct (String.eqb_spec text "") as [->|_]; [reflexivity|].
    destruct (Z.eqb_spec (len (regexp.FindAllStringSubmatch text)) 0) as [_|Z0];
      [reflexivity|].
    exfalso. apply Z0. unfold main.extract in EM.
    destruct (regexp.FindAllStringSubmatch text); [reflexivity | discriminate].
  - intros NEd NA. unfold main.targetMsg in T.
    destruct (main.Mode_eqb (main.mode m) main.ModeEditing) eqn:ME.
    + destruct (main.mode m); try discriminate. contradiction.
    + injection T as <-. now rewrite (lastAssistant_none _ NA).
  - eapply execute_only_from_selection; eassumption.
  - eapply execute_only_from_selection; eassumption.
Qed.

(** The first scenario: the reply holds one command, the engine shows the
    list of one. *)
Lemma execute_requires_selection_lsModel :
  (main.extract lsReply <> [] ->
   exists matches,
     main.handleCommandExecution lsModel =
       Ok (main.set_selectedCommand
             (main.set_commands (main.set_mode lsModel main.ModeCommandSelect) matches) 0,
           main.cmdNil) /\
     map main.sub1 matches = main.extract lsReply) /\
  main.extract lsReply = ["ls -la"].
Proof.
  split; [|reflexivity].
  apply (execute_requires_selection demoEnv lsModel lsReply). reflexivity.
Defined.

(* ===================================================================== *)
(** * Completion requests and the loading flag *)
(* ===================================================================== *)

Lemma isLoading_updateViewport (E : main.Env) (m : main.model) :
  main.isLoading (main.updateViewport E m) = main.isLoading m.
Proof. now rewrite (updateViewport_frame E m). Qed.

Lemma isLoading_setSummary (m : main.model) :
  main.isLoading (main.setSummary m) = main.isLoading m.
Proof. apply setSummary_fields. Qed.

Lemma isLoading_save (E : main.Env) (w w' : main.World) (m m' : main.model) :
  main.save E w m = (w', m') -> main.isLoading m' = main.isLoading m.
Proof.
  intros H. pose proof (save_fields E w m) as S. cbv zeta in S.
  rewrite H in S. apply S.
Qed.

Lemma isLoading_handleCommandExecution (m : main.model) (r : main.model * main.Cmd) :
  main.handleCommandExecution m = Ok r -> main.isLoading (fst r) = main.isLoading m.
Proof.
  unfold main.handleCommandExecution. intros H. walk H; now inversion H.
Qed.

(** The loading flag of a model built from local definitions. *)
Ltac loading_flag :=
  repeat first
    [ progress cbn [main.isLoading main.set_textInput main.set_viewport main.set_err
                    main.set_conversation main.set_mode main.set_messages
                    main.set_cursorIndex main.set_conversations main.set_selectedConv
                    main.set_spinner main.set_isLoading main.set_height main.set_width
                    main.set_commands main.set_selectedCommand main.set_ready
                    main.set_lastLoadedConv main.onViewport
                    main.ensureMessageVisible main.ensureConversationVisible]
    | rewrite isLoading_updateViewport
    | rewrite isLoading_setSummary
    | match goal with
      | X : main.save _ _ _ = (_, ?m1) |- context [main.isLoading ?m1] =>
          rewrite (isLoading_save _ _ _ _ _ X)
      | R : main.handleCommandExecution _ = Ok ?r |- context [main.isLoading (fst ?r)] =>
          rewrite (isLoading_handleCommandExecution _ _ R)
      | |- context [if ?b then _ else _] => destruct b
      end ].

(** A step that returns a completion request is Enter in [ModeNormal] with
    text in the input line, or an edit commit; it leaves the flag set and
    sends the history it leaves. *)
Lemma request_only_from_send_or_edit (E : main.Env) (w w' : main.World)
    (m m' : main.model) (msg : main.Msg) (msgs : list claude.Message) :
  main.Update E w m msg = Ok (w', m', main.cmdCreateMessage msgs) ->
  main.isLoading m' = true /\
  msgs = main.claudeMsgs (main.messages m') /\
  ((exists k, msg = main.KeyMsg k /\ tea.Type_ k = tea.KeyEnter /\
              main.mode m = main.ModeNormal /\
              textinput.Value (main.textInput m) <> "") \/
   (exists i edited, msg = main.editMessageMsg i edited None)).
Proof.
  intros H. unfold main.Update in H.
  fold (afterSpinner E m msg) in H.
  pose proof (afterSpinner_spinner_only E m msg) as A.
  set (m0 := afterSpinner E m msg) in *.
  assert (Hmode : main.mode m0 = main.mode m) by (now rewrite A).
  assert (Hti : main.textInput m0 = main.textInput m) by (now rewrite A).
  clear A. clearbody m0.
  destruct msg as [W Hh|t|k|resp e|i ed e|out e|off|tag]; unfold_update H; walk H;
    try (inversion H; fail).
  all: try match goal with
       | R : main.handleCommandExecution _ = Ok _ |- _ =>
           apply handleCommandExecution_cmd in R; inversion H; congruence
       end.
  all: try match goal with
       | X : main.editMessageCmd ?w ?c ?i = _ |- _ =>
           destruct (editMessageCmd_cmd w c i) as [[? Q]|[? [? Q]]];
           rewrite X in Q; simpl in Q; inversion H; congruence
       end.
  all: inversion H; subst; (split; [reflexivity|]); (split; [reflexivity|]).
  - left. exists k. repeat split; try congruence.
    rewrite <- Hti. intros V. rewrite V in *. discriminate.
  - right. eauto.
Qed.

(** Only a completion result clears the loading flag. *)
Lemma loading_cleared_only_by_response (E : main.Env) (w w' : main.World)
    (m m' : main.model) (msg : main.Msg) (c : main.Cmd) :
  main.Update E w m msg = Ok (w', m', c) ->
  main.isLoading m = true -> main.isLoading m' = false ->
  exists response e, msg = main.apiResponseMsg response e.
Proof.
  intros H L L'. unfold main.Update in H.
  fold (afterSpinner E m msg) in H.
  pose proof (afterSpinner_spinner_only E m msg) as A.
  set (m0 := afterSpinner E m msg) in *.
  assert (L0 : main.isLoading m0 = true) by (now rewrite A).
  clear A L. clearbody m0.
  destruct msg as [W Hh|t|k|resp e|i ed e|out e|off|tag];
    [| | | eauto | | | |]; exfalso;
    unfold_update H; walk H; inversion H; subst; clear H;
    revert L'; loading_flag; congruence.
Qed.

Lemma enter_is_no_global_key (k : tea.Key) :
  tea.Type_ k = tea.KeyEnter ->
  tea.String_ k = "enter" \/ tea.String_ k = "alt+enter".
Proof.
  intros T. unfold tea.String_. rewrite T. destruct (tea.Alt k); auto.
Qed.

(** Sending does not look at the loading flag. *)
Lemma send_ignores_loading (E : main.Env) (w : main.World) (m : main.model) (k : tea.Key) :
  tea.Type_ k = tea.KeyEnter ->
  main.mode m = main.ModeNormal ->
  textinput.Value (main.textInput m) <> "" ->
  exists m',
    main.Update E w m (main.KeyMsg k) =
      Ok (w, m',
          main.cmdCreateMessage
            (main.claudeMsgs
               (main.messages m ++
                  [{| storage.Role := "user";
                      storage.Content := textinput.Value (main.textInput m);
                      storage.Timestamp := main.now w |}])%list)) /\
    main.isLoading m' = true.
Proof.
  intros T N V. unfold main.Update.
  fold (afterSpinner E m (main.KeyMsg k)).
  pose proof (afterSpinner_spinner_only E m (main.KeyMsg k)) as A.
  set (m0 := afterSpinner E m (main.KeyMsg k)) in *.
  assert (Hmode : main.mode m0 = main.ModeNormal) by (now rewrite A).
  assert (Hti : main.textInput m0 = main.textInput m) by (now rewrite A).
  assert (Hms : main.messages m0 = main.messages m) by (now rewrite A).
  clear A. clearbody m0.
  unfold main.updateKey, main.updateNormal.
  destruct (enter_is_no_global_key k T) as [S|S]; rewrite S; cbn [String.eqb Ascii.eqb Bool.eqb orb];
    rewrite Hmode, T, Hti;
    (destruct (String.eqb_spec (textinput.Value (main.textInput m)) "") as [|_];
       [contradiction|]);
    cbn [negb]; unfold main.request, main.retCmd; eexists;
    (split;
     [ cbn [main.messages main.set_textInput main.set_isLoading main.onViewport
            main.set_viewport];
       rewrite (proj1 (frame_fields _ _ (updateViewport_frame E _)));
       cbn [main.messages main.set_conversation main.set_messages]; rewrite Hms;
       reflexivity
     | reflexivity ]).
Qed.

(** An edit commit does not look at the loading flag either. *)
Lemma edit_ignores_loading (E : main.Env) (w : main.World) (m : main.model)
    (i : Z) (edited : string) :
  (0 <= i < len (main.messages m))%Z ->
  exists w' m' msgs,
    main.Update E w m (main.editMessageMsg i edited None) =
      Ok (w', m', main.cmdCreateMessage msgs) /\
    main.isLoading m' = true.
Proof.
  intros R. destruct (index_in_range _ _ R) as [old I].
  unfold main.Update, main.updateEditMessage, main.request, main.retCmd.
  fold (afterSpinner E m (main.editMessageMsg i edited None)).
  pose proof (afterSpinner_spinner_only E m (main.editMessageMsg i edited None)) as A.
  set (m0 := afterSpinner E m _) in *.
  assert (Hms : main.messages m0 = main.messages m) by (now rewrite A).
  clear A. clearbody m0. rewrite Hms, I. cbn [bind].
  match goal with
  | |- context [main.save E w ?x] => destruct (main.save E w x) as [w' m2]
  end.
  do 3 eexists. split; reflexivity.
Qed.

(** C2, as the code has it.  A completion request is issued by Enter in
    [ModeNormal] with text in the input line and by a successful edit
    commit, and by nothing else; both issue it whether or not a request is
    outstanding; every step that issues one leaves [isLoading] true, and
    [isLoading] becomes false only when a completion result is consumed. *)
Theorem requests_ignore_loading (E : main.Env) :
  (forall w m k,
     tea.Type_ k = tea.KeyEnter ->
     main.mode m = main.ModeNormal ->
     textinput.Value (main.textInput m) <> "" ->
     exists m' msgs,
       main.Update E w m (main.KeyMsg k) = Ok (w, m', main.cmdCreateMessage msgs) /\
       main.isLoading m' = true) /\
  (forall w m i edited,
     (0 <= i < len (main.messages m))%Z ->
     exists w' m' msgs,
       main.Update E w m (main.editMessageMsg i edited None) =
         Ok (w', m', main.cmdCreateMessage msgs) /\
       main.isLoading m' = true) /\
  (forall w w' m m' msg msgs,
     main.Update E w m msg = Ok (w', m', main.cmdCreateMessage msgs) ->
     main.isLoading m' = true /\
     msgs = main.claudeMsgs (main.messages m') /\
     ((exists k, msg = main.KeyMsg k /\ tea.Type_ k = tea.KeyEnter /\
                 main.mode m = main.ModeNormal /\
                 textinput.Value (main.textInput m) <> "") \/
      (exists i edited, msg = main.editMessageMsg i edited None))) /\
  (forall w w' m m' msg c,
     main.Update E w m msg = Ok (w', m', c) ->
     main.isLoading m = true -> main.isLoading m' = false ->
     exists response e, msg = main.apiResponseMsg response e).
Proof.
  repeat split.
  - intros w m k T N V.
    destruct (send_ignores_loading E w m k T N V) as [m' [U L]]. eauto.
  - intros w m i edited R. now apply edit_ignores_loading.
  - eapply request_only_from_send_or_edit; eassumption.
  - eapply request_only_from_send_or_edit; eassumption.
  - eapply request_only_from_send_or_edit; eassumption.
  - intros w w' m m' msg c. apply loading_cleared_only_by_response.
Qed.

(** With a request outstanding and text in the input line, Enter sends
    again. *)
Lemma requests_ignore_loading_loadingModel :
  main.isLoading loadingModel = true /\
  exists m' msgs,
    main.Update demoEnv demoWorld loadingModel (key tea.KeyEnter)
      = Ok (demoWorld, m', main.cmdCreateMessage msgs) /\
    main.isLoading m' = true.
Proof.
  split; [reflexivity|].
  apply (proj1 (requests_ignore_loading demoEnv) demoWorld loadingModel);
    [reflexivity | reflexivity | discriminate].
Defined.

(** C2 as stated fails: a step taken while [isLoading] is true issues a new
    completion request. *)
Lemma request_issued_while_loading :
  ~ (forall (E : main.Env) (w w' : main.World) (m m' : main.model) (msg : main.Msg)
            (msgs : list claude.Message),
        main.isLoading m = true ->
        main.Update E w m msg <> Ok (w', m', main.cmdCreateMessage msgs)).
Proof.
  intros H.
  destruct (send_ignores_loading demoEnv demoWorld loadingModel
              {| tea.Type_ := tea.KeyEnter; tea.Runes := ""; tea.Alt := false |})
    as [m' [U _]]; [reflexivity | reflexivity | discriminate |].
  exact (H demoEnv demoWorld demoWorld loadingModel m' _ _ eq_refl U).
Qed.

(* ===================================================================== *)
(** * The scroll offset *)
(* ===================================================================== *)

(** Case analysis on every integer comparison of the goal and of the
    hypotheses. *)
Ltac cases_Z :=
  repeat match goal with
         | |- context [(?a <? ?b)%Z] => destruct (Z.ltb_spec a b)
         | |- context [(?a <=? ?b)%Z] => destruct (Z.leb_spec a b)
         | H : context [(?a <? ?b)%Z] |- _ => destruct (Z.ltb_spec a b)
         | H : context [(?a <=? ?b)%Z] |- _ => destruct (Z.leb_spec a b)
         end.

Lemma scrollBy_range (vp : viewport.Model) (delta : Z) :
  offsetInRange (viewport.scrollBy vp delta).
Proof.
  unfold offsetInRange, viewport.scrollBy, viewport.clamp, viewport.maxYOffset,
    viewport.TotalLineCount. simpl. lia.
Qed.

Lemma GotoTop_range (vp : viewport.Model) : offsetInRange (viewport.GotoTop vp).
Proof. unfold offsetInRange, viewport.GotoTop. simpl. lia. Qed.

Lemma GotoBottom_range (vp : viewport.Model) : offsetInRange (viewport.GotoBottom vp).
Proof.
  unfold offsetInRange, viewport.GotoBottom, viewport.maxYOffset,
    viewport.TotalLineCount. simpl. lia.
Qed.

Lemma range_footer (vp : viewport.Model) : offsetInRange vp -> offsetInFooterRange vp.
Proof. unfold offsetInRange, offsetInFooterRange. lia. Qed.

(** A movement either leaves the viewport as it is or clamps. *)
Lemma LineUp_cases (vp : viewport.Model) (n : Z) :
  viewport.LineUp vp n = vp \/ viewport.LineUp vp n = viewport.scrollBy vp (- n).
Proof. unfold viewport.LineUp. destruct (_ || _)%bool; auto. Qed.

Lemma LineDown_cases (vp : viewport.Model) (n : Z) :
  viewport.LineDown vp n = vp \/ viewport.LineDown vp n = viewport.scrollBy vp n.
Proof. unfold viewport.LineDown. destruct (_ || _)%bool; auto. Qed.

Lemma HalfViewUp_cases (vp : viewport.Model) :
  viewport.HalfViewUp vp = vp \/
  viewport.HalfViewUp vp = viewport.scrollBy vp (- Z.quot (viewport.Height vp) 2).
Proof.
  unfold viewport.HalfViewUp. destruct (viewport.AtTop vp); [auto|].
  apply LineUp_cases.
Qed.

Lemma HalfViewDown_cases (vp : viewport.Model) :
  viewport.HalfViewDown vp = vp \/
  viewport.HalfViewDown vp = viewport.scrollBy vp (Z.quot (viewport.Height vp) 2).
Proof.
  unfold viewport.HalfViewDown. destruct (viewport.AtBottom vp); [auto|].
  apply LineDown_cases.
Qed.

Lemma LineUp_footer (vp : viewport.Model) (n : Z) :
  offsetInFooterRange vp -> offsetInFooterRange (viewport.LineUp vp n).
Proof.
  intros H. destruct (LineUp_cases vp n) as [-> | ->];
    [exact H | apply range_footer, scrollBy_range].
Qed.

Lemma LineDown_footer (vp : viewport.Model) (n : Z) :
  offsetInFooterRange vp -> offsetInFooterRange (viewport.LineDown vp n).
Proof.
  intros H. destruct (LineDown_cases vp n) as [-> | ->];
    [exact H | apply range_footer, scrollBy_range].
Qed.

Lemma HalfViewUp_footer (vp : viewport.Model) :
  offsetInFooterRange vp -> offsetInFooterRange (viewport.HalfViewUp vp).
Proof.
  intros H. destruct (HalfViewUp_cases vp) as [-> | ->];
    [exact H | apply range_footer, scrollBy_range].
Qed.

Lemma HalfViewDown_footer (vp : viewport.Model) :
  offsetInFooterRange vp -> offsetInFooterRange (viewport.HalfViewDown vp).
Proof.
  intros H. destruct (HalfViewDown_cases vp) as [-> | ->];
    [exact H | apply range_footer, scrollBy_range].
Qed.

Lemma LineDown_iter_range (n : nat) (vp : viewport.Model) :
  offsetInRange vp ->
  offsetInRange (Nat.iter n (fun vp => viewport.LineDown vp 1) vp).
Proof.
  intros H. induction n as [|n IH]; simpl; [exact H|].
  destruct (LineDown_cases (Nat.iter n (fun vp => viewport.LineDown vp 1) vp) 1)
    as [-> | ->]; [exact IH | apply scrollBy_range].
Qed.

Lemma ensureMessageVisible_range (E : main.Env) (m : main.model) (i : Z) :
  offsetInRange (main.viewport (main.ensureMessageVisible E m i)).
Proof.
  unfold main.ensureMessageVisible. cbv zeta. cbn [main.viewport main.set_viewport].
  apply LineDown_iter_range, GotoTop_range.
Qed.

Lemma ensureConversationVisible_range (E : main.Env) (m : main.model) (i : Z) :
  offsetInFooterRange (main.viewport (main.ensureConversationVisible E m i)).
Proof.
  unfold main.ensureConversationVisible. cbv zeta.
  cbn [main.viewport main.set_viewport].
  unfold offsetInFooterRange, viewport.TotalLineCount, viewport.SetContent.
  cbn [viewport.YOffset viewport.Height viewport.lines viewport.set_YOffset
       viewport.set_lines].
  cases_Z; lia.
Qed.

Lemma updateViewport_range (E : main.Env) (m : main.model) :
  (0 <= viewport.YOffset (main.viewport m))%Z ->
  offsetInRange (main.viewport (main.updateViewport E m)).
Proof.
  intros P. unfold main.updateViewport. cbv zeta.
  destruct (main.Mode_eqb (main.mode m) main.ModeHelp).
  - cbn [main.viewport main.set_viewport]. apply GotoTop_range.
  - set (vp := viewport.SetContent _ _).
    unfold offsetInRange.
    cases_Z; unfold viewport.TotalLineCount in *;
      cbn [andb main.viewport main.set_viewport viewport.YOffset viewport.Height
           viewport.set_YOffset viewport.lines];
      lia.
Qed.

Lemma applyOp_footer (E : main.Env) (m : main.model) (op : ScrollOp) :
  offsetInFooterRange (main.viewport m) ->
  offsetInFooterRange (main.viewport (applyOp E m op)).
Proof.
  intros H. destruct op; cbn [applyOp main.onViewport main.viewport main.set_viewport].
  - now apply LineUp_footer.
  - now apply LineDown_footer.
  - now apply HalfViewUp_footer.
  - now apply HalfViewDown_footer.
  - apply range_footer, GotoTop_range.
  - apply range_footer, GotoBottom_range.
  - apply range_footer, ensureMessageVisible_range.
  - apply ensureConversationVisible_range.
  - apply range_footer, updateViewport_range. apply H.
  - exact H.
Qed.

Lemma applyOp_tight (E : main.Env) (m : main.model) (op : ScrollOp) :
  offsetInFooterRange (main.viewport m) ->
  tightOp op = true ->
  offsetInRange (main.viewport (applyOp E m op)).
Proof.
  intros H T. destruct op; try discriminate;
    cbn [applyOp main.onViewport main.viewport main.set_viewport];
    first [ apply GotoTop_range | apply GotoBottom_range
          | apply ensureMessageVisible_range
          | apply updateViewport_range; apply H ].
Qed.

(** C4, as the code has it.  After any sequence of scroll operations,
    ensure-visible operations and content regenerations the offset lies in
    [[0, max(0, totalLines - viewportHeight + 1)]], for every viewport
    height; right after a jump to the top or to the bottom,
    [ensureMessageVisible] or a content regeneration it lies in
    [[0, max(0, totalLines - viewportHeight)]]. *)
Theorem offset_stays_in_footer_range (E : main.Env) (m : main.model)
    (ops : list ScrollOp) :
  offsetInFooterRange (main.viewport m) ->
  offsetInFooterRange (main.viewport (runOps E m ops)) /\
  (forall op, tightOp op = true ->
              offsetInRange (main.viewport (applyOp E (runOps E m ops) op))).
Proof.
  revert m. induction ops as [|op ops IH]; intros m H.
  - split; [exact H|]. intros op T. now apply applyOp_tight.
  - apply (IH (applyOp E m op)). now apply applyOp_footer.
Qed.

(** The history list of ten conversations in a terminal of 14 rows,
    regenerated, then moved to its last entry. *)
Lemma offset_stays_in_footer_range_historyModel :
  offsetInFooterRange
    (main.viewport
       (runOps demoEnv historyModel [opUpdateViewport; opEnsureConversationVisible 9])).
Proof.
  apply (offset_stays_in_footer_range demoEnv historyModel
           [opUpdateViewport; opEnsureConversationVisible 9]).
  unfold offsetInFooterRange. simpl. lia.
Defined.

Lemma historyModel_last_entry :
  let vp := main.viewport
              (runOps demoEnv historyModel
                 [opUpdateViewport; opEnsureConversationVisible 9]) in
  viewport.YOffset vp = 8%Z /\ viewport.TotalLineCount vp = 14%Z /\
  viewport.Height vp = 7%Z.
Proof. vm_compute. repeat split. Qed.

(** There a movement down changes nothing: the offset stays at 8, past
    the bottom. *)
Lemma past_bottom_stays :
  viewport.YOffset
    (main.viewport
       (runOps demoEnv historyModel
          [opUpdateViewport; opEnsureConversationVisible 9; opLineDown 3])) = 8%Z.
Proof. vm_compute. reflexivity. Qed.

(** A viewport that is not yet sized is moved by nothing. *)
Lemma unsized_viewport_stays (n : Z) :
  viewport.LineUp viewport.New n = viewport.New /\
  viewport.LineDown viewport.New n = viewport.New /\
  viewport.HalfViewUp viewport.New = viewport.New /\
  viewport.HalfViewDown viewport.New = viewport.New /\
  viewport.GotoTop viewport.New = viewport.New /\
  viewport.GotoBottom viewport.New = viewport.New.
Proof. repeat split. Qed.

(** C4 as stated fails: selecting the last of ten conversations in a
    7-line viewport puts the offset at 8, one past [14 - 7]. *)
Lemma offset_leaves_range :
  ~ (forall (E : main.Env) (m : main.model) (ops : list ScrollOp),
        offsetInRange (main.viewport m) ->
        (0 <= viewport.Height (main.viewport (runOps E m ops)))%Z ->
        offsetInRange (main.viewport (runOps E m ops))).
Proof.
  intros H.
  specialize (H demoEnv historyModel [opUpdateViewport; opEnsureConversationVisible 9]).
  destruct historyModel_last_entry as (Y & T & Hh).
  unfold offsetInRange in H. rewrite Y, T, Hh in H.
  assert (0 <= 8 <= Z.max 0 (14 - 7))%Z; [|lia].
  apply H; [vm_compute; split; discriminate | lia].
Qed.

(* ===================================================================== *)
(** * The scroll offset along [Update] *)
(* ===================================================================== *)

Lemma viewport_save (E : main.Env) (w w' : main.World) (m m' : main.model) :
  main.save E w m = (w', m') -> main.viewport m' = main.viewport m.
Proof.
  intros H. pose proof (save_fields E w m) as S. cbv zeta in S.
  rewrite H in S. apply S.
Qed.

Lemma viewport_setSummary (m : main.model) :
  main.viewport (main.setSummary m) = main.viewport m.
Proof. apply setSummary_fields. Qed.

Lemma viewport_handleCommandExecution (m : main.model) (r : main.model * main.Cmd) :
  main.handleCommandExecution m = Ok r -> main.viewport (fst r) = main.viewport m.
Proof.
  unfold main.handleCommandExecution. intros H. walk H; now inversion H.
Qed.

(** The viewport of a model built from local definitions, and its range. *)
Ltac viewport_range :=
  repeat first
    [ progress cbn [main.viewport main.set_textInput main.set_viewport main.set_err
                    main.set_conversation main.set_mode main.set_messages
                    main.set_cursorIndex main.set_conversations main.set_selectedConv
                    main.set_spinner main.set_isLoading main.set_height main.set_width
                    main.set_commands main.set_selectedCommand main.set_ready
                    main.set_lastLoadedConv main.onViewport fst snd]
    | rewrite viewport_setSummary
    | match goal with
      | X : main.save _ _ _ = (_, ?m1) |- context [main.viewport ?m1] =>
          rewrite (viewport_save _ _ _ _ _ X)
      | R : main.handleCommandExecution _ = Ok ?r |- context [main.viewport (fst ?r)] =>
          rewrite (viewport_handleCommandExecution _ _ R)
      | |- context [main.viewport (if ?b then _ else _)] => destruct b
      | |- offsetInFooterRange (main.viewport (main.ensureConversationVisible _ _ _)) =>
          apply ensureConversationVisible_range
      | |- offsetInFooterRange (main.viewport (main.ensureMessageVisible _ _ _)) =>
          apply range_footer, ensureMessageVisible_range
      | |- offsetInFooterRange (main.viewport (main.updateViewport _ _)) =>
          apply range_footer, updateViewport_range
      | |- offsetInFooterRange (viewport.scrollBy _ _) => apply range_footer, scrollBy_range
      | |- offsetInFooterRange (viewport.LineUp _ _) => apply LineUp_footer
      | |- offsetInFooterRange (viewport.LineDown _ _) => apply LineDown_footer
      | |- offsetInFooterRange (viewport.HalfViewUp _) => apply HalfViewUp_footer
      | |- offsetInFooterRange (viewport.HalfViewDown _) => apply HalfViewDown_footer
      | |- offsetInFooterRange (viewport.GotoTop _) => apply range_footer, GotoTop_range
      | |- offsetInFooterRange (viewport.GotoBottom _) => apply range_footer, GotoBottom_range
      end ].

(** Every event but [scrollMsg] (which nothing in the program sends) keeps
    the offset in the footer range. *)
Lemma Update_keeps_footer_range (E : main.Env) (w w' : main.World) (m m' : main.model)
    (msg : main.Msg) (c : main.Cmd) :
  main.Update E w m msg = Ok (w', m', c) ->
  (forall offset, msg <> main.scrollMsg offset) ->
  offsetInFooterRange (main.viewport m) ->
  offsetInFooterRange (main.viewport m').
Proof.
  intros H NS F. unfold main.Update in H.
  fold (afterSpinner E m msg) in H.
  pose proof (afterSpinner_spinner_only E m msg) as A.
  set (m0 := afterSpinner E m msg) in *.
  assert (F0 : offsetInFooterRange (main.viewport m0)) by (now rewrite A).
  clear A F. clearbody m0.
  destruct msg as [W Hh|t|k|resp e|i ed e|out e|off|tag];
    [| | | | | | exfalso; now apply (NS off) |];
    unfold_update H; walk H; inversion H; subst; clear H.
  all: viewport_range.
  all: first [exact F0 | apply F0].
Qed.

(* ===================================================================== *)
(** * Command output *)
(* ===================================================================== *)

(** The output of a command that succeeded becomes an assistant message:
    a fenced block with the invocation line and everything captured, and
    the conversation is handed to [SaveConversation]. *)
Lemma command_output_appended (E : main.Env) (w : main.World) (m : main.model)
    (output : string) :
  exists w' m',
    main.Update E w m (main.commandOutputMsg output None) = Ok (w', m', main.cmdNil) /\
    main.messages m' =
      (main.messages m ++
         [{| storage.Role := "assistant";
             storage.Content := "```" ++ main.nl ++ output ++ "```";
             storage.Timestamp := main.now w |}])%list /\
    storage.Messages (main.conversation m') = main.messages m' /\
    main.dir w' =
      fst (storage.SaveConversation (main.codec E) (main.dir w) (main.conversation m')).
Proof.
  unfold main.Update, main.updateCommandOutput, main.ret.
  fold (afterSpinner E m (main.commandOutputMsg output None)).
  pose proof (afterSpinner_spinner_only E m (main.commandOutputMsg output None)) as A.
  set (m0 := afterSpinner E m _) in *.
  assert (Hm : main.messages m0 = main.messages m) by (now rewrite A).
  clear A. clearbody m0.
  match goal with
  | |- context [main.save E w ?x] => set (m1 := x)
  end.
  pose proof (save_fields E w m1) as S. cbv zeta in S.
  destruct (main.save E w m1) as [w' m2] eqn:SV. simpl fst in S; simpl snd in S.
  destruct S as (Sd & _ & Sm & Sc & _).
  do 2 eexists. split; [reflexivity|].
  destruct (frame_fields _ _ (sameButViewport_trans _ _ _
              (updateViewport_frame E m2) (onViewport_frame viewport.GotoBottom _)))
    as (Fm & Fc & _).
  rewrite Fm, Fc, Sm, Sc, Sd. subst m1.
  cbn [main.messages main.conversation main.set_conversation main.set_messages
       main.set_conv_Messages storage.Messages].
  rewrite Hm. repeat split.
Qed.

(** The message a command run leaves carries the command and all of the
    captured output. *)
Lemma runCommand_output (sh : string -> string * option error) (cmdStr : string) :
  exists status,
    main.runCommand sh cmdStr =
      main.commandOutputMsg
        ("Command ran: " ++ cmdStr ++ main.nl ++ "Command result:" ++ main.nl
         ++ status ++ fst (sh cmdStr))
        (snd (sh cmdStr)).
Proof.
  unfold main.runCommand. destruct (sh cmdStr) as [output [e|]]; eexists; reflexivity.
Qed.

(** The output of a command that failed is dropped: the error is stored,
    no message is appended and nothing is saved. *)
Lemma failed_command_output_dropped (E : main.Env) (w : main.World) (m : main.model)
    (output : string) (e : error) :
  exists m',
    main.Update E w m (main.commandOutputMsg output (Some e)) = Ok (w, m', main.cmdNil) /\
    main.messages m' = main.messages m /\
    main.conversation m' = main.conversation m /\
    main.err m' = Some e.
Proof.
  unfold main.Update, main.updateCommandOutput, main.ret.
  fold (afterSpinner E m (main.commandOutputMsg output (Some e))).
  pose proof (afterSpinner_spinner_only E m (main.commandOutputMsg output (Some e))) as A.
  eexists. split; [reflexivity|]. rewrite A. repeat split.
Qed.

(** C6, at a command that fails.  [ls /nonexistent] exits with status 2;
    the message built for it names the failure and holds the output, and
    [Update] stores the error only: the history is as before and nothing
    is written. *)
Theorem failing_command_leaves_no_message :
  main.runCommand failingShell "ls /nonexistent" =
    main.commandOutputMsg
      ("Command ran: ls /nonexistent" ++ main.nl ++ "Command result:" ++ main.nl
       ++ "Command failed: exit status 2" ++ main.nl
       ++ "ls: cannot access '/nonexistent': No such file or directory" ++ main.nl)
      (Some "exit status 2") /\
  exists m',
    main.Update demoEnv demoWorld lsModel (main.runCommand failingShell "ls /nonexistent")
      = Ok (demoWorld, m', main.cmdNil) /\
    main.messages m' = main.messages lsModel /\
    main.err m' = Some "exit status 2".
Proof.
  split; [reflexivity|].
  destruct (failed_command_output_dropped demoEnv demoWorld lsModel
              ("Command ran: ls /nonexistent" ++ main.nl ++ "Command result:" ++ main.nl
               ++ "Command failed: exit status 2" ++ main.nl
               ++ "ls: cannot access '/nonexistent': No such file or directory" ++ main.nl)
              "exit status 2") as [m' (U & M & _ & Er)].
  exists m'. repeat split; assumption.
Qed.

(* ===================================================================== *)
(** * The temporary file of the editor *)
(* ===================================================================== *)

Lemma tmpLookup_tmpRemove (fs : list (string * string)) (name : string) :
  main.tmpLookup (main.tmpRemove fs name) name = None.
Proof.
  induction fs as [|[n d] fs IH]; simpl; [reflexivity|].
  destruct (String.eqb_spec n name) as [->|N]; [exact IH|].
  simpl. destruct (String.eqb_spec n name); [contradiction | exact IH].
Qed.

(** Once the editor has exited the file is gone, whether the editor
    succeeded, failed, or the file could not be read back. *)
Lemma editorExited_removes (w : main.World) (tmpName : string) (i : Z)
    (e : option error) :
  main.tmpExists (fst (main.editorExited w tmpName i e)) tmpName = false.
Proof.
  unfold main.editorExited, main.tmpExists.
  destruct e as [e|]; [|destruct (main.ReadFile w tmpName)];
    cbn [fst main.tmpFiles main.set_tmpFiles]; now rewrite tmpLookup_tmpRemove.
Qed.

(** When the file cannot be created there is nothing to remove. *)
Lemma editMessageCmd_no_file (w : main.World) (content : string) (i : Z) (e : error) :
  main.CreateTemp w = inr e ->
  main.editMessageCmd w content i =
    (w, main.cmdReturn (main.editMessageMsg i "" (Some e))).
Proof. intros H. unfold main.editMessageCmd. now rewrite H. Qed.

(** C7, at a write failure.  The file is created, writing it fails, and
    [editMessageCmd] returns the error message with the file still in the
    temporary directory; handling that message does not remove it. *)
Theorem temp_file_left_after_write_failure :
  main.tmpExists fullDiskWorld "/tmp/gpt-term-edit-1.txt" = false /\
  exists w',
    main.editMessageCmd fullDiskWorld "list files" 1 =
      (w', main.cmdReturn (main.editMessageMsg 1 "" (Some "no space left on device"))) /\
    main.tmpExists w' "/tmp/gpt-term-edit-1.txt" = true /\
    exists m',
      main.Update demoEnv w' lsModel
        (main.editMessageMsg 1 "" (Some "no space left on device"))
        = Ok (w', m', main.cmdNil).
Proof.
  split; [reflexivity|]. eexists. split; [reflexivity|].
  split; [reflexivity|]. eexists. reflexivity.
Qed.

(* ===================================================================== *)
(** * The cursor of edit navigation *)
(* ===================================================================== *)

(** With at least one message after the system message, edit navigation
    starts on the last message. *)
Lemma enterEditing_cursor (E : main.Env) (w : main.World) (m : main.model) :
  exists m',
    main.enterEditing E w m = Ok (w, m', main.cmdNil) /\
    main.mode m' = main.ModeEditing /\
    main.cursorIndex m' = (len (main.messages m) - 1)%Z /\
    main.messages m' = main.messages m.
Proof.
  unfold main.enterEditing, main.ret. eexists. split; [reflexivity|].
  destruct (frame_fields _ _ (updateViewport_frame E
              (main.set_cursorIndex (main.set_mode m main.ModeEditing)
                 (len (main.messages (main.set_mode m main.ModeEditing)) - 1))))
    as (Fm & _ & Fmode & Fc & _).
  rewrite Fm, Fmode, Fc. repeat split.
Qed.

(** C9, at a new conversation.  The history holds the system message only;
    Ctrl+J enters [ModeEditing] with the cursor on index 0, the system
    message. *)
Theorem edit_navigation_selects_system_message :
  main.messages (main.initialModel demoWorld) = [main.systemMsg demoWorld] /\
  exists m',
    main.Update demoEnv demoWorld (main.initialModel demoWorld) (key tea.KeyCtrlJ)
      = Ok (demoWorld, m', main.cmdNil) /\
    main.mode m' = main.ModeEditing /\
    main.cursorIndex m' = 0%Z /\
    index (main.messages m') (main.cursorIndex m') = Ok (main.systemMsg demoWorld).
Proof.
  split; [reflexivity|].
  destruct (enterEditing_cursor demoEnv demoWorld (main.initialModel demoWorld))
    as [m' (U & Mo & C & Ms)].
  exists m'. split; [exact U|]. split; [exact Mo|]. split; [exact C|].
  rewrite C, Ms. reflexivity.
Qed.

(* ===================================================================== *)
(** * The scenarios of the specification *)
(* ===================================================================== *)

(** Editing [hi] to [bye] in [[system, user:hi, assistant:hello]]. *)
Lemma edit_commit_truncates_hiModel :
  exists w' m',
    main.Update demoEnv demoWorld hiModel (main.editMessageMsg 1 "bye" None)
      = Ok (w', m', main.cmdCreateMessage (main.claudeMsgs (main.messages m'))) /\
    len (main.messages m') = (1 + 1)%Z /\
    index (main.messages m') 1 = Ok (main.set_msg_Content (userMessage "hi") "bye") /\
    storage.Content (main.set_msg_Content (userMessage "hi") "bye") = "bye" /\
    storage.Role (main.set_msg_Content (userMessage "hi") "bye") = "user" /\
    firstn (Z.to_nat 1) (main.messages m') = firstn (Z.to_nat 1) (main.messages hiModel) /\
    storage.Messages (main.conversation m') = main.messages m' /\
    main.mode m' = main.ModeNormal /\
    main.isLoading m' = true.
Proof.
  apply (edit_commit_truncates demoEnv demoWorld hiModel 1 "bye" (userMessage "hi"));
    [unfold len; simpl; lia | reflexivity | reflexivity].
Defined.

Lemma hiModel_after_edit :
  exists w' m',
    main.Update demoEnv demoWorld hiModel (main.editMessageMsg 1 "bye" None)
      = Ok (w', m',
            main.cmdCreateMessage
              [{| claude.Role := "system"; claude.Content := main.systemPrompt |};
               {| claude.Role := "user"; claude.Content := "bye" |}]) /\
    main.messages m' = [main.systemMsg demoWorld; userMessage "bye"].
Proof.
  destruct (main.Update demoEnv demoWorld hiModel (main.editMessageMsg 1 "bye" None))
    as [[[w' m'] c]|] eqn:U.
  all: vm_compute in U.
  2: discriminate.
  injection U as <- <- <-. do 2 eexists.
 split; reflexivity.
Qed.

(** Two [scrollBy(+3)] from offset 0 over 10 lines in a viewport of 8. *)
Lemma two_scrolls_clamped :
  let vp := {| viewport.YOffset := 0; viewport.Height := 8; viewport.Width := 80;
               viewport.lines := repeat "line" 10 |} in
  viewport.YOffset (viewport.LineDown (viewport.LineDown vp 3) 3) = 2%Z.
Proof. reflexivity. Qed.

(** The reply of the first scenario: Enter on the list of one runs
    [ls -la]. *)
Lemma lsModel_run_selected :
  exists m1 m2,
    main.Update demoEnv demoWorld lsModel (key tea.KeyCtrlX)
      = Ok (demoWorld, m1, main.cmdNil) /\
    main.mode m1 = main.ModeCommandSelect /\
    map main.sub1 (main.commands m1) = ["ls -la"] /\
    main.Update demoEnv demoWorld m1 (key tea.KeyEnter)
      = Ok (demoWorld, m2, main.cmdExecuteCommand "ls -la") /\
    main.mode m2 = main.ModeNormal.
Proof.
  destruct (main.Update demoEnv demoWorld lsModel (key tea.KeyCtrlX))
    as [[[w1 m1] c1]|] eqn:U1.
  all: vm_compute in U1.
  2: discriminate.
  injection U1 as <- <- <-.
  match goal with
  | |- exists m1 m2, _ = Ok (_, m1, _) /\ _ =>
      eexists; eexists; split; [reflexivity|]
  end.
  split; [reflexivity|]. split; [reflexivity|].
  split; vm_compute; reflexivity.
Qed.

(** An empty history list: moving and selecting change nothing but the
    selection index, and load no conversation. *)
Lemma empty_history_select_is_noop (E : main.Env) (w : main.World) (m : main.model) :
  main.mode m = main.ModeHistory -> main.conversations m = [] ->
  main.isLoading m = false ->
  main.Update E w m (key tea.KeyEnter) = Ok (w, m, main.cmdBatch []).
Proof.
  intros Mo C L. unfold main.Update, main.updateKey, main.updateHistory, main.fall.
  rewrite L. unfold key.
  cbn [tea.String_ tea.Type_ tea.Alt tea.Runes String.eqb Ascii.eqb Bool.eqb
       append orb tea.keyName].
  rewrite Mo, C. reflexivity.
Qed.

(** The history list over ten stored conversations in a terminal of 14
    rows: after the End key the offset is 8 with 14 lines and a viewport
    of 7. *)
Lemma history_end_key_offset :
  exists w m,
    runUpdate demoEnv (main.set_dir demoWorld tenFilesDir) (main.initialModel demoWorld)
      [main.WindowSizeMsg 80 14; key tea.KeyCtrlR; key tea.KeyEnd] = Ok (w, m) /\
    main.mode m = main.ModeHistory /\
    viewport.YOffset (main.viewport m) = 8%Z /\
    viewport.TotalLineCount (main.viewport m) = 14%Z /\
    viewport.Height (main.viewport m) = 7%Z.
Proof.
  destruct (runUpdate demoEnv (main.set_dir demoWorld tenFilesDir)
              (main.initialModel demoWorld)
              [main.WindowSizeMsg 80 14; key tea.KeyCtrlR; key tea.KeyEnd])
    as [[w m]|] eqn:U.
  all: vm_compute in U.
  2: discriminate.
  injection U as <- <-. do 2 eexists. split; [reflexivity|].
  vm_compute. repeat split.
Qed.

(** In edit navigation over at least two messages, [j] and [k] keep the
    cursor within [[1, len(messages)-1]]. *)
Lemma navigation_keeps_cursor (E : main.Env) (w w' : main.World) (m m' : main.model)
    (r : string) (c : main.Cmd) :
  main.mode m = main.ModeEditing ->
  (1 <= main.cursorIndex m <= len (main.messages m) - 1)%Z ->
  r = "j" \/ r = "k" ->
  main.Update E w m (rune r) = Ok (w', m', c) ->
  main.messages m' = main.messages m /\
  main.mode m' = main.ModeEditing /\
  (1 <= main.cursorIndex m' <= len (main.messages m') - 1)%Z.
Proof.
  intros Mo R Hr H. unfold main.Update in H.
  fold (afterSpinner E m (rune r)) in H.
  pose proof (afterSpinner_spinner_only E m (rune r)) as A.
  set (m0 := afterSpinner E m (rune r)) in *.
  assert (Hmode : main.mode m0 = main.ModeEditing) by (now rewrite A).
  assert (Hms : main.messages m0 = main.messages m) by (now rewrite A).
  assert (Hc : main.cursorIndex m0 = main.cursorIndex m) by (now rewrite A).
  clear A. clearbody m0.
  unfold rune, main.updateKey, main.updateEditing, main.ret, main.fall in H.
  destruct Hr as [-> | ->];
    cbn [tea.String_ tea.Type_ tea.Alt tea.Runes String.eqb Ascii.eqb Bool.eqb
         append orb] in H;
    rewrite Hmode in H; walk H;
    inversion H; subst; clear H;
    cbn [main.messages main.mode main.cursorIndex main.ensureMessageVisible
         main.set_viewport main.set_cursorIndex];
    rewrite ?Hms, ?Hmode, ?Hc in *; (split; [reflexivity|]); (split; [reflexivity|]);
    cases_Z; try discriminate; lia.
Qed.

(* ===================================================================== *)
(** * Storage: saving, listing and loading together *)
(* ===================================================================== *)

Lemma list_ascii_of_string_app (a b : string) :
  list_ascii_of_string (a ++ b) = (list_ascii_of_string a ++ list_ascii_of_string b)%list.
Proof. induction a as [|x a IH]; simpl; [reflexivity | now rewrite IH]. Qed.

(** A name that ends in [.convo] has that extension, whatever precedes. *)
Lemma Ext_convo (s : string) : storage.Ext (s ++ ".convo") = ".convo".
Proof.
  unfold storage.Ext, strings.bytesRev.
  rewrite list_ascii_of_string_app, rev_app_distr. reflexivity.
Qed.

Lemma fileName_Ext (codec : storage.Codec) (conv : storage.Conversation) :
  storage.Ext (storage.fileName codec conv) = ".convo".
Proof.
  unfold storage.fileName.
  rewrite <- (append_assoc "_"), <- append_assoc. apply Ext_convo.
Qed.

(** X1. A conversation saved into a readable directory is among the
    conversations listed afterwards, when its file name holds no path
    separator, the encoding reads back as the conversation and the file
    can be written. *)
Theorem saved_conversation_is_listed (codec : storage.Codec) (d : storage.Dir)
    (conv : storage.Conversation) (data : string) :
  strings.Count (storage.fileName codec conv) filepath.Separator = 0 ->
  storage.json_MarshalIndent codec conv = inl data ->
  storage.json_Unmarshal codec data = Some conv ->
  storage.WriteFileErr d = None ->
  storage.ReadDirErr d = None ->
  snd (storage.SaveConversation codec d conv) = None /\
  exists convs,
    storage.ListConversations codec (fst (storage.SaveConversation codec d conv))
      = inl convs /\
    In conv convs.
Proof.
  intros N M U W R.
  destruct (SaveConversation_writes codec d conv data M W N) as [S I].
  split; [exact S|].
  unfold storage.ListConversations.
  assert (R' : storage.ReadDirErr (fst (storage.SaveConversation codec d conv)) = None).
  { unfold storage.SaveConversation. cbv zeta. rewrite M.
    destruct (storage.entryOf _ _); [now rewrite W|].
    now destruct (storage.WriteOutsideErr _ _). }
  rewrite R'. eexists. split; [reflexivity|].
  apply loadEntries_In. eexists. split; [exact I|].
  apply loadEntry_Some. split; [apply fileName_Ext|].
  exists data. split; [reflexivity | exact U].
Qed.

Lemma saved_conversation_is_listed_storedConv :
  snd (storage.SaveConversation demoCodec mixedDir storedConv) = None /\
  exists convs,
    storage.ListConversations demoCodec
      (fst (storage.SaveConversation demoCodec mixedDir storedConv)) = inl convs /\
    In storedConv convs.
Proof.
  apply (saved_conversation_is_listed demoCodec mixedDir storedConv "conv:a");
    reflexivity.
Defined.

(** An id that climbs out of the directory: the conversation is saved
    without error, and is not listed. *)
Lemma climbing_id_is_not_listed :
  storage.SaveConversation demoCodec emptyDir climbingConv = (emptyDir, None) /\
  storage.ListConversations demoCodec emptyDir = inl [].
Proof. split; reflexivity. Qed.

Lemma writeEntry_others (fs : list storage.File) (name data : string) (f : storage.File) :
  storage.Name f <> name ->
  (In f (storage.writeEntry fs name data) <-> In f fs).
Proof.
  intros N. induction fs as [|g fs IH]; simpl.
  - split; [intros [<-|[]]; now elim N | intros []].
  - destruct (String.eqb_spec (storage.Name g) name) as [G|G].
    + simpl. split.
      * intros [<-|I]; [now elim N | now right].
      * intros [<-|I]; [contradiction | now right].
    + destruct (String.ltb name (storage.Name g)); simpl.
      * split; [intros [<-|I]; [now elim N | exact I] | intros I; now right].
      * rewrite IH. reflexivity.
Qed.

(** X2. [SaveConversation] either fails and leaves the directory as it
    was, or succeeds and writes at most one entry: when
    [filepath.Join(baseDir, file name)] names an entry of the directory,
    that entry holds the encoded conversation afterwards, every entry with
    another name is kept and none is added; when it names none, the
    entries stay as they are.  For a file name without path separator the
    entry is the file name itself. *)
Theorem save_writes_own_file_only (codec : storage.Codec) (d : storage.Dir)
    (conv : storage.Conversation) :
  ((exists e, storage.SaveConversation codec d conv = (d, Some e)) \/
   (exists data d',
      storage.SaveConversation codec d conv = (d', None) /\
      storage.json_MarshalIndent codec conv = inl data /\
      storage.baseDir d' = storage.baseDir d /\
      storage.ReadDirErr d' = storage.ReadDirErr d /\
      match storage.entryOf (storage.baseDir d)
              (filepath.Join (storage.baseDir d) (storage.fileName codec conv)) with
      | Some name =>
          In {| storage.Name := name; storage.Data := inl data |} (storage.Files d') /\
          forall f, storage.Name f <> name ->
                    (In f (storage.Files d') <-> In f (storage.Files d))
      | None => storage.Files d' = storage.Files d
      end)) /\
  (strings.Count (storage.fileName codec conv) filepath.Separator = 0 ->
   storage.entryOf (storage.baseDir d)
     (filepath.Join (storage.baseDir d) (storage.fileName codec conv))
   = Some (storage.fileName codec conv)).
Proof.
  split; [|intros N; apply Join_entry; now apply fileName_isName].
  unfold storage.SaveConversation. cbv zeta.
  destruct (storage.json_MarshalIndent codec conv) as [data|e]; [|left; eauto].
  destruct (storage.entryOf _ _) as [name|].
  - destruct (storage.WriteFileErr d) as [e|]; [left; eauto|].
    right. exists data. eexists. split; [reflexivity|].
    split; [reflexivity|]. split; [reflexivity|]. split; [reflexivity|].
    split; [apply writeEntry_holds|]. intros f N. now apply writeEntry_others.
  - destruct (storage.WriteOutsideErr d _) as [e|]; [left; eauto|].
    right. exists data, d. repeat split.
Qed.

(** An id that climbs one element and comes back: the conversation is
    written over the entry [x.convo]. *)
Lemma climbing_id_overwrites :
  storage.Files
    (fst (storage.SaveConversation demoCodec
            {| storage.baseDir := "/home/user/.gpt-term/conversations";
               storage.ReadDirErr := None;
               storage.Files := [{| storage.Name := "x.convo"; storage.Data := inl "conv:x" |}];
               storage.WriteFileErr := None;
               storage.WriteOutsideErr := fun _ => None |}
            {| storage.ID := "/../x"; storage.Messages := [];
               storage.CreatedAt := 0%Z; storage.Summary := "" |}))
  = [{| storage.Name := "x.convo"; storage.Data := inl "conv:/../x" |}].
Proof. reflexivity. Qed.

Lemma findEntry_find (codec : storage.Codec) (fs : list storage.File) (id : string) :
  storage.findEntry codec fs id =
  find (fun conv => String.eqb (storage.ID conv) id) (storage.loadEntries codec fs).
Proof.
  induction fs as [|f fs IH]; simpl; [reflexivity|].
  destruct (storage.loadEntry codec f) as [conv|]; simpl; [|exact IH].
  destruct (String.eqb (storage.ID conv) id); [reflexivity | exact IH].
Qed.

(** X3. [LoadConversation] returns what [ListConversations] lists: the
    first listed conversation with the id, the not-found error when none
    has it, and the directory's error when the directory cannot be read. *)
Theorem LoadConversation_agrees_with_list (codec : storage.Codec) (d : storage.Dir)
    (id : string) :
  storage.LoadConversation codec d id =
  match storage.ListConversations codec d with
  | inr e => inr e
  | inl convs =>
      match find (fun conv => String.eqb (storage.ID conv) id) convs with
      | Some conv => inl conv
      | None => inr ("conversation not found: " ++ id)
      end
  end.
Proof.
  unfold storage.LoadConversation, storage.ListConversations.
  destruct (storage.ReadDirErr d); [reflexivity|].
  now rewrite findEntry_find.
Qed.

Lemma take_length (n : nat) (s : string) :
  n <= length s -> length (strings.take n s) = n.
Proof.
  revert s. induction n as [|n IH]; intros s L; [reflexivity|].
  destruct s as [|c s]; simpl in *; [lia|]. rewrite IH; lia.
Qed.

Lemma summarize_length (content : string) :
  length (storage.summarize content) <= 50 /\
  (length content <= 50 -> storage.summarize content = content).
Proof.
  unfold storage.summarize.
  destruct (Z.ltb_spec 50 (Z.of_nat (length content))).
  - split; [|lia]. rewrite append_length, take_length by lia. simpl. lia.
  - split; [lia | reflexivity].
Qed.

(** X4. The summary of a conversation never has more than 50 bytes, and
    it is the first user message itself when that has at most 50. *)
Theorem summary_at_most_50_bytes (messages : list storage.Message) :
  length (storage.GenerateConversationSummary messages) <= 50 /\
  (forall msg,
     storage.firstUser messages = Some msg ->
     length (storage.Content msg) <= 50 ->
     storage.GenerateConversationSummary messages = storage.Content msg).
Proof.
  unfold storage.GenerateConversationSummary.
  destruct messages as [|m0 rest]; [split; [simpl; lia | discriminate]|].
  destruct (storage.firstUser (m0 :: rest)) as [msg|].
  - split; [apply summarize_length|].
    intros msg' [= <-] L. now apply summarize_length.
  - split; [simpl; lia | discriminate].
Qed.

(* ===================================================================== *)
(** * The request to the assistant *)
(* ===================================================================== *)

Lemma find_app {A : Type} (p : A -> bool) (l1 l2 : list A) :
  find p (l1 ++ l2)%list =
  match find p l1 with Some a => Some a | None => find p l2 end.
Proof.
  induction l1 as [|a l1 IH]; simpl; [reflexivity|].
  destruct (p a); [reflexivity | exact IH].
Qed.

Lemma filterSystem_spec (messages : list claude.Message) (systemMsg : string) :
  claude.filterSystem messages systemMsg =
  (match find (fun m => String.eqb (claude.Role m) "system") (rev messages) with
   | Some m => claude.Content m
   | None => systemMsg
   end,
   filter (fun m => negb (String.eqb (claude.Role m) "system")) messages).
Proof.
  revert systemMsg. induction messages as [|m t IH]; intros systemMsg; simpl;
    [reflexivity|].
  rewrite find_app. simpl.
  destruct (String.eqb (claude.Role m) "system") eqn:S; simpl.
  - rewrite IH. destruct (find _ (rev t)); reflexivity.
  - rewrite IH. destruct (find _ (rev t)); reflexivity.
Qed.

(** X5. The request keeps the turns that are not system messages, in
    their order, and carries the content of the last system message as
    its system text (the empty text when there is none). *)
Theorem request_separates_system_messages (messages : list claude.Message) :
  claude.Messages (claude.requestBody messages) =
    filter (fun m => negb (String.eqb (claude.Role m) "system")) messages /\
  Forall (fun m => claude.Role m <> "system")
         (claude.Messages (claude.requestBody messages)) /\
  claude.System (claude.requestBody messages) =
    match find (fun m => String.eqb (claude.Role m) "system") (rev messages) with
    | Some m => claude.Content m
    | None => ""
    end.
Proof.
  unfold claude.requestBody. rewrite filterSystem_spec. simpl.
  split; [reflexivity|]. split; [|reflexivity].
  apply Forall_forall. intros m I. apply filter_In in I as [_ N].
  intros R. rewrite R in N. discriminate.
Qed.

(** X6. [CreateMessage] returns a text exactly when the request could be
    encoded and built, the round trip succeeded with status 200, the body
    was read and decoded, and the response has at least one content
    block; the text is that of the first block. *)
Theorem CreateMessage_succeeds_iff (t : claude.Transport) (c : claude.Client)
    (messages : list claude.Message) (text : string) :
  claude.CreateMessage t c messages = inl text <->
  exists jsonBody resp body response rest,
    claude.json_Marshal t (claude.requestBody messages) = inl jsonBody /\
    claude.http_NewRequestErr t = None /\
    claude.http_Do t (claude.httpRequest c jsonBody) = inl resp /\
    claude.Body resp = inl body /\
    claude.StatusCode resp = 200%Z /\
    claude.json_Unmarshal t body = inl response /\
    claude.ResponseContent response = text :: rest.
Proof.
  unfold claude.CreateMessage. split.
  - intros H.
    destruct (claude.json_Marshal t _) as [jsonBody|] eqn:M; [|discriminate].
    destruct (claude.http_NewRequestErr t) eqn:N; [discriminate|].
    destruct (claude.http_Do t _) as [resp|] eqn:D; [|discriminate].
    destruct (claude.Body resp) as [body|] eqn:B; [|discriminate].
    destruct (Z.eqb_spec (claude.StatusCode resp) 200) as [S|S]; [|discriminate].
    simpl in H.
    destruct (claude.json_Unmarshal t body) as [response|] eqn:U; [|discriminate].
    destruct (claude.ResponseContent response) as [|x rest] eqn:C; [discriminate|].
    injection H as ->. exists jsonBody, resp, body, response, rest. auto 10.
  - intros (jsonBody & resp & body & response & rest & M & N & D & B & S & U & C).
    rewrite M, N, D, B, S, U, C. reflexivity.
Qed.

(** The text the engine appends for a conversation sent through a
    transport that answers with two blocks is the first block. *)
Lemma CreateMessage_succeeds_iff_echo :
  claude.CreateMessage echoTransport {| claude.apiKey := "key" |}
    (main.claudeMsgs (main.messages hiModel)) = inl main.systemPrompt.
Proof.
  apply (CreateMessage_succeeds_iff echoTransport {| claude.apiKey := "key" |}
           (main.claudeMsgs (main.messages hiModel)) main.systemPrompt).
  do 5 eexists. repeat split; reflexivity.
Defined.

(* ===================================================================== *)
(** * Extraction: what wrapping a command gives back *)
(* ===================================================================== *)

Lemma HasPrefix_empty (s : string) : strings.HasPrefix s "" = true.
Proof. destruct s; reflexivity. Qed.

(** A prefix without the byte [x] of a text [a ++ x ...] lies within [a]. *)
Lemma HasPrefix_before (a r u : string) (x : ascii) :
  noChar x u = true ->
  strings.HasPrefix (a ++ String x r) u = true ->
  strings.HasPrefix a u = true.
Proof.
  revert a. induction u as [|y u IH]; intros a N H; [apply HasPrefix_empty|].
  simpl in N. apply andb_prop in N as [N1 N2].
  destruct a as [|z a]; simpl in H |- *.
  - destruct (Ascii.eqb y x); discriminate.
  - destruct (Ascii.eqb y z); [now apply IH | discriminate].
Qed.

(** For a separator whose first byte does not occur again in it, the
    first occurrence in [a ++ sep ++ b] is the one written, when [a] holds
    none. *)
Lemma Cut_append (a b t : string) (x : ascii) :
  noChar x t = true ->
  strings.Cut a (String x t) = None ->
  strings.Cut (a ++ String x t ++ b) (String x t) = Some (a, b).
Proof.
  intros N. induction a as [|y a IH]; intros C.
  - rewrite Cut_eq.
    change ("" ++ String x t ++ b) with (String x t ++ b).
    now rewrite HasPrefix_append, drop_append.
  - rewrite Cut_eq in C. rewrite Cut_eq.
    destruct (strings.HasPrefix (String y a) (String x t)) eqn:P; [discriminate|].
    destruct (strings.Cut a (String x t)) as [[? ?]|] eqn:Ca; [discriminate|].
    destruct (strings.HasPrefix (String y a ++ String x t ++ b) (String x t)) eqn:P'.
    + exfalso. simpl in P, P'.
      destruct (Ascii.eqb x y); [|discriminate].
      change (String x (t ++ b)) with (String x t ++ b) in P'.
      rewrite (HasPrefix_before a (t ++ b) t x N P') in P. discriminate.
    + change (match strings.Cut (a ++ String x t ++ b) (String x t) with
              | Some (before, after) => Some (String y before, after)
              | None => None
              end = Some (String y a, b)).
      now rewrite IH.
Qed.

Lemma Contains_false (s sep : string) :
  strings.Contains s sep = false -> strings.Cut s sep = None.
Proof.
  unfold strings.Contains. destruct (strings.Cut s sep); [discriminate | reflexivity].
Qed.

(** X7. A command wrapped in the two tags is extracted as written, up to
    surrounding white space: when the text before holds no opening tag and
    the command no closing tag, extraction gives the trimmed command and
    then the commands of the rest; the command is white space, the
    trimmed command, white space, and the trimmed command neither starts
    nor ends with white space. *)
Theorem extract_wrapped_command (before cmd rest : string) :
  strings.Contains before "<command>" = false ->
  strings.Contains cmd "</command>" = false ->
  main.extract (before ++ "<command>" ++ cmd ++ "</command>" ++ rest) =
    strings.TrimSpace cmd :: main.extract rest /\
  trimmedOf cmd (strings.TrimSpace cmd) /\
  strings.leadingSpace (strings.TrimSpace cmd) = false /\
  strings.trailingSpace (strings.TrimSpace cmd) = false.
Proof.
  intros B C. apply Contains_false in B, C.
  split; [|split; [apply TrimSpace_removes|split;
                   [apply TrimSpace_leading | apply TrimSpace_trailing]]].
  rewrite extract_eq. unfold regexp.matchCommand, regexp.openTag, regexp.closeTag.
  rewrite (Cut_append before (cmd ++ "</command>" ++ rest) "command>" "<"%char eq_refl B).
  now rewrite (Cut_append cmd rest "/command>" "<"%char eq_refl C).
Qed.

Lemma extract_wrapped_command_ls :
  main.extract ("first " ++ "<command>" ++ " ls -la " ++ "</command>"
                ++ " then <command>pwd</command>") =
    strings.TrimSpace " ls -la " :: main.extract " then <command>pwd</command>" /\
  trimmedOf " ls -la " (strings.TrimSpace " ls -la ") /\
  strings.leadingSpace (strings.TrimSpace " ls -la ") = false /\
  strings.trailingSpace (strings.TrimSpace " ls -la ") = false.
Proof.
  apply (extract_wrapped_command "first " " ls -la " " then <command>pwd</command>");
    reflexivity.
Defined.

(** X8. A text without an opening tag, or without a closing tag, holds no
    command: an unclosed or unopened tag is not a match. *)
Theorem extract_needs_both_tags (T : string) :
  strings.Contains T "<command>" = false \/ strings.Contains T "</command>" = false ->
  main.extract T = [].
Proof.
  intros H. rewrite extract_eq.
  destruct (regexp.matchCommand T) as [[[b i] a]|] eqn:M; [|reflexivity].
  exfalso. apply matchCommand_Some in M as [r [[E1 _] [E2 _]]].
  destruct H as [H|H]; apply Contains_false in H.
  - exact (Cut_None _ _ H _ _ E1).
  - apply (Cut_None _ _ H (b ++ regexp.openTag ++ i) a).
    rewrite E1, E2, !append_assoc. reflexivity.
Qed.

Lemma extract_needs_both_tags_unclosed :
  main.extract "run <command>ls -la and nothing more" = [].
Proof.
  apply (extract_needs_both_tags "run <command>ls -la and nothing more").
  right. reflexivity.
Defined.

(* ===================================================================== *)
(** * What one step of [Update] can change *)
(* ===================================================================== *)

Lemma frame_other {A : Type} (p : main.model -> A) (m m' : main.model) :
  sameButViewport m m' ->
  (forall x vp, p (main.set_viewport x vp) = p x) ->
  p m' = p m.
Proof. intros -> H. apply H. Qed.

Lemma save_result (E : main.Env) (w w' : main.World) (m m' : main.model) :
  main.save E w m = (w', m') ->
  w' = main.set_dir w
         (fst (storage.SaveConversation (main.codec E) (main.dir w) (main.conversation m))) /\
  (m' = m \/ exists e, m' = main.set_err m (Some e)).
Proof.
  unfold main.save.
  destruct (storage.SaveConversation _ _ _) as [d [e|]]; intros [= <- <-];
    (split; [reflexivity|]); [right; eauto | left; reflexivity].
Qed.

Lemma findAll_two (n : nat) (s : string) :
  Forall (fun mt => List.length mt = 2) (regexp.findAll n s).
Proof.
  revert s. induction n as [|n IH]; intros s; simpl; [constructor|].
  destruct (regexp.matchCommand s) as [[[b i] a]|]; constructor; auto.
Qed.

Lemma trimMatch_two (mt : list string) :
  List.length mt = 2 -> List.length (main.trimMatch mt) = 2.
Proof. destruct mt as [|a [|b [|c t]]]; simpl; auto. Qed.

(** What [handleCommandExecution] returns: the model as it was, or the
    selection over a non-empty list of two-element matches. *)
Lemma handleCommandExecution_result (m : main.model) (r : main.model * main.Cmd) :
  main.handleCommandExecution m = Ok r ->
  r = (m, main.cmdNil) \/
  exists matches,
    matches <> [] /\
    Forall (fun mt => List.length mt = 2) matches /\
    r = (main.set_selectedCommand
           (main.set_commands (main.set_mode m main.ModeCommandSelect) matches) 0,
         main.cmdNil).
Proof.
  unfold main.handleCommandExecution. intros H.
  destruct (main.targetMsg m) as [target|]; [|discriminate]. cbn [bind] in H.
  destruct (String.eqb target ""); [left; now inversion H|].
  destruct (Z.eqb_spec (len (regexp.FindAllStringSubmatch target)) 0) as [|N];
    [left; now inversion H|].
  right. eexists. split; [|split; [|now inversion H]].
  - destruct (regexp.FindAllStringSubmatch target); [now elim N | discriminate].
  - apply Forall_map. unfold regexp.FindAllStringSubmatch.
    eapply Forall_impl; [|apply findAll_two]. apply trimMatch_two.
Qed.

Lemma editMessageCmd_world (w : main.World) (content : string) (i : Z) :
  fst (main.editMessageCmd w content i)
  = main.set_tmpFiles w (main.tmpFiles (fst (main.editMessageCmd w content i))).
Proof.
  unfold main.editMessageCmd.
  destruct (main.CreateTemp w); [|destruct w; reflexivity].
  cbn [main.WriteStringErr main.set_tmpFiles].
  destruct (main.WriteStringErr w); reflexivity.
Qed.

(** The results of the calls met along a path, made explicit. *)
Ltac results :=
  repeat match goal with
         | X : main.save _ _ _ = (?w1, ?m1) |- _ =>
             apply save_result in X;
             let Xw := fresh "Xw" in
             let Xm := fresh "Xm" in
             destruct X as [Xw [Xm|[? Xm]]]; subst w1; subst m1
         | R : main.handleCommandExecution _ = Ok ?r |- _ =>
             apply handleCommandExecution_result in R;
             let Xr := fresh "Xr" in
             destruct R as [Xr|(? & ? & ? & Xr)]; subst r
         end.

(** The end of a path: the step [H] returned [(w', m', c)]. *)
Ltac leaf H w' m' c :=
  let Hw := fresh "Hw" in
  let Hm := fresh "Hm" in
  let Hc := fresh "Hc" in
  injection H as Hw Hm Hc; try subst w'; try subst m'; try subst c.

(** A field read after an assignment: the field as it was, or the value
    assigned. *)
Lemma setter_other {A B : Type} (p : main.model -> A) (s : main.model -> B -> main.model)
    (x : main.model) (v : B) :
  (forall y u, p (s y u) = p y) -> p (s x v) = p x.
Proof. intros H. apply H. Qed.

Lemma setter_same {B : Type} (p : main.model -> B) (s : main.model -> B -> main.model)
    (x : main.model) (v : B) :
  (forall y u, p (s y u) = u) -> p (s x v) = v.
Proof. intros H. apply H. Qed.

(** The fields of a model written as assignments over another one; local
    definitions are unfolded one at a time, as they are met. *)
Ltac fields :=
  repeat first
    [ progress cbn [fst snd main.set_conv_Messages main.set_conv_Summary
                    storage.Messages storage.Summary storage.ID storage.CreatedAt
                    main.dir main.tmpFiles main.set_dir main.set_tmpFiles]
    | match goal with
      | |- context [?p (main.set_textInput ?x ?v)] =>
          first [ rewrite (setter_other p main.set_textInput x v (fun _ _ => eq_refl))
                | rewrite (setter_same p main.set_textInput x v (fun _ _ => eq_refl)) ]
      | |- context [?p (main.set_viewport ?x ?v)] =>
          first [ rewrite (setter_other p main.set_viewport x v (fun _ _ => eq_refl))
                | rewrite (setter_same p main.set_viewport x v (fun _ _ => eq_refl)) ]
      | |- context [?p (main.set_err ?x ?v)] =>
          first [ rewrite (setter_other p main.set_err x v (fun _ _ => eq_refl))
                | rewrite (setter_same p main.set_err x v (fun _ _ => eq_refl)) ]
      | |- context [?p (main.set_conversation ?x ?v)] =>
          first [ rewrite (setter_other p main.set_conversation x v (fun _ _ => eq_refl))
                | rewrite (setter_same p main.set_conversation x v (fun _ _ => eq_refl)) ]
      | |- context [?p (main.set_mode ?x ?v)] =>
          first [ rewrite (setter_other p main.set_mode x v (fun _ _ => eq_refl))
                | rewrite (setter_same p main.set_mode x v (fun _ _ => eq_refl)) ]
      | |- context [?p (main.set_messages ?x ?v)] =>
          first [ rewrite (setter_other p main.set_messages x v (fun _ _ => eq_refl))
                | rewrite (setter_same p main.set_messages x v (fun _ _ => eq_refl)) ]
      | |- context [?p (main.set_cursorIndex ?x ?v)] =>
          first [ rewrite (setter_other p main.set_cursorIndex x v (fun _ _ => eq_refl))
                | rewrite (setter_same p main.set_cursorIndex x v (fun _ _ => eq_refl)) ]
      | |- context [?p (main.set_conversations ?x ?v)] =>
          first [ rewrite (setter_other p main.set_conversations x v (fun _ _ => eq_refl))
                | rewrite (setter_same p main.set_conversations x v (fun _ _ => eq_refl)) ]
      | |- context [?p (main.set_selectedConv ?x ?v)] =>
          first [ rewrite (setter_other p main.set_selectedConv x v (fun _ _ => eq_refl))
                | rewrite (setter_same p main.set_selectedConv x v (fun _ _ => eq_refl)) ]
      | |- context [?p (main.set_spinner ?x ?v)] =>
          first [ rewrite (setter_other p main.set_spinner x v (fun _ _ => eq_refl))
                | rewrite (setter_same p main.set_spinner x v (fun _ _ => eq_refl)) ]
      | |- context [?p (main.set_isLoading ?x ?v)] =>
          first [ rewrite (setter_other p main.set_isLoading x v (fun _ _ => eq_refl))
                | rewrite (setter_same p main.set_isLoading x v (fun _ _ => eq_refl)) ]
      | |- context [?p (main.set_height ?x ?v)] =>
          first [ rewrite (setter_other p main.set_height x v (fun _ _ => eq_refl))
                | rewrite (setter_same p main.set_height x v (fun _ _ => eq_refl)) ]
      | |- context [?p (main.set_width ?x ?v)] =>
          first [ rewrite (setter_other p main.set_width x v (fun _ _ => eq_refl))
                | rewrite (setter_same p main.set_width x v (fun _ _ => eq_refl)) ]
      | |- context [?p (main.set_commands ?x ?v)] =>
          first [ rewrite (setter_other p main.set_commands x v (fun _ _ => eq_refl))
                | rewrite (setter_same p main.set_commands x v (fun _ _ => eq_refl)) ]
      | |- context [?p (main.set_selectedCommand ?x ?v)] =>
          first [ rewrite (setter_other p main.set_selectedCommand x v (fun _ _ => eq_refl))
                | rewrite (setter_same p main.set_selectedCommand x v (fun _ _ => eq_refl)) ]
      | |- context [?p (main.set_ready ?x ?v)] =>
          first [ rewrite (setter_other p main.set_ready x v (fun _ _ => eq_refl))
                | rewrite (setter_same p main.set_ready x v (fun _ _ => eq_refl)) ]
      | |- context [?p (main.set_lastLoadedConv ?x ?v)] =>
          first [ rewrite (setter_other p main.set_lastLoadedConv x v (fun _ _ => eq_refl))
                | rewrite (setter_same p main.set_lastLoadedConv x v (fun _ _ => eq_refl)) ]
      | |- context [?p (main.onViewport ?f ?x)] =>
          rewrite (frame_other p _ _ (onViewport_frame f x) (fun _ _ => eq_refl))
      | |- context [?p (main.updateViewport ?E ?x)] =>
          rewrite (frame_other p _ _ (updateViewport_frame E x) (fun _ _ => eq_refl))
      | |- context [?p (main.ensureMessageVisible ?E ?x ?i)] =>
          rewrite (frame_other p _ _ (ensureMessageVisible_frame E x i)
                     (fun _ _ => eq_refl))
      | |- context [?p (main.ensureConversationVisible ?E ?x ?i)] =>
          rewrite (frame_other p _ _ (ensureConversationVisible_frame E x i)
                     (fun _ _ => eq_refl))
      | |- context [main.setSummary ?x] =>
          unfold main.setSummary; destruct (storage.firstUser (main.messages x)) eqn:?
      | |- context [?p (if ?b then _ else _)] =>
          let B := fresh "B" in destruct b eqn:B
      | v := _ |- _ => progress unfold v
      end ].

(** The start of every proof along [Update]: the step is [H], the model
    after the spinner is [m0]; [P] says what [m0] inherits from [m]. *)
Ltac start_update H E m msg m0 :=
  unfold main.Update in H;
  fold (afterSpinner E m msg) in H;
  pose proof (afterSpinner_spinner_only E m msg) as A;
  set (m0 := afterSpinner E m msg) in *.

(** One step keeps conversation and history in step. *)
Lemma sync_step (E : main.Env) (w w' : main.World)
    (m m' : main.model) (msg : main.Msg) (c : main.Cmd) :
  main.Update E w m msg = Ok (w', m', c) ->
  synced m -> synced m'.
Proof.
  unfold synced. intros H S.
  unfold main.Update in H. fold (afterSpinner E m msg) in H.
  pose proof (afterSpinner_spinner_only E m msg) as A.
  set (m0 := afterSpinner E m msg) in *.
  assert (S0 : storage.Messages (main.conversation m0) = main.messages m0)
    by (now rewrite A).
  clear A S. clearbody m0.
  destruct msg as [W Hh|t|k|resp e|i ed e|out e|off|tag];
    unfold_update H; walk H; leaf H w' m' c; results; fields;
    first [exact S0 | reflexivity].
Qed.

(** X9. Every step of [Update] keeps the conversation and the history in
    step: when the conversation holds the messages of the model before an
    event, it does after it. *)
Theorem Update_keeps_conversation_in_sync (E : main.Env) (w w' : main.World)
    (m m' : main.model) (msg : main.Msg) (c : main.Cmd) :
  main.Update E w m msg = Ok (w', m', c) ->
  synced m -> synced m'.
Proof. apply sync_step. Qed.

Lemma len_pos {A : Type} (l : list A) : l <> [] -> (0 < len l)%Z.
Proof. destruct l; [congruence|]. unfold len. simpl. lia. Qed.

(** One step keeps the selection list usable. *)
Lemma selection_step (E : main.Env) (w w' : main.World)
    (m m' : main.model) (msg : main.Msg) (c : main.Cmd) :
  main.Update E w m msg = Ok (w', m', c) ->
  selectionValid m -> selectionValid m'.
Proof.
  unfold selectionValid. intros H S.
  unfold main.Update in H. fold (afterSpinner E m msg) in H.
  pose proof (afterSpinner_spinner_only E m msg) as A.
  set (m0 := afterSpinner E m msg) in *.
  remember (main.mode m0) as md0 eqn:Emd.
  assert (S0 : md0 = main.ModeCommandSelect ->
               main.commands m0 <> [] /\
               (0 <= main.selectedCommand m0 < len (main.commands m0))%Z /\
               Forall (fun mt => List.length mt = 2) (main.commands m0))
    by (subst md0; now rewrite A).
  clear A S. clearbody m0.
  destruct msg as [W Hh|t|k|resp e|i ed e|out e|off|tag];
    unfold_update H; walk H; leaf H w' m' c; results; fields;
    try (intros D; discriminate D);
    try (intros D; apply S0; congruence).
  all: intros D;
    first [ destruct S0 as (N & R & F); [congruence|];
            repeat split; try assumption; cases_Z; try discriminate; lia
          | repeat split; try assumption;
            match goal with N : ?x <> [] |- _ => apply len_pos in N; lia end ].
Qed.

(** X10. The selection list stays usable along every step: whenever the
    engine is in [ModeCommandSelect] after an event, the list is not
    empty, the selection is one of its indices and every entry holds its
    command. *)
Theorem Update_keeps_selection_valid (E : main.Env) (w w' : main.World)
    (m m' : main.model) (msg : main.Msg) (c : main.Cmd) :
  main.Update E w m msg = Ok (w', m', c) ->
  selectionValid m -> selectionValid m'.
Proof. apply selection_step. Qed.

Lemma Update_lsModel_CtrlX :
  main.Update demoEnv demoWorld lsModel (key tea.KeyCtrlX)
    = Ok (demoWorld, lsSelectModel, main.cmdNil).
Proof. vm_compute. reflexivity. Qed.

Lemma Update_keeps_selection_valid_lsModel : selectionValid lsSelectModel.
Proof.
  apply (Update_keeps_selection_valid demoEnv demoWorld demoWorld lsModel lsSelectModel
           (key tea.KeyCtrlX) main.cmdNil Update_lsModel_CtrlX).
  intros D. discriminate D.
Defined.

Lemma Update_keeps_conversation_in_sync_lsModel : synced lsSelectModel.
Proof.
  apply (Update_keeps_conversation_in_sync demoEnv demoWorld demoWorld lsModel
           lsSelectModel (key tea.KeyCtrlX) main.cmdNil Update_lsModel_CtrlX).
  reflexivity.
Defined.

(** X11. A recorded error stays: no step of [Update] sets [m.err] back to
    nil. *)
Theorem Update_never_clears_error (E : main.Env) (w w' : main.World)
    (m m' : main.model) (msg : main.Msg) (c : main.Cmd) :
  main.Update E w m msg = Ok (w', m', c) ->
  main.err m <> None -> main.err m' <> None.
Proof.
  intros H S.
  unfold main.Update in H. fold (afterSpinner E m msg) in H.
  pose proof (afterSpinner_spinner_only E m msg) as A.
  set (m0 := afterSpinner E m msg) in *.
  assert (S0 : main.err m0 <> None) by (now rewrite A).
  clear A S. clearbody m0.
  destruct msg as [W Hh|t|k|resp e|i ed e|out e|off|tag];
    unfold_update H; walk H; leaf H w' m' c; results; fields;
    first [exact S0 | discriminate].
Qed.

Lemma editMessageCmd_dir (w w1 : main.World) (content : string) (i : Z) (c1 : main.Cmd) :
  main.editMessageCmd w content i = (w1, c1) -> main.dir w1 = main.dir w.
Proof.
  intros X. pose proof (editMessageCmd_world w content i) as Q.
  rewrite X in Q. simpl in Q. now rewrite Q.
Qed.

(** X12. [Update] writes to the storage directory exactly when it handles
    a completion result, an edit commit or a command output that carries no
    error: after such an event the directory is what [SaveConversation]
    gives for the conversation of the new model, so that, when the
    conversation can be encoded and written and its file name holds no
    path separator, the directory holds the encoded conversation under
    that name; after every other event the directory is as before. *)
Theorem Update_saves_after_three_events (E : main.Env) (w w' : main.World)
    (m m' : main.model) (msg : main.Msg) (c : main.Cmd) :
  main.Update E w m msg = Ok (w', m', c) ->
  main.dir w' =
    (if savesConversation msg
     then fst (storage.SaveConversation (main.codec E) (main.dir w) (main.conversation m'))
     else main.dir w) /\
  (savesConversation msg = true ->
   forall data,
     storage.json_MarshalIndent (main.codec E) (main.conversation m') = inl data ->
     storage.WriteFileErr (main.dir w) = None ->
     strings.Count (storage.fileName (main.codec E) (main.conversation m'))
                   filepath.Separator = 0 ->
     In {| storage.Name := storage.fileName (main.codec E) (main.conversation m');
           storage.Data := inl data |}
        (storage.Files (main.dir w'))).
Proof.
  intros H.
  assert (D : main.dir w' =
              (if savesConversation msg
               then fst (storage.SaveConversation (main.codec E) (main.dir w)
                           (main.conversation m'))
               else main.dir w)).
  { unfold main.Update in H. fold (afterSpinner E m msg) in H.
    set (m0 := afterSpinner E m msg) in *. clearbody m0.
    destruct msg as [W Hh|t|k|resp e|i ed e|out e|off|tag];
      unfold_update H; walk H; leaf H w' m' c;
      try match goal with
          | X : main.editMessageCmd _ _ _ = _ |- _ => apply editMessageCmd_dir in X
          end;
      results; cbn [savesConversation]; fields;
      first [reflexivity | assumption]. }
  split; [exact D|].
  intros S data Hd Hw Hn. rewrite D, S.
  now apply SaveConversation_writes.
Qed.

(** A reply to the first scenario is written to the empty directory. *)
Lemma Update_saves_after_three_events_reply :
  match main.Update demoEnv demoWorld sizedLsModel (main.apiResponseMsg "done" None) with
  | Ok (w', m', _) =>
      main.dir w' =
        fst (storage.SaveConversation demoCodec emptyDir (main.conversation m')) /\
      (savesConversation (main.apiResponseMsg "done" None) = true ->
       forall data,
         storage.json_MarshalIndent demoCodec (main.conversation m') = inl data ->
         storage.WriteFileErr emptyDir = None ->
         strings.Count (storage.fileName demoCodec (main.conversation m'))
                       filepath.Separator = 0 ->
         In {| storage.Name := storage.fileName demoCodec (main.conversation m');
               storage.Data := inl data |}
            (storage.Files (main.dir w')))
  | Panic _ => False
  end.
Proof.
  destruct (main.Update demoEnv demoWorld sizedLsModel (main.apiResponseMsg "done" None))
    as [[[w' m'] c]|why] eqn:U.
  - exact (Update_saves_after_three_events demoEnv demoWorld w' sizedLsModel m'
             (main.apiResponseMsg "done" None) c U).
  - vm_compute in U. discriminate U.
Defined.

(** What that step leaves in the directory. *)
Lemma reply_is_written :
  exists w' m' c,
    main.Update demoEnv demoWorld sizedLsModel (main.apiResponseMsg "done" None)
      = Ok (w', m', c) /\
    storage.Files (main.dir w')
      = [{| storage.Name := "1000_id-1.convo"; storage.Data := inl "conv:id-1" |}].
Proof.
  destruct (main.Update demoEnv demoWorld sizedLsModel (main.apiResponseMsg "done" None))
    as [[[w' m'] c]|why] eqn:U; vm_compute in U; [|discriminate U].
  injection U as <- <- <-. do 3 eexists. split; reflexivity.
Qed.

Lemma insertConv_In (c x : storage.Conversation) (l : list storage.Conversation) :
  In x (main.insertConv c l) <-> x = c \/ In x l.
Proof.
  induction l as [|d l IH]; simpl; [intuition congruence|].
  destruct (storage.CreatedAt d <=? storage.CreatedAt c)%Z; simpl;
    [intuition congruence|].
  rewrite IH. intuition congruence.
Qed.

Lemma sortConvs_In (x : storage.Conversation) (l : list storage.Conversation) :
  In x (main.sortConvs l) <-> In x l.
Proof.
  unfold main.sortConvs. induction l as [|c l IH]; simpl; [reflexivity|].
  rewrite insertConv_In, IH. intuition congruence.
Qed.

Lemma insertConv_length (c : storage.Conversation) (l : list storage.Conversation) :
  List.length (main.insertConv c l) = S (List.length l).
Proof.
  induction l as [|d l IH]; simpl; [reflexivity|].
  destruct (storage.CreatedAt d <=? storage.CreatedAt c)%Z; simpl; [reflexivity|].
  now rewrite IH.
Qed.

Lemma sortConvs_len (l : list storage.Conversation) : len (main.sortConvs l) = len l.
Proof.
  unfold len, main.sortConvs. f_equal.
  induction l as [|c l IH]; simpl; [reflexivity|].
  now rewrite insertConv_length, IH.
Qed.

(** The ways one step changes the history. *)
Lemma history_cases (E : main.Env) (w w' : main.World)
    (m m' : main.model) (msg : main.Msg) (c : main.Cmd) :
  main.Update E w m msg = Ok (w', m', c) ->
  main.messages m' = main.messages m \/
  (exists x,
     main.messages m' = (main.messages m ++ [x])%list /\
     (storage.Role x = "user" \/ storage.Role x = "assistant")) \/
  (exists i edited old,
     msg = main.editMessageMsg i edited None /\
     index (main.messages m) i = Ok old /\
     main.messages m' =
       slice_to (assign (main.messages m) (Z.to_nat i) (main.set_msg_Content old edited))
                (i + 1)) \/
  (exists k,
     msg = main.KeyMsg k /\ tea.String_ k = "ctrl+n" /\
     main.messages m' = [main.systemMsg w]) \/
  (exists k conv,
     msg = main.KeyMsg k /\
     main.messages m' = storage.Messages conv /\
     ((tea.String_ k = "ctrl+l" /\
       exists convs,
         storage.ListConversations (main.codec E) (main.dir w) = inl convs /\
         In conv convs) \/
      (main.mode m = main.ModeHistory /\ tea.Type_ k = tea.KeyEnter /\
       In conv (main.conversations m)))).
Proof.
  intros H.
  unfold main.Update in H. fold (afterSpinner E m msg) in H.
  pose proof (afterSpinner_spinner_only E m msg) as A.
  set (m0 := afterSpinner E m msg) in *.
  replace (main.messages m) with (main.messages m0) by (now rewrite A).
  replace (main.mode m) with (main.mode m0) by (now rewrite A).
  replace (main.conversations m) with (main.conversations m0) by (now rewrite A).
  clear A. clearbody m0.
  destruct msg as [W Hh|t|k|resp e|i ed e|out e|off|tag];
    unfold_update H; walk H; leaf H w' m' c; results; fields;
    try (left; reflexivity);
    try (right; left; eexists; split; [reflexivity | simpl; auto]; fail);
    try (right; right; left; do 3 eexists;
         split; [reflexivity|]; split; [eassumption | reflexivity]).
  all: try (right; right; right; left; eexists;
            split; [reflexivity|]; split; [now apply String.eqb_eq | reflexivity]).
  all: right; right; right; right; do 2 eexists;
    (split; [reflexivity|]); (split; [reflexivity|]);
    match goal with
    | R : index (main.sortConvs _) _ = Ok _ |- _ =>
        apply index_In in R; apply (proj1 (sortConvs_In _ _)) in R
    end;
    first [ solve [ left; split;
                    [ now apply String.eqb_eq
                    | eexists; split; [reflexivity | assumption] ] ]
          | solve [ right; repeat split; first [reflexivity | assumption] ] ].
Qed.

(** X13. One step changes the history in one of five ways: not at all; by
    one appended user or assistant message; by the edit commit's
    replacement and cut; to the system message alone (Ctrl+N); or as a
    whole when a conversation is loaded: to the messages of a conversation
    that [ListConversations] reads from the directory (Ctrl+L), or from the
    history list (Enter in [ModeHistory], the list not being empty). *)
Theorem Update_changes_history_in_five_ways (E : main.Env) (w w' : main.World)
    (m m' : main.model) (msg : main.Msg) (c : main.Cmd) :
  main.Update E w m msg = Ok (w', m', c) ->
  main.messages m' = main.messages m \/
  (exists x,
     main.messages m' = (main.messages m ++ [x])%list /\
     (storage.Role x = "user" \/ storage.Role x = "assistant")) \/
  (exists i edited old,
     msg = main.editMessageMsg i edited None /\
     index (main.messages m) i = Ok old /\
     main.messages m' =
       slice_to (assign (main.messages m) (Z.to_nat i) (main.set_msg_Content old edited))
                (i + 1)) \/
  (exists k,
     msg = main.KeyMsg k /\ tea.String_ k = "ctrl+n" /\
     main.messages m' = [main.systemMsg w]) \/
  (exists k,
     msg = main.KeyMsg k /\
     ((tea.String_ k = "ctrl+l" /\
       exists convs conv,
         storage.ListConversations (main.codec E) (main.dir w) = inl convs /\
         In conv convs /\
         main.messages m' = storage.Messages conv) \/
      (main.mode m = main.ModeHistory /\ tea.Type_ k = tea.KeyEnter /\
       main.conversations m <> []))).
Proof.
  intros H.
  destruct (history_cases E w w' m m' msg c H)
    as [U|[A|[Ed|[N|(k & conv & K & M & [(L & convs & Lc & I)|(Hm & T & I)])]]]];
    auto.
  - do 4 right. exists k. split; [exact K|]. left. split; [exact L|].
    exists convs, conv. auto.
  - do 4 right. exists k. split; [exact K|]. right.
    repeat split; [exact Hm | exact T|].
    intros Q. rewrite Q in I. exact I.
Qed.

(** The edit commit of the second scenario: the third way. *)
Lemma Update_changes_history_in_five_ways_edit :
  match main.Update demoEnv demoWorld sizedHiModel (main.editMessageMsg 1 "bye" None) with
  | Ok (w', m', _) =>
      main.messages m' = main.messages sizedHiModel \/
      (exists x,
         main.messages m' = (main.messages sizedHiModel ++ [x])%list /\
         (storage.Role x = "user" \/ storage.Role x = "assistant")) \/
      (exists i edited old,
         main.editMessageMsg 1 "bye" None = main.editMessageMsg i edited None /\
         index (main.messages sizedHiModel) i = Ok old /\
         main.messages m' =
           slice_to (assign (main.messages sizedHiModel) (Z.to_nat i)
                       (main.set_msg_Content old edited))
                    (i + 1)) \/
      (exists k,
         main.editMessageMsg 1 "bye" None = main.KeyMsg k /\ tea.String_ k = "ctrl+n" /\
         main.messages m' = [main.systemMsg demoWorld]) \/
      (exists k,
         main.editMessageMsg 1 "bye" None = main.KeyMsg k /\
         ((tea.String_ k = "ctrl+l" /\
           exists convs conv,
             storage.ListConversations (main.codec demoEnv) (main.dir demoWorld)
               = inl convs /\
             In conv convs /\
             main.messages m' = storage.Messages conv) \/
          (main.mode sizedHiModel = main.ModeHistory /\ tea.Type_ k = tea.KeyEnter /\
           main.conversations sizedHiModel <> [])))
  | Panic _ => False
  end.
Proof.
  destruct (main.Update demoEnv demoWorld sizedHiModel (main.editMessageMsg 1 "bye" None))
    as [[[w' m'] c]|why] eqn:U.
  - exact (Update_changes_history_in_five_ways demoEnv demoWorld w' sizedHiModel m'
             (main.editMessageMsg 1 "bye" None) c U).
  - vm_compute in U. discriminate U.
Defined.

Lemma assign_hd {A : Type} (l : list A) (i : nat) (v s : A) (rest : list A) (P : A -> Prop) :
  l = s :: rest -> P s -> (i = 0 -> P v) ->
  exists s' rest', firstn (S i) (assign l i v) = s' :: rest' /\ P s'.
Proof.
  intros -> Ps Pv. destruct i; simpl; eauto.
Qed.

(** X14. The system message stays in front: when the history starts with
    a system message it still does after every event that does not load a
    stored conversation. *)
Theorem Update_keeps_system_message_first (E : main.Env) (w w' : main.World)
    (m m' : main.model) (msg : main.Msg) (c : main.Cmd) :
  main.Update E w m msg = Ok (w', m', c) ->
  ~ loadsConversation m msg ->
  startsWithSystem (main.messages m) ->
  startsWithSystem (main.messages m').
Proof.
  intros H NL (s & rest & Ms & Rs).
  destruct (history_cases E w w' m m' msg c H)
    as [U|[(x & A & _)|[(i & ed & old & -> & I & Mm)|[(k & -> & _ & N)|
        (k & conv & -> & _ & L)]]]].
  - rewrite U. now exists s, rest.
  - rewrite A, Ms. exists s, (rest ++ [x])%list. auto.
  - rewrite Mm. unfold slice_to.
    pose proof (index_Ok_range _ _ _ I) as R.
    replace (Z.to_nat (i + 1)) with (S (Z.to_nat i)) by lia.
    apply (assign_hd _ _ _ s rest (fun x => storage.Role x = "system") Ms Rs).
    intros Z0. apply index_Ok in I as [_ N]. rewrite Z0, Ms in N.
    injection N as <-. exact Rs.
  - rewrite N. exists (main.systemMsg w), []. auto.
  - exfalso. apply NL. exists k. split; [reflexivity|].
    destruct L as [[L _]|(L1 & L2 & _)]; auto.
Qed.

Lemma Update_keeps_system_message_first_lsModel :
  startsWithSystem (main.messages lsSelectModel).
Proof.
  apply (Update_keeps_system_message_first demoEnv demoWorld demoWorld lsModel
           lsSelectModel (key tea.KeyCtrlX) main.cmdNil Update_lsModel_CtrlX).
  - intros (k & K & [L|[L _]]); injection K as <-; discriminate L.
  - do 2 eexists. split; reflexivity.
Defined.

(** A valid cursor stays valid. *)
Lemma cursor_step (E : main.Env) (w w' : main.World)
    (m m' : main.model) (msg : main.Msg) (c : main.Cmd) :
  main.Update E w m msg = Ok (w', m', c) ->
  main.messages m <> [] ->
  (forall k, msg = main.KeyMsg k -> tea.String_ k <> "ctrl+l") ->
  cursorValid m -> cursorValid m'.
Proof.
  unfold cursorValid. intros H NE NL S.
  unfold main.Update in H. fold (afterSpinner E m msg) in H.
  pose proof (afterSpinner_spinner_only E m msg) as A.
  set (m0 := afterSpinner E m msg) in *.
  remember (main.mode m0) as md0 eqn:Emd.
  assert (S0 : md0 = main.ModeEditing ->
               (0 <= main.cursorIndex m0 < len (main.messages m0))%Z)
    by (subst md0; now rewrite A).
  assert (NE0 : (0 < len (main.messages m0))%Z) by (rewrite A; now apply len_pos).
  clear A S NE. clearbody m0.
  destruct msg as [W Hh|t|k|resp e|i ed e|out e|off|tag];
    unfold_update H; walk H; leaf H w' m' c; results; fields;
    try (intros D; discriminate D);
    try (intros D; apply S0; congruence);
    try (exfalso; eapply NL; [reflexivity | now apply String.eqb_eq]).
  all: intros D; rewrite ?len_app;
    try (assert (Sx : (0 <= main.cursorIndex m0 < len (main.messages m0))%Z)
           by (apply S0; congruence));
    unfold len in *; simpl List.length in *; cases_Z; try discriminate; lia.
Qed.

(** Edit navigation starts on the last message. *)
Lemma cursor_enters_at_last (E : main.Env) (w w' : main.World)
    (m m' : main.model) (msg : main.Msg) (c : main.Cmd) :
  main.Update E w m msg = Ok (w', m', c) ->
  main.mode m <> main.ModeEditing ->
  main.mode m' = main.ModeEditing ->
  main.cursorIndex m' = (len (main.messages m') - 1)%Z.
Proof.
  intros H N.
  unfold main.Update in H. fold (afterSpinner E m msg) in H.
  pose proof (afterSpinner_spinner_only E m msg) as A.
  set (m0 := afterSpinner E m msg) in *.
  remember (main.mode m0) as md0 eqn:Emd.
  assert (N0 : md0 <> main.ModeEditing) by (subst md0; now rewrite A).
  clear A N. clearbody m0.
  destruct msg as [W Hh|t|k|resp e|i ed e|out e|off|tag];
    unfold_update H; walk H; leaf H w' m' c; results; fields;
    try (intros D; discriminate D);
    try (intros D; exfalso; apply N0; congruence);
    try (intros _; reflexivity).
Qed.

(** X15. In edit navigation the cursor stays an index of the history:
    when the history is not empty and the event is not Ctrl+L, a valid
    cursor is valid after the step; and a step that enters edit navigation
    puts the cursor on the last message. *)
Theorem Update_keeps_cursor_valid (E : main.Env) (w w' : main.World)
    (m m' : main.model) (msg : main.Msg) (c : main.Cmd) :
  main.Update E w m msg = Ok (w', m', c) ->
  main.messages m <> [] ->
  (forall k, msg = main.KeyMsg k -> tea.String_ k <> "ctrl+l") ->
  cursorValid m ->
  cursorValid m' /\
  (main.mode m <> main.ModeEditing -> main.mode m' = main.ModeEditing ->
   main.cursorIndex m' = (len (main.messages m') - 1)%Z).
Proof.
  intros H NE NL S. split.
  - exact (cursor_step E w w' m m' msg c H NE NL S).
  - exact (cursor_enters_at_last E w w' m m' msg c H).
Qed.

Lemma Update_keeps_cursor_valid_hiModel :
  cursorValid (main.updateViewport demoEnv
                 (main.set_cursorIndex (main.set_mode hiModel main.ModeEditing) 2)) /\
  (main.mode hiModel <> main.ModeEditing ->
   main.mode (main.updateViewport demoEnv
                (main.set_cursorIndex (main.set_mode hiModel main.ModeEditing) 2))
     = main.ModeEditing ->
   main.cursorIndex (main.updateViewport demoEnv
                (main.set_cursorIndex (main.set_mode hiModel main.ModeEditing) 2))
     = (len (main.messages (main.updateViewport demoEnv
                (main.set_cursorIndex (main.set_mode hiModel main.ModeEditing) 2))) - 1)%Z).
Proof.
  apply (Update_keeps_cursor_valid demoEnv demoWorld demoWorld hiModel _
           (key tea.KeyCtrlJ) main.cmdNil eq_refl).
  - discriminate.
  - intros k K. injection K as <-. discriminate.
  - intros D. discriminate D.
Defined.

(** X16. The selection of the history list stays one of its indices, and
    the Ctrl+L counter at least -1, along every step taken with a viewport
    height that is not negative. *)
Theorem Update_keeps_history_selection_valid (E : main.Env) (w w' : main.World)
    (m m' : main.model) (msg : main.Msg) (c : main.Cmd) :
  main.Update E w m msg = Ok (w', m', c) ->
  (0 <= viewport.Height (main.viewport m))%Z ->
  historyValid m -> historyValid m'.
Proof.
  unfold historyValid. intros H Hv S.
  unfold main.Update in H. fold (afterSpinner E m msg) in H.
  pose proof (afterSpinner_spinner_only E m msg) as A.
  set (m0 := afterSpinner E m msg) in *.
  assert (S0 : (main.conversations m0 = [] \/
                (0 <= main.selectedConv m0 < len (main.conversations m0))%Z) /\
               (-1 <= main.lastLoadedConv m0)%Z) by (now rewrite A).
  assert (Hv0 : (0 <= viewport.Height (main.viewport m0))%Z) by (now rewrite A).
  clear A S Hv. clearbody m0.
  destruct msg as [W Hh|t|k|resp e|i ed e|out e|off|tag];
    unfold_update H; walk H; leaf H w' m' c; results; fields;
    try exact S0.
  all: destruct S0 as [[S0|S0] L0]; (split; [|cases_Z; try discriminate; lia]);
    first [ left; assumption
          | right; cases_Z; try discriminate; lia
          | match goal with
            | |- ?l = [] \/ _ =>
                destruct l; [left; reflexivity | right; unfold len; simpl; lia]
            end ].
Qed.

Lemma Update_keeps_history_selection_valid_End :
  historyValid
    (main.ensureConversationVisible demoEnv (main.set_selectedConv historyListModel 9) 9).
Proof.
  apply (Update_keeps_history_selection_valid demoEnv demoWorld demoWorld
           historyListModel _ (key tea.KeyEnd) main.cmdNil eq_refl).
  - vm_compute. discriminate.
  - split; [right; vm_compute; split; [discriminate | reflexivity]
           | vm_compute; discriminate].
Defined.

Lemma index_Panic {A : Type} (l : list A) (i : Z) (why : string) :
  index l i = Panic why -> ~ (0 <= i < len l)%Z.
Proof.
  intros H R. destruct (index_in_range l i R) as [a Q]. congruence.
Qed.

Lemma handleCommandExecution_Panic (m : main.model) (why : string) :
  main.handleCommandExecution m = Panic why ->
  main.mode m = main.ModeEditing /\
  ~ (0 <= main.cursorIndex m < len (main.messages m))%Z.
Proof.
  unfold main.handleCommandExecution, main.targetMsg. intros H.
  destruct (main.mode m); cbn [main.Mode_eqb bind] in H;
    try (walk H; discriminate H).
  split; [reflexivity|].
  destruct (index (main.messages m) (main.cursorIndex m)) eqn:I.
  - cbn [bind] in H. walk H; discriminate H.
  - now apply index_Panic in I.
Qed.

(** X17. The index expressions of [Update] and [handleCommandExecution]
    stay in range: when, before an event, the cursor of edit navigation,
    the selection of the command list and the selection of the history
    list are valid and the index of an edit commit is an index of the
    history, none of [m.messages[...]], [m.commands[...]],
    [conversations[...]] and [sortedConvs[...]] is out of range: the
    model of the step, in which these are the only panics, gives a result.
    (What can fail inside the viewport widget, as a jump to the bottom
    with a negative height, is outside the model and this statement.) *)
Theorem Update_indexes_in_range (E : main.Env) (w : main.World) (m : main.model)
    (msg : main.Msg) :
  cursorValid m -> selectionValid m -> historyValid m ->
  (forall i edited, msg = main.editMessageMsg i edited None ->
                    (0 <= i < len (main.messages m))%Z) ->
  exists w' m' c, main.Update E w m msg = Ok (w', m', c).
Proof.
  unfold cursorValid, selectionValid, historyValid. intros C S Hi Ed.
  destruct (main.Update E w m msg) as [[[w' m'] c]|why] eqn:H; [eauto|exfalso].
  unfold main.Update in H. fold (afterSpinner E m msg) in H.
  pose proof (afterSpinner_spinner_only E m msg) as A.
  set (m0 := afterSpinner E m msg) in *.
  remember (main.mode m0) as md0 eqn:Emd.
  assert (C0 : md0 = main.ModeEditing ->
               (0 <= main.cursorIndex m0 < len (main.messages m0))%Z)
    by (subst md0; now rewrite A).
  assert (S0 : md0 = main.ModeCommandSelect ->
               main.commands m0 <> [] /\
               (0 <= main.selectedCommand m0 < len (main.commands m0))%Z /\
               Forall (fun mt => List.length mt = 2) (main.commands m0))
    by (subst md0; now rewrite A).
  assert (H0 : (main.conversations m0 = [] \/
                (0 <= main.selectedConv m0 < len (main.conversations m0))%Z) /\
               (-1 <= main.lastLoadedConv m0)%Z) by (now rewrite A).
  assert (Ed0 : forall i edited, msg = main.editMessageMsg i edited None ->
                                 (0 <= i < len (main.messages m0))%Z)
    by (now rewrite A).
  clear A C S Hi Ed. clearbody m0.
  destruct msg as [W Hh|t|k|resp e|i ed e|out e|off|tag];
    unfold_update H; walk H; try discriminate H.
  all: try match goal with
       | R : main.handleCommandExecution _ = Panic _ |- _ =>
           apply handleCommandExecution_Panic in R; destruct R as [R1 R2];
           apply R2, C0; congruence
       end.
  all: match goal with
       | R : index _ _ = Panic _ |- _ => apply index_Panic in R; apply R; clear R
       end.
  all: try (apply C0; congruence).
  all: try (apply (Ed0 _ _ eq_refl)).
  all: try (apply S0; congruence).
  all: try match goal with
       | R : index (main.commands _) _ = Ok ?a |- (0 <= 1 < len ?a)%Z =>
           apply index_In in R;
           destruct S0 as (_ & _ & F); [congruence|];
           rewrite Forall_forall in F; apply F in R; unfold len; rewrite R; lia
       end.
  all: rewrite ?sortConvs_len; fields; rewrite ?sortConvs_len;
    destruct H0 as [[Z0|Rg] L0];
    try (rewrite Z0 in *); unfold len in *; simpl List.length in *;
    repeat match goal with
           | B : (_ && _)%bool = true |- _ => apply andb_prop in B; destruct B
           end;
    cases_Z; try discriminate; lia.
Qed.

Lemma Update_indexes_in_range_sizedHiModel :
  exists w' m' c,
    main.Update demoEnv demoWorld sizedHiModel (main.editMessageMsg 1 "bye" None)
      = Ok (w', m', c).
Proof.
  apply (Update_indexes_in_range demoEnv demoWorld sizedHiModel
           (main.editMessageMsg 1 "bye" None)).
  - intros D. vm_compute in D. discriminate D.
  - intros D. vm_compute in D. discriminate D.
  - split; [left; vm_compute; reflexivity | vm_compute; discriminate].
  - intros i edited [= <- _]. vm_compute. split; [discriminate | reflexivity].
Defined.

Lemma Update_erroredModel_CtrlX :
  main.Update demoEnv demoWorld erroredModel (key tea.KeyCtrlX)
    = Ok (demoWorld, main.set_err lsSelectModel (Some "exit status 1"), main.cmdNil).
Proof. vm_compute. reflexivity. Qed.

Lemma Update_never_clears_error_erroredModel :
  main.err (main.set_err lsSelectModel (Some "exit status 1")) <> None.
Proof.
  apply (Update_never_clears_error demoEnv demoWorld demoWorld erroredModel
           (main.set_err lsSelectModel (Some "exit status 1"))
           (key tea.KeyCtrlX) main.cmdNil Update_erroredModel_CtrlX).
  discriminate.
Defined.

(** ** The temporary file of an edit *)

Lemma tmpRemove_idem (fs : list (string * string)) (name : string) :
  main.tmpRemove (main.tmpRemove fs name) name = main.tmpRemove fs name.
Proof.
  induction fs as [|[n d] t IH]; [reflexivity|].
  simpl. destruct (n =? name) eqn:Q; [exact IH|].
  simpl. rewrite Q. now rewrite IH.
Qed.

Lemma tmpRemove_tmpWrite (fs : list (string * string)) (name data : string) :
  main.tmpRemove (main.tmpWrite fs name data) name = main.tmpRemove fs name.
Proof.
  unfold main.tmpWrite. simpl. rewrite String.eqb_refl. apply tmpRemove_idem.
Qed.

Lemma tmpLookup_tmpWrite (fs : list (string * string)) (name data : string) :
  main.tmpLookup (main.tmpWrite fs name data) name = Some data.
Proof. unfold main.tmpWrite. simpl. now rewrite String.eqb_refl. Qed.

(** X18. The text of an edit goes through the temporary file and comes
    back: when the file can be created, written and read, [editMessageCmd]
    leaves a file holding the message and asks the runtime for the editor
    on it; whatever the editor leaves in the file is the text the callback
    reports, without an error, and afterwards the file is gone and the
    other temporary files are as before. *)
Theorem edit_goes_through_temp_file (w : main.World) (content edited name : string)
    (i : Z) :
  main.CreateTemp w = inl name ->
  main.WriteStringErr w = None ->
  main.ReadFileErr w = None ->
  exists w1 editor,
    main.editMessageCmd w content i = (w1, main.cmdExecEditor editor name i) /\
    main.tmpLookup (main.tmpFiles w1) name = Some content /\
    exists w3,
      main.editorExited
        (main.set_tmpFiles w1 (main.tmpWrite (main.tmpFiles w1) name edited))
        name i None
      = (w3, main.editMessageMsg i edited None) /\
      main.tmpExists w3 name = false /\
      main.tmpFiles w3 = main.tmpRemove (main.tmpFiles w) name.
Proof.
  intros C W R.
  unfold main.editMessageCmd. rewrite C. cbn [main.WriteStringErr main.set_tmpFiles].
  rewrite W. eexists. eexists. split; [reflexivity|].
  cbn [main.tmpFiles main.set_tmpFiles]. split; [apply tmpLookup_tmpWrite|].
  unfold main.editorExited, main.ReadFile.
  cbn [main.ReadFileErr main.tmpFiles main.set_tmpFiles]. rewrite R.
  rewrite tmpLookup_tmpWrite. eexists. split; [reflexivity|].
  unfold main.tmpExists. cbn [main.tmpFiles main.set_tmpFiles].
  rewrite !tmpRemove_tmpWrite. now rewrite tmpLookup_tmpRemove.
Qed.

Lemma edit_goes_through_temp_file_demoWorld :
  exists w1 editor,
    main.editMessageCmd demoWorld "hi" 1
      = (w1, main.cmdExecEditor editor "/tmp/gpt-term-edit-1.txt" 1%Z) /\
    main.tmpLookup (main.tmpFiles w1) "/tmp/gpt-term-edit-1.txt" = Some "hi" /\
    exists w3,
      main.editorExited
        (main.set_tmpFiles w1
           (main.tmpWrite (main.tmpFiles w1) "/tmp/gpt-term-edit-1.txt" "bye"))
        "/tmp/gpt-term-edit-1.txt" 1 None
      = (w3, main.editMessageMsg 1 "bye" None) /\
      main.tmpExists w3 "/tmp/gpt-term-edit-1.txt" = false /\
      main.tmpFiles w3
        = main.tmpRemove (main.tmpFiles demoWorld) "/tmp/gpt-term-edit-1.txt".
Proof.
  apply (edit_goes_through_temp_file demoWorld "hi" "bye" "/tmp/gpt-term-edit-1.txt" 1);
    reflexivity.
Defined.

(** Only Enter in edit navigation on a user message touches the
    temporary files. *)
Lemma temp_files_only_to_edit (E : main.Env) (w w' : main.World)
    (m m' : main.model) (msg : main.Msg) (c : main.Cmd) :
  main.Update E w m msg = Ok (w', m', c) ->
  main.tmpFiles w' = main.tmpFiles w \/
  (main.mode m = main.ModeEditing /\
   exists k old,
     msg = main.KeyMsg k /\ tea.Type_ k = tea.KeyEnter /\
     index (main.messages m) (main.cursorIndex m) = Ok old /\
     storage.Role old = "user" /\
     (w', c) = main.editMessageCmd w (storage.Content old) (main.cursorIndex m)).
Proof.
  intros H.
  unfold main.Update in H. fold (afterSpinner E m msg) in H.
  pose proof (afterSpinner_spinner_only E m msg) as A.
  set (m0 := afterSpinner E m msg) in *.
  assert (Am : main.mode m0 = main.mode m) by (now rewrite A).
  assert (Ai : main.messages m0 = main.messages m) by (now rewrite A).
  assert (Ac : main.cursorIndex m0 = main.cursorIndex m) by (now rewrite A).
  clear A. clearbody m0.
  remember (main.mode m0) as md0 eqn:Emd.
  destruct msg as [W Hh|t|k|resp e|i ed e|out e|off|tag];
    unfold_update H; walk H; leaf H w' m' c; results;
    first [ left; reflexivity
          | right ].
  all: split; [congruence|].
  all: match goal with
       | X : main.editMessageCmd _ _ _ = _, T : tea.Type_ _ = tea.KeyEnter,
         I : index _ _ = Ok ?old, R : (storage.Role ?old =? "user") = true |- _ =>
           apply String.eqb_eq in R; rewrite Ai, Ac in *;
           exists k, old; repeat split; first [assumption | now rewrite X]
       end.
Qed.

(** Enter in edit navigation on a user message starts the editor. *)
Lemma edit_starts (E : main.Env) (w : main.World) (m : main.model) (k : tea.Key)
    (old : storage.Message) :
  main.mode m = main.ModeEditing ->
  tea.Type_ k = tea.KeyEnter ->
  index (main.messages m) (main.cursorIndex m) = Ok old ->
  storage.Role old = "user" ->
  exists m',
    main.Update E w m (main.KeyMsg k)
    = Ok (fst (main.editMessageCmd w (storage.Content old) (main.cursorIndex m)), m',
          snd (main.editMessageCmd w (storage.Content old) (main.cursorIndex m))).
Proof.
  intros Hm T I R. unfold main.Update.
  fold (afterSpinner E m (main.KeyMsg k)).
  pose proof (afterSpinner_spinner_only E m (main.KeyMsg k)) as A.
  set (m0 := afterSpinner E m (main.KeyMsg k)) in *.
  assert (Hmode : main.mode m0 = main.ModeEditing) by (now rewrite A).
  assert (Hms : main.messages m0 = main.messages m) by (now rewrite A).
  assert (Hc : main.cursorIndex m0 = main.cursorIndex m) by (now rewrite A).
  clear A. clearbody m0.
  unfold main.updateKey, main.updateEditing.
  destruct (enter_is_no_global_key k T) as [S|S]; rewrite S;
    cbn [String.eqb Ascii.eqb Bool.eqb orb];
    rewrite Hmode, T, Hms, Hc, I; cbn [bind]; rewrite R;
    cbn [String.eqb Ascii.eqb Bool.eqb];
    destruct (main.editMessageCmd w (storage.Content old) (main.cursorIndex m));
    eexists; reflexivity.
Qed.

(** X19. [Update] touches the temporary files in one place, and there it
    always does: on Enter in edit navigation on a user message the world
    and the command of the step are those of [editMessageCmd] on that
    message; after every other event the temporary files are as before. *)
Theorem Update_writes_temp_file_only_to_edit (E : main.Env) (w w' : main.World)
    (m m' : main.model) (msg : main.Msg) (c : main.Cmd) :
  main.Update E w m msg = Ok (w', m', c) ->
  (forall k old,
     msg = main.KeyMsg k ->
     main.mode m = main.ModeEditing ->
     tea.Type_ k = tea.KeyEnter ->
     index (main.messages m) (main.cursorIndex m) = Ok old ->
     storage.Role old = "user" ->
     (w', c) = main.editMessageCmd w (storage.Content old) (main.cursorIndex m)) /\
  (main.tmpFiles w' = main.tmpFiles w \/
   (main.mode m = main.ModeEditing /\
    exists k old,
      msg = main.KeyMsg k /\ tea.Type_ k = tea.KeyEnter /\
      index (main.messages m) (main.cursorIndex m) = Ok old /\
      storage.Role old = "user" /\
      (w', c) = main.editMessageCmd w (storage.Content old) (main.cursorIndex m))).
Proof.
  intros H. split; [|exact (temp_files_only_to_edit E w w' m m' msg c H)].
  intros k old -> Hm T I R.
  destruct (edit_starts E w m k old Hm T I R) as [m1 U].
  rewrite U in H. injection H as <- _ <-.
  now destruct (main.editMessageCmd w (storage.Content old) (main.cursorIndex m)).
Qed.

(** Enter on the user's message of the second scenario. *)
Lemma Update_writes_temp_file_only_to_edit_hiModel :
  match main.Update demoEnv demoWorld hiEditingModel (key tea.KeyEnter) with
  | Ok (w', m', c) =>
      (forall k old,
         key tea.KeyEnter = main.KeyMsg k ->
         main.mode hiEditingModel = main.ModeEditing ->
         tea.Type_ k = tea.KeyEnter ->
         index (main.messages hiEditingModel) (main.cursorIndex hiEditingModel) = Ok old ->
         storage.Role old = "user" ->
         (w', c) = main.editMessageCmd demoWorld (storage.Content old)
                     (main.cursorIndex hiEditingModel)) /\
      (main.tmpFiles w' = main.tmpFiles demoWorld \/
       (main.mode hiEditingModel = main.ModeEditing /\
        exists k old,
          key tea.KeyEnter = main.KeyMsg k /\ tea.Type_ k = tea.KeyEnter /\
          index (main.messages hiEditingModel) (main.cursorIndex hiEditingModel) = Ok old /\
          storage.Role old = "user" /\
          (w', c) = main.editMessageCmd demoWorld (storage.Content old)
                      (main.cursorIndex hiEditingModel)))
  | Panic _ => False
  end.
Proof.
  destruct (main.Update demoEnv demoWorld hiEditingModel (key tea.KeyEnter))
    as [[[w' m'] c]|why] eqn:U.
  - exact (Update_writes_temp_file_only_to_edit demoEnv demoWorld w' hiEditingModel m'
             (key tea.KeyEnter) c U).
  - vm_compute in U. discriminate U.
Defined.

(** What that step leaves: the file with the message, and the editor to
    run on it. *)
Lemma edit_of_hi_starts_editor :
  exists m',
    main.Update demoEnv demoWorld hiEditingModel (key tea.KeyEnter)
    = Ok (main.set_tmpFiles demoWorld [("/tmp/gpt-term-edit-1.txt", "hi")], m',
          main.cmdExecEditor "nvim" "/tmp/gpt-term-edit-1.txt" 1).
Proof.
  destruct (edit_starts demoEnv demoWorld hiEditingModel
              {| tea.Type_ := tea.KeyEnter; tea.Runes := ""; tea.Alt := false |}
              (userMessage "hi") eq_refl eq_refl eq_refl eq_refl) as [m' U].
  exists m'. exact U.
Qed.



(** ** Reachable models *)

Lemma initialModel_selectionValid (w : main.World) : selectionValid (main.initialModel w).
Proof. intros D. discriminate D. Qed.

(** X21. In every model the program can reach from its initial model the
    conversation holds the history the model shows, and the selection
    list, when it is shown, is not empty, has its selected index among its
    indices and holds matches of two strings. *)
Theorem reachable_models_are_consistent (E : main.Env) (m : main.model) :
  reachable E m -> synced m /\ selectionValid m.
Proof.
  induction 1 as [w|w w' m m' msg c R [S V] U].
  - split; [reflexivity | apply initialModel_selectionValid].
  - split.
    + exact (sync_step E w w' m m' msg c U S).
    + exact (selection_step E w w' m m' msg c U V).
Qed.

Lemma reachable_models_are_consistent_CtrlJ :
  synced (main.updateViewport demoEnv
            (main.set_cursorIndex
               (main.set_mode (main.initialModel demoWorld) main.ModeEditing) 0)) /\
  selectionValid (main.updateViewport demoEnv
            (main.set_cursorIndex
               (main.set_mode (main.initialModel demoWorld) main.ModeEditing) 0)).
Proof.
  apply (reachable_models_are_consistent demoEnv).
  apply (reach_step demoEnv demoWorld demoWorld (main.initialModel demoWorld) _
           (key tea.KeyCtrlJ) main.cmdNil (reach_init demoEnv demoWorld)).
  reflexivity.
Defined.

(* ===================================================================== *)
(** * The views and the viewport *)
(* ===================================================================== *)

(** ** The normal view and the system message *)

Lemma withSystemText_len (text : string) (msgs : list storage.Message) :
  len (withSystemText text msgs) = len msgs.
Proof. unfold len, withSystemText. now rewrite length_map. Qed.

(** X22. The normal view does not show the system prompt: with the content
    of the system messages replaced by any other text the view is the
    same. *)
Theorem normalView_hides_system_text (E : main.Env) (m : main.model) (text : string) :
  main.normalView E (main.set_messages m (withSystemText text (main.messages m)))
  = main.normalView E m.
Proof.
  unfold main.normalView.
  cbn [main.messages main.set_messages main.conversation].
  rewrite withSystemText_len.
  unfold withSystemText. rewrite map_map. f_equal.
  apply map_ext. intros msg.
  destruct (storage.Role msg =? "system") eqn:R.
  - cbn [main.set_msg_Content storage.Role]. now rewrite R.
  - now rewrite R.
Qed.

(** ** Scrolling the history list to the selection *)

Lemma Split_length (s : string) (sep : ascii) :
  List.length (strings.Split s sep) = S (strings.Count s sep).
Proof.
  induction s as [|c t IH]; [reflexivity|].
  simpl. destruct (Ascii.eqb c sep).
  - simpl. now rewrite IH.
  - destruct (strings.Split t sep) as [|l ls]; [discriminate IH|exact IH].
Qed.

Lemma Count_append (a b : string) (sep : ascii) :
  strings.Count (a ++ b) sep = (strings.Count a sep + strings.Count b sep)%nat.
Proof.
  induction a as [|c t IH]; [reflexivity|].
  simpl. rewrite IH. now destruct (Ascii.eqb c sep).
Qed.

Lemma Count_nl : strings.Count main.nl "010"%char = 1%nat.
Proof. reflexivity. Qed.

Lemma historyLines_Count (E : main.Env) (m : main.model) (convs : list storage.Conversation)
    (i : Z) :
  (List.length convs <= strings.Count (main.historyLines E m i convs) "010"%char)%nat.
Proof.
  revert i. induction convs as [|conv rest IH]; intros i; [apply Nat.le_0_l|].
  cbn [main.historyLines]. cbv zeta. rewrite Count_append.
  specialize (IH (i + 1)%Z).
  destruct (i =? main.selectedConv m)%Z; rewrite Count_append, Count_nl;
    cbn [List.length]; lia.
Qed.

Lemma historyView_lines (E : main.Env) (m : main.model) :
  (len (main.conversations m) + 4
   <= len (strings.Split (main.historyView E m) "010"%char))%Z.
Proof.
  unfold len. rewrite Split_length. unfold main.historyView.
  rewrite !Count_append, Count_nl.
  pose proof (historyLines_Count E m (main.sortConvs (main.conversations m)) 0) as C.
  pose proof (sortConvs_len (main.conversations m)) as L. unfold len in L.
  lia.
Qed.

(** X23. [ensureConversationVisible] brings the line it aims at into the
    window: for an index of the history list and a viewport of at least
    one line, line [index + 2] of the view lies between the offset and the
    offset plus the height. *)
Theorem ensureConversationVisible_shows_target (E : main.Env) (m : main.model)
    (index : Z) :
  (0 <= index < len (main.conversations m))%Z ->
  (0 < viewport.Height (main.viewport m))%Z ->
  let vp := main.viewport (main.ensureConversationVisible E m index) in
  (viewport.YOffset vp <= index + 2 < viewport.YOffset vp + viewport.Height vp)%Z.
Proof.
  intros R Hp. pose proof (historyView_lines E m) as L.
  unfold main.ensureConversationVisible.
  cbn [main.viewport main.set_viewport viewport.YOffset viewport.Height
       viewport.set_YOffset viewport.SetContent viewport.set_lines].
  set (total := len (strings.Split (main.historyView E m) "010"%char)) in *.
  set (h := viewport.Height (main.viewport m)) in *.
  assert (Q : (0 <= Z.quot h 2 /\ 2 * Z.quot h 2 <= h)%Z).
  { split; [apply Z.quot_pos; lia|]. apply Z.mul_quot_le; lia. }
  clearbody total h. cbv zeta.
  cases_Z; lia.
Qed.

Lemma ensureConversationVisible_shows_target_historyListModel :
  let vp := main.viewport (main.ensureConversationVisible demoEnv historyListModel 9) in
  (viewport.YOffset vp <= 9 + 2 < viewport.YOffset vp + viewport.Height vp)%Z.
Proof.
  apply (ensureConversationVisible_shows_target demoEnv historyListModel 9).
  - vm_compute. split; [discriminate | reflexivity].
  - vm_compute. reflexivity.
Defined.

(** ** Scrolling edit navigation to the cursor *)

Lemma iter_LineDown (n : nat) (vp : viewport.Model) :
  viewport.lines vp <> [] ->
  (0 <= viewport.YOffset vp <= viewport.maxYOffset vp)%Z ->
  viewport.lines (Nat.iter n (fun vp => viewport.LineDown vp 1) vp) = viewport.lines vp /\
  viewport.Height (Nat.iter n (fun vp => viewport.LineDown vp 1) vp) = viewport.Height vp /\
  viewport.YOffset (Nat.iter n (fun vp => viewport.LineDown vp 1) vp)
  = Z.min (viewport.YOffset vp + Z.of_nat n) (viewport.maxYOffset vp).
Proof.
  intros NE R. induction n as [|n (L & Hh & Y)].
  - simpl. repeat split. lia.
  - rewrite Nat.iter_succ.
    set (r := Nat.iter n (fun vp => viewport.LineDown vp 1) vp) in *.
    assert (M : viewport.maxYOffset r = viewport.maxYOffset vp)
      by (unfold viewport.maxYOffset, viewport.TotalLineCount; now rewrite L, Hh).
    assert (T : (viewport.TotalLineCount r =? 0)%Z = false).
    { unfold viewport.TotalLineCount. rewrite L. apply Z.eqb_neq.
      pose proof (len_pos _ NE). lia. }
    unfold viewport.LineDown, viewport.AtBottom. rewrite M, Y, T.
    cbn [Z.eqb orb]. rewrite !orb_false_r.
    destruct (Z.leb_spec (viewport.maxYOffset vp)
                (Z.min (viewport.YOffset vp + Z.of_nat n) (viewport.maxYOffset vp))).
    + repeat split; [assumption | assumption | lia].
    + unfold viewport.scrollBy, viewport.clamp.
      cbn [viewport.lines viewport.Height viewport.YOffset viewport.set_YOffset].
      rewrite M, Y. repeat split; [assumption | assumption | lia].
Qed.

(** X24. [ensureMessageVisible] leaves the viewport inside its content:
    the offset is between 0 and the largest offset of the new content, and
    for the last message of the history it is the largest offset: the
    view is at the bottom. *)
Theorem ensureMessageVisible_offset (E : main.Env) (m : main.model) (index : Z) :
  let vp := main.viewport (main.ensureMessageVisible E m index) in
  (0 <= viewport.YOffset vp <= viewport.maxYOffset vp)%Z /\
  (index = (len (main.messages m) - 1)%Z ->
   viewport.YOffset vp = viewport.maxYOffset vp).
Proof.
  unfold main.ensureMessageVisible.
  cbn [main.viewport main.set_viewport].
  set (content := main.editingView E m).
  set (vp0 := viewport.GotoTop (viewport.SetContent (main.viewport m) content)).
  set (t := main.findTargetLine E (strings.Split content "010"%char) 0 (-1) index).
  assert (M0 : viewport.maxYOffset vp0
               = Z.max 0 (len (strings.Split content "010"%char)
                          - viewport.Height (main.viewport m))) by reflexivity.
  assert (Y0 : viewport.YOffset vp0 = 0%Z) by reflexivity.
  cbn [viewport.Height viewport.SetContent viewport.set_lines].
  set (total := len (strings.Split content "010"%char)) in *.
  set (h := viewport.Height (main.viewport m)) in *.
  set (q := Z.quot h 4).
  cbv zeta.
  set (d := if (_ <? _)%Z then _ else _).
  assert (D : (0 <= d <= Z.max 0 (total - h))%Z /\
              (index = (len (main.messages m) - 1)%Z -> d = Z.max 0 (total - h))).
  { subst d. clearbody total h q t. split.
    - cases_Z; lia.
    - intros ->. rewrite Z.eqb_refl. cases_Z; lia. }
  clearbody d.
  assert (R0 : (0 <= viewport.YOffset vp0 <= viewport.maxYOffset vp0)%Z)
    by (rewrite Y0, M0; lia).
  assert (NE0 : viewport.lines vp0 <> []) by (apply Split_nonempty).
  destruct (iter_LineDown (Z.to_nat d) vp0 NE0 R0) as (L & Hh & Y).
  set (r := Nat.iter (Z.to_nat d) (fun vp => viewport.LineDown vp 1) vp0) in *.
  assert (M : viewport.maxYOffset r = viewport.maxYOffset vp0)
    by (unfold viewport.maxYOffset, viewport.TotalLineCount; now rewrite L, Hh).
  rewrite M, Y, Y0, M0. clearbody total h. destruct D as [D1 D2].
  split; [lia|]. intros I. specialize (D2 I). lia.
Qed.

(** ** What the views show of a message *)

Lemma replaceAll_fuel (repl : string -> string) (n k : nat) (s : string) :
  length s <= n -> length s <= k ->
  regexp.replaceAll regexp.matchCommand repl n s
  = regexp.replaceAll regexp.matchCommand repl k s.
Proof.
  revert k s. induction n as [|n IH]; intros k s Ln Lk.
  - destruct s; simpl in Ln; [|lia].
    destruct k; reflexivity.
  - destruct k as [|k].
    + destruct s; simpl in Lk; [reflexivity | lia].
    + simpl. destruct (regexp.matchCommand s) as [[[b i] a]|] eqn:M; [|reflexivity].
      apply matchCommand_length in M. do 2 f_equal. apply IH; lia.
Qed.

Lemma replaceAll_None (matcher : string -> option (string * string * string))
    (repl : string -> string) (n : nat) (s : string) :
  matcher s = None -> regexp.replaceAll matcher repl n s = s.
Proof. intros M. destruct n; simpl; [reflexivity | now rewrite M]. Qed.

Lemma Cut_suffix (a b sep : string) :
  strings.Cut (a ++ b) sep = None -> strings.Cut b sep = None.
Proof.
  induction a as [|c a IH]; intros H; [exact H|].
  apply IH. rewrite Cut_eq in H.
  destruct (strings.HasPrefix (String c a ++ b) sep); [discriminate|].
  simpl in H. destruct (strings.Cut (a ++ b) sep) as [[x y]|]; [discriminate | reflexivity].
Qed.

Lemma codeBlocks_none (repl : string -> string) (s : string) :
  strings.Cut s regexp.fence = None ->
  regexp.ReplaceAllStringFunc regexp.matchCodeBlock repl s = s.
Proof.
  intros C. apply replaceAll_None. unfold regexp.matchCodeBlock. now rewrite C.
Qed.

(** X25. A text with no code fence and no opening command tag is shown as
    it is: [formatContent] returns it unchanged. *)
Theorem formatContent_plain_text (E : main.Env) (s : string) :
  strings.Contains s "```" = false ->
  strings.Contains s "<command>" = false ->
  main.formatContent E s = s.
Proof.
  intros F C. apply Contains_false in F, C.
  unfold main.formatContent. rewrite (codeBlocks_none _ s F).
  apply replaceAll_None. unfold regexp.matchCommand, regexp.openTag. now rewrite C.
Qed.

Lemma formatContent_plain_text_hello :
  main.formatContent demoEnv "hello, world" = "hello, world".
Proof.
  apply (formatContent_plain_text demoEnv "hello, world"); reflexivity.
Defined.

(** X26. The views show the command that would be run: in a text without
    code fence, a command wrapped in the two tags (no opening tag before
    it, no closing tag inside) is replaced by the rendering of the trimmed
    command, the same string that extraction gives for it, and the rest of
    the text is formatted in the same way. *)
Theorem formatContent_shows_trimmed_command (E : main.Env) (before cmd rest : string) :
  strings.Contains (before ++ "<command>" ++ cmd ++ "</command>" ++ rest) "```" = false ->
  strings.Contains before "<command>" = false ->
  strings.Contains cmd "</command>" = false ->
  main.formatContent E (before ++ "<command>" ++ cmd ++ "</command>" ++ rest)
  = before ++ main.Render E main.commandStyle (strings.TrimSpace cmd)
    ++ main.formatContent E rest
  /\ main.extract (before ++ "<command>" ++ cmd ++ "</command>" ++ rest)
     = strings.TrimSpace cmd :: main.extract rest.
Proof.
  intros F B C. apply Contains_false in F, B, C.
  assert (M : regexp.matchCommand (before ++ "<command>" ++ cmd ++ "</command>" ++ rest)
              = Some (before, cmd, rest)).
  { unfold regexp.matchCommand, regexp.openTag, regexp.closeTag.
    rewrite (Cut_append before (cmd ++ "</command>" ++ rest) "command>" "<"%char eq_refl B).
    now rewrite (Cut_append cmd rest "/command>" "<"%char eq_refl C). }
  split; [|rewrite extract_eq; now rewrite M].
  assert (Fr : strings.Cut rest regexp.fence = None).
  { apply (Cut_suffix (before ++ "<command>" ++ cmd ++ "</command>")).
    rewrite !append_assoc. exact F. }
  unfold main.formatContent.
  rewrite (codeBlocks_none _ _ F), (codeBlocks_none _ rest Fr).
  unfold regexp.ReplaceAllStringFunc.
  pose proof (matchCommand_length _ _ _ _ M) as L.
  destruct (length (before ++ "<command>" ++ cmd ++ "</command>" ++ rest)) as [|n] eqn:Ls;
    [lia|].
  cbn [regexp.replaceAll]. rewrite M. do 2 f_equal.
  apply replaceAll_fuel; lia.
Qed.

Lemma formatContent_shows_trimmed_command_ls :
  main.formatContent demoEnv
    ("first " ++ "<command>" ++ " ls -la " ++ "</command>" ++ " then <command>pwd</command>")
  = "first " ++ main.Render demoEnv main.commandStyle (strings.TrimSpace " ls -la ")
    ++ main.formatContent demoEnv " then <command>pwd</command>"
  /\ main.extract
       ("first " ++ "<command>" ++ " ls -la " ++ "</command>"
        ++ " then <command>pwd</command>")
     = strings.TrimSpace " ls -la " :: main.extract " then <command>pwd</command>".
Proof.
  apply (formatContent_shows_trimmed_command demoEnv "first " " ls -la "
           " then <command>pwd</command>"); reflexivity.
Defined.
